(** * serverless-webpack: entry and configuration resolution ([lib/validate.js])

    A shallow embedding of [validate()] and of the JavaScript, Node [path] and
    lodash operations it is written with, followed by the properties of the
    resolver that the design document states.

    - Strings are sequences of code units below 256.
    - An object is the list of its own properties in enumeration order:
      array indices first, ascending, then the other keys as inserted.
    - [path] is the POSIX one; the working directory of the process is part
      of the environment, with the listing service, the file test, the
      module loader and the regular expression engine on the patterns that
      are not modelled.
    - [validate] is a function on a world: the log, the calls of the listing
      and removal services, the shared module [lib] and the fields of the
      plugin instance it writes.  It throws, or returns a promise that is
      resolved or rejected.
    - The options are read only.  The service is one object for the plugin
      and for [lib]; of the service [validate] writes nothing but the
      configuration object in [service.custom.webpack], when there is one,
      which is the object in [this.webpackConfig] until the fan-out: what is
      written to the configuration is then written to the service that [lib]
      holds as well.
    - A handler is also read as a string of 16-bit code units, for the line
      terminators that are not below 256. *)

From Stdlib Require Import String Ascii List Bool Arith PeanoNat Lia NArith.
From Stdlib Require Import Permutation.
Import ListNotations.

Local Open Scope list_scope.
Local Open Scope string_scope.

(** ** JavaScript values used by the plugin *)

(** Drop the longest prefix whose elements satisfy [p]. *)
Fixpoint dropWhile {A} (p : A -> bool) (l : list A) : list A :=
  match l with
  | [] => []
  | x :: r => if p x then dropWhile p r else l
  end.

(** The longest prefix whose elements satisfy [p]. *)
Fixpoint takeWhile {A} (p : A -> bool) (l : list A) : list A :=
  match l with
  | [] => []
  | x :: r => if p x then x :: takeWhile p r else []
  end.

Module Js.

(** [!s] is false exactly for the non-empty string. *)
Definition truthy (s : string) : bool :=
  match s with EmptyString => false | String _ _ => true end.

(** [x || d] on an optional string ([undefined] and [''] are falsy). *)
Definition or_else (x : option string) (d : string) : string :=
  match x with
  | Some s => if truthy s then s else d
  | None => d
  end.

(** Truthiness of an optional string property. *)
Definition truthy_opt (x : option string) : bool :=
  match x with Some s => truthy s | None => false end.

(** The line terminators that [.] does not match in a regular expression
    (of the code units below 256: line feed and carriage return). *)
Definition isLineTerminator (c : ascii) : bool :=
  (c =? "010")%char || (c =? "013")%char.

Definition chars (s : string) : list ascii := list_ascii_of_string s.
Definition str (l : list ascii) : string := string_of_list_ascii l.

(** String template pieces: what [`${x}`] prints for a missing value. *)
Definition show_opt (x : option string) : string :=
  match x with Some s => s | None => "undefined" end.

(** The line feed, for the messages that contain one. *)
Definition nl : string := String "010" EmptyString.

Definition isDigit (c : ascii) : bool :=
  ((48 <=? nat_of_ascii c) && (nat_of_ascii c <=? 57))%nat.

Definition digitValue (c : ascii) : N := N.of_nat (nat_of_ascii c - 48).

(** An array index is a canonical numeric string (no sign, no leading zero)
    whose value is at most 2^32 - 2.  Own property keys that are array indices
    are enumerated first, in ascending numeric order. *)
Definition arrayIndex (k : string) : option N :=
  let cs := chars k in
  match cs with
  | [] => None
  | c :: r =>
      if forallb isDigit cs && (negb (c =? "0")%char || match r with [] => true | _ => false end)
         && (List.length cs <=? 10)%nat
      then
        let n := fold_left (fun acc d => (acc * 10 + digitValue d)%N) cs 0%N in
        if (n <=? 4294967294)%N then Some n else None
      else None
  end.

End Js.

(** ** Objects: own string-keyed properties in enumeration order *)

Module Obj.

Definition t (V : Type) : Type := list (string * V).

Section Ops.
Context {V : Type}.

Fixpoint get (k : string) (o : t V) : option V :=
  match o with
  | [] => None
  | (k', v) :: r => if (k =? k')%string then Some v else get k r
  end.

Definition has (k : string) (o : t V) : bool :=
  match get k o with Some _ => true | None => false end.

(** [Object.keys(o)]. *)
Definition keys (o : t V) : list string := map fst o.

(** Overwrite the value of an existing property; its place is kept. *)
Fixpoint replace (k : string) (v : V) (o : t V) : t V :=
  match o with
  | [] => []
  | (k', v') :: r =>
      if (k =? k')%string then (k', v) :: r else (k', v') :: replace k v r
  end.

(** Place a new array-index property [k] (of value [n]) among the array
    indices, which come first and ascend. *)
Fixpoint insertIndex (n : N) (k : string) (v : V) (o : t V) : t V :=
  match o with
  | [] => [(k, v)]
  | (k', v') :: r =>
      match Js.arrayIndex k' with
      | Some n' => if (n' <? n)%N then (k', v') :: insertIndex n k v r
                   else (k, v) :: o
      | None => (k, v) :: o
      end
  end.

(** [o[k] = v]. *)
Definition set (k : string) (v : V) (o : t V) : t V :=
  if has k o then replace k v o
  else match Js.arrayIndex k with
       | Some n => insertIndex n k v o
       | None => (o ++ [(k, v)])%list
       end.

(** [_.merge(o, src)] for a source whose values are not objects: every
    property of the source is assigned, in the source's order. *)
Definition merge (o src : t V) : t V :=
  fold_left (fun acc kv => set (fst kv) (snd kv) acc) src o.

(** [_.isEmpty(o)]. *)
Definition isEmpty (o : t V) : bool :=
  match o with [] => true | _ => false end.

End Ops.

End Obj.

(** ** Node's [path] module (POSIX flavour) *)

Module Path.

Definition slash : ascii := "/"%char.
Definition dot : ascii := "."%char.

Definition isSlash (c : ascii) : bool := (c =? slash)%char.
Definition isDot (c : ascii) : bool := (c =? dot)%char.

(** The last component of a path, read right to left: trailing separators are
    skipped, then everything up to the next separator is the component.  The
    result is the component reversed. *)
Definition lastPartRev (p : list ascii) : list ascii :=
  takeWhile (fun c => negb (isSlash c)) (dropWhile isSlash (rev p)).

(** [path.extname] on the reversed last component [rc]: [rc] is split at its
    first dot (the component's last dot) into the reversed extension and the
    reversed stem.  No dot, an empty stem (a dot file), or the component [..]
    give the empty extension. *)
Definition extnameRev (rc : list ascii) : list ascii :=
  let rext := takeWhile (fun c => negb (isDot c)) rc in
  match dropWhile (fun c => negb (isDot c)) rc with
  | [] => []
  | _ :: rstem =>
      match rstem, rext with
      | [], _ => []
      | [c], [] => if isDot c then [] else [dot]
      | _, _ => dot :: rev rext
      end
  end.

(** [path.extname(p)]. *)
Definition extname (p : string) : string :=
  Js.str (extnameRev (lastPartRev (Js.chars p))).

(** The pieces of a path between its separators ([p.split('/')]). *)
Fixpoint splitRev (cur : list ascii) (l : list ascii) : list string :=
  match l with
  | [] => [Js.str (rev cur)]
  | c :: r => if isSlash c then Js.str (rev cur) :: splitRev [] r
              else splitRev (c :: cur) r
  end.

Definition segments (p : string) : list string := splitRev [] (Js.chars p).

(** [segs.join('/')]. *)
Fixpoint joinSegs (segs : list string) : string :=
  match segs with
  | [] => ""
  | [s] => s
  | s :: r => s ++ "/" ++ joinSegs r
  end.

(** [normalizeString]: empty and [.] segments vanish, [..] removes the
    segment before it; at the top [..] is kept when [allowAboveRoot] and
    dropped otherwise.  [acc] is the result so far, last segment first. *)
Fixpoint normalizeSegs (allowAboveRoot : bool) (acc segs : list string) : list string :=
  match segs with
  | [] => rev acc
  | s :: r =>
      if (s =? "")%string || (s =? ".")%string then normalizeSegs allowAboveRoot acc r
      else if (s =? "..")%string then
        match acc with
        | [] => normalizeSegs allowAboveRoot (if allowAboveRoot then [".."] else []) r
        | top :: below =>
            if (top =? "..")%string
            then normalizeSegs allowAboveRoot (if allowAboveRoot then ".." :: acc else acc) r
            else normalizeSegs allowAboveRoot below r
        end
      else normalizeSegs allowAboveRoot (s :: acc) r
  end.

Definition isAbsolute (p : string) : bool :=
  match p with String c _ => isSlash c | EmptyString => false end.

Definition endsWithSlash (p : string) : bool :=
  match rev (Js.chars p) with c :: _ => isSlash c | [] => false end.

(** [path.normalize(p)]. *)
Definition normalize (p : string) : string :=
  match p with
  | EmptyString => "."
  | _ =>
      let body := joinSegs (normalizeSegs (negb (isAbsolute p)) [] (segments p)) in
      match body with
      | EmptyString =>
          if isAbsolute p then "/" else if endsWithSlash p then "./" else "."
      | _ =>
          (if isAbsolute p then "/" else "") ++ body ++ (if endsWithSlash p then "/" else "")
      end
  end.

(** [path.join(...args)] on string arguments: the non-empty arguments are
    joined with a separator and the result is normalized. *)
Definition join (args : list string) : string :=
  match filter Js.truthy args with
  | [] => "."
  | parts => normalize (joinSegs parts)
  end.

(** The segments of [path.resolve(p)] below the root, for the working
    directory [cwd]. *)
Definition resolveSegs (cwd p : string) : list string :=
  normalizeSegs false []
    (if isAbsolute p then segments p else (segments cwd ++ segments p)%list).

(** Remove the common leading segments of two resolved paths. *)
Fixpoint stripCommon (from to : list string) : list string * list string :=
  match from, to with
  | f :: from', t :: to' =>
      if (f =? t)%string then stripCommon from' to' else (from, to)
  | _, _ => (from, to)
  end.

(** [path.relative('.', to)] in the working directory [cwd]: one [..] for
    every remaining segment of the working directory, then what remains of
    the target. *)
Definition relativeFromCwd (cwd to : string) : string :=
  let '(ups, rest) := stripCommon (resolveSegs cwd "") (resolveSegs cwd to) in
  joinSegs (map (fun _ => "..") ups ++ rest)%list.

End Path.

(** ** lodash *)

Module Lodash.

(** [_.includes(list, s)] on an array of strings. *)
Definition includes (l : list string) (s : string) : bool :=
  existsb (String.eqb s) l.

(** [_.sortBy(l, key)]: a stable ascending sort, here by insertion.  An element
    is placed before the first element whose key is not smaller, so elements
    with equal keys keep their order. *)
Fixpoint insertBy {A} (key : A -> nat) (x : A) (l : list A) : list A :=
  match l with
  | [] => [x]
  | y :: r => if (key x <=? key y)%nat then x :: l else y :: insertBy key x r
  end.

Definition sortBy {A} (key : A -> nat) (l : list A) : list A :=
  fold_right (insertBy key) [] l.

(** [_.uniq(l)]: the first occurrence of every element, in order. *)
Fixpoint uniqFrom (seen l : list string) : list string :=
  match l with
  | [] => []
  | x :: r =>
      if includes seen x then uniqFrom seen r
      else x :: uniqFrom (x :: seen) r
  end.

Definition uniq (l : list string) : list string := uniqFrom [] l.

(** [_.size] of a string and of an array. *)
Definition size (s : string) : nat := String.length s.

(** [_.first(l)], [undefined] on the empty array. *)
Definition first {A} (l : list A) : option A := hd_error l.

(** *** [_.camelCase]

    The string is deburred (Latin-1 letters become basic Latin letters),
    apostrophes are removed, the result is cut into words, and the words are
    joined, lower-cased, each but the first capitalized. *)

Definition isLower (c : ascii) : bool :=
  ((97 <=? nat_of_ascii c) && (nat_of_ascii c <=? 122))%nat.

Definition isUpper (c : ascii) : bool :=
  ((65 <=? nat_of_ascii c) && (nat_of_ascii c <=? 90))%nat.

Definition toLower (c : ascii) : ascii :=
  if isUpper c then ascii_of_nat (nat_of_ascii c + 32) else c.

Definition toUpper (c : ascii) : ascii :=
  if isLower c then ascii_of_nat (nat_of_ascii c - 32) else c.

Definition inRange (lo hi n : nat) : bool := ((lo <=? n) && (n <=? hi))%nat.

(** [deburrLetter]: the basic Latin letters for a Latin-1 Supplement letter. *)
Definition deburrLetter (c : ascii) : list ascii :=
  let n := nat_of_ascii c in
  if inRange 192 197 n then ["A"%char]
  else if inRange 224 229 n then ["a"%char]
  else if (n =? 199)%nat then ["C"%char]
  else if (n =? 231)%nat then ["c"%char]
  else if (n =? 208)%nat then ["D"%char]
  else if (n =? 240)%nat then ["d"%char]
  else if inRange 200 203 n then ["E"%char]
  else if inRange 232 235 n then ["e"%char]
  else if inRange 204 207 n then ["I"%char]
  else if inRange 236 239 n then ["i"%char]
  else if (n =? 209)%nat then ["N"%char]
  else if (n =? 241)%nat then ["n"%char]
  else if inRange 210 214 n || (n =? 216)%nat then ["O"%char]
  else if inRange 242 246 n || (n =? 248)%nat then ["o"%char]
  else if inRange 217 220 n then ["U"%char]
  else if inRange 249 252 n then ["u"%char]
  else if (n =? 221)%nat then ["Y"%char]
  else if (n =? 253)%nat || (n =? 255)%nat then ["y"%char]
  else if (n =? 198)%nat then ["A"%char; "e"%char]
  else if (n =? 230)%nat then ["a"%char; "e"%char]
  else if (n =? 222)%nat then ["T"%char; "h"%char]
  else if (n =? 254)%nat then ["t"%char; "h"%char]
  else if (n =? 223)%nat then ["s"%char; "s"%char]
  else [c].

Definition deburr (l : list ascii) : list ascii := flat_map deburrLetter l.

Definition isApostrophe (c : ascii) : bool := (c =? "'")%char.

(** The words of a string.  A word is a run of lower-case letters with at
    most one upper-case letter in front, a run of upper-case letters (without
    its last letter when a lower-case letter follows), or a run of digits,
    with its ordinal suffix when it has one.  Every other character
    separates words. *)
Inductive WordState :=
| Idle
| InLower (cur : list ascii)
| InUpper (cur : list ascii)
| InDigits (cur : list ascii)
| InOrdinal (n : nat) (cur : list ascii).

Definition nextIsLower (r : list ascii) : bool :=
  match r with x :: _ => isLower x | [] => false end.

Definition startWord (c : ascii) (r : list ascii) : WordState :=
  if isLower c then InLower [c]
  else if isUpper c then (if nextIsLower r then InLower [c] else InUpper [c])
  else if Js.isDigit c then InDigits [c]
  else Idle.

(** The two letters that make an ordinal of the digit [d], upper case. *)
Definition ordinalSuffix (d : ascii) : ascii * ascii :=
  if (d =? "1")%char then ("S", "T")%char
  else if (d =? "2")%char then ("N", "D")%char
  else if (d =? "3")%char then ("R", "D")%char
  else ("T", "H")%char.

(** Whether the digits [cur] (last digit first) followed by [rest] are an
    ordinal: the suffix of the last digit, all in upper case and not followed
    by an upper-case letter or a digit, or all in lower case and not followed
    by a lower-case letter or a digit. *)
Definition ordinalAt (cur rest : list ascii) : bool :=
  match cur, rest with
  | d :: _, a :: b :: after =>
      let '(x, y) := ordinalSuffix d in
      let follows (bad : ascii -> bool) :=
        match after with
        | [] => true
        | z :: _ => negb (bad z || Js.isDigit z)
        end in
      ((a =? x)%char && (b =? y)%char && follows isUpper)
      || ((a =? toLower x)%char && (b =? toLower y)%char && follows isLower)
  | _, _ => false
  end.

Definition flushWord (st : WordState) : list string :=
  match st with
  | Idle => []
  | InLower cur | InUpper cur | InDigits cur | InOrdinal _ cur => [Js.str (rev cur)]
  end.

Fixpoint wordsFrom (st : WordState) (l : list ascii) : list string :=
  match l with
  | [] => flushWord st
  | c :: r =>
      let restart := (flushWord st ++ wordsFrom (startWord c r) r)%list in
      match st with
      | Idle => restart
      | InLower cur =>
          if isLower c then wordsFrom (InLower (c :: cur)) r else restart
      | InUpper cur =>
          if isUpper c && negb (nextIsLower r)
          then wordsFrom (InUpper (c :: cur)) r else restart
      | InDigits cur =>
          if Js.isDigit c then wordsFrom (InDigits (c :: cur)) r
          else if ordinalAt cur l then wordsFrom (InOrdinal 1 (c :: cur)) r
          else restart
      | InOrdinal (S n) cur => wordsFrom (InOrdinal n (c :: cur)) r
      | InOrdinal 0 cur => restart
      end
  end.

Definition words (l : list ascii) : list string := wordsFrom Idle l.

Definition toLowerCase (s : string) : string := Js.str (map toLower (Js.chars s)).

(** [_.capitalize]: the first character upper case, the others lower case. *)
Definition capitalize (s : string) : string :=
  match Js.chars s with
  | [] => ""
  | c :: r => Js.str (toUpper (toLower c) :: map toLower r)
  end.

Definition camelCase (s : string) : string :=
  let ws := words (filter (fun c => negb (isApostrophe c)) (deburr (Js.chars s))) in
  match ws with
  | [] => ""
  | w :: r => String.concat "" (toLowerCase w :: map capitalize r)
  end.

End Lodash.

(** ** The data the plugin works on *)

(** A declared function of the service. *)
Record ServerlessFunction := {
  handler : string;
  artifact : option string
}.

(** The [entry] of a bundler configuration: a file, a list of files, or an
    object of named files or lists of files. *)
Inductive EntryItem :=
| ItemFile (file : string)
| ItemFiles (files : list string).

Inductive Entry :=
| EntryFile (file : string)
| EntryFiles (files : list string)
| EntryObject (o : Obj.t EntryItem).

Record Output := {
  libraryTarget : option string;
  path : option string;
  filename : option string;
  outputRest : list (string * string)
}.

Record Config := {
  entry : option Entry;
  context : option string;
  target : option string;
  devtool : option string;
  output : option Output;
  configRest : list (string * string)
}.

(** [service.custom.webpack]: a file name or a configuration object. *)
Inductive ConfigSource :=
| ConfigFile (file : string)
| ConfigInline (c : Config).

(** [this.webpackConfig]: the file name, the configuration, or, once fanned
    out for individual packaging, one configuration per binding. *)
Inductive WebpackConfig :=
| WebpackFile (file : string)
| WebpackSingle (c : Config)
| WebpackMulti (cs : list Config).

Record Service := {
  functions : Obj.t ServerlessFunction;
  providerName : option string;
  customWebpack : option ConfigSource;
  packageIndividually : bool
}.

Record Serverless := {
  servicePath : string;
  service : Service
}.

Record Options := {
  function : option string;
  out : option string;
  verbose : bool;
  stage : option string
}.

(** The module [lib/index], shared with the configuration files. *)
Record Lib := {
  libServerless : option Serverless;
  libOptions : option Options;
  libEntries : option (Obj.t string)
}.

Record EntryRef := {
  key : string;
  value : string
}.

(** An element of [this.entryFunctions]. *)
Record EntryFunction := {
  handlerFile : option string;
  funcName : option string;
  func : option ServerlessFunction;
  entryRef : option EntryRef
}.

Inductive Error :=
| ServerlessError (message : string)
| TypeError
| RegExpSyntaxError
| LoadError (cause : string)
| AssertionError (message : string).

(** What the plugin is run in: the file system services, the module loader,
    the working directory of the process, and the regular expression engine
    on the patterns that are not modelled here. *)
Record Env := {
  globbySync : string -> string -> list string;
  fileExistsSync : string -> bool;
  requireConfig : string -> Lib -> Config + string;
  processCwd : string;
  regExpReplace : string -> string -> option string
}.

(** The plugin instance ([this]) as far as [validate] writes it. *)
Record Plugin := {
  webpackConfig : option WebpackConfig;
  multiCompile : option bool;
  entryFunctions : option (list EntryFunction);
  webpackOutputPath : option (option string)
}.

(** Everything [validate] can change or call out to. *)
Record World := {
  cliLog : list string;
  globCalls : list string;
  removeCalls : list (option string);
  lib : Lib;
  this : Plugin
}.

(** ** Computations that change the world and may throw *)

Inductive Result (A : Type) :=
| Ok (a : A)
| Throw (e : Error).
Arguments Ok {A} a.
Arguments Throw {A} e.

Definition M (A : Type) : Type := World -> Result A * World.

Definition ret {A} (a : A) : M A := fun w => (Ok a, w).

Definition throw {A} (e : Error) : M A := fun w => (Throw e, w).

Definition bind {A B} (m : M A) (k : A -> M B) : M B :=
  fun w =>
    match m w with
    | (Ok a, w') => k a w'
    | (Throw e, w') => (Throw e, w')
    end.

Notation "x <- m ;; k" := (bind m (fun x => k))
  (at level 61, m at next level, right associativity).
Notation "m ;;; k" := (bind m (fun _ => k))
  (at level 61, right associativity).

Definition modify (f : World -> World) : M unit := fun w => (Ok tt, f w).

(** An expression that may throw and touches nothing. *)
Definition lift {A} (r : Result A) : M A := fun w => (r, w).

Definition when (b : bool) (m : M unit) : M unit := if b then m else ret tt.

(** [_.forEach(l, f)] with a callback that may throw. *)
Fixpoint forEach {A S} (l : list A) (f : S -> A -> M S) (s : S) : M S :=
  match l with
  | [] => ret s
  | a :: r => s' <- f s a ;; forEach r f s'
  end.

(** [_.map(l, f)] with a callback that may throw. *)
Fixpoint mapM {A B} (f : A -> M B) (l : list A) : M (list B) :=
  match l with
  | [] => ret []
  | a :: r => b <- f a ;; bs <- mapM f r ;; ret (b :: bs)
  end.

(** The outcome of the promise [validate] returns. *)
Inductive Promise :=
| Resolved
| Rejected (e : Error).

(** ** The plugin *)

(** For automatic entry detection the found files are sorted to solve
    ambiguities. *)
Definition preferredExtensions : list string :=
  [".js"; ".ts"; ".jsx"; ".tsx"].

(** A file whose extension is one of the preferred ones. *)
Definition preferred (file : string) : bool :=
  Lodash.includes preferredExtensions (Path.extname file).

(** The pure core of [getEntryExtension]: the reordering of the found files,
    preferred extensions moved to the beginning. *)
Definition sortedFiles (files : list string) : list string :=
  Lodash.uniq (Lodash.sortBy Lodash.size (filter preferred files) ++ files)%list.

(** The part of a base path after its last separator, reversed. *)
Definition lastNameRev (b : string) : list ascii :=
  takeWhile (fun c => negb (Path.isSlash c)) (rev (Js.chars b)).

(** A base path that names a file: it is not empty and does not end with a
    separator. *)
Definition namesFile (b : string) : bool :=
  match rev (Js.chars b) with
  | c :: _ => negb (Path.isSlash c)
  | [] => false
  end.

(** [getHandlerFile]: the handler is matched against the pattern "a greedy
    group of any characters, a dot, any characters taken lazily, the end of
    the string".  Any character means any but a line terminator, so a match
    lies within the text after the last line terminator; it exists when that
    text has a dot, and the group is that text up to its last dot. *)
Definition getHandlerFile (handler : string) : option string :=
  let line := takeWhile (fun c => negb (Js.isLineTerminator c)) (rev (Js.chars handler)) in
  match dropWhile (fun c => negb (Path.isDot c)) line with
  | [] => None
  | _ :: rstem => Some (Js.str (rev rstem))
  end.

(** The same pattern on a string of any code units, with the line
    terminators and the dot among them. *)
Definition matchHandler {C : Type} (isLineTerminator isDot : C -> bool) (handler : list C)
  : option (list C) :=
  let line := takeWhile (fun c => negb (isLineTerminator c)) (rev handler) in
  match dropWhile (fun c => negb (isDot c)) line with
  | [] => None
  | _ :: rstem => Some (rev rstem)
  end.

(** A JavaScript string in full is a sequence of 16-bit code units.  Of
    these the dot of a regular expression does not match four: line feed,
    carriage return, line separator and paragraph separator. *)
Module Wide.

Definition isLineTerminator (u : N) : bool :=
  ((u =? 10) || (u =? 13) || (u =? 8232) || (u =? 8233))%N.

Definition isDot (u : N) : bool := (u =? 46)%N.

(** [getHandlerFile] on the code units of the handler. *)
Definition getHandlerFile (handler : list N) : option (list N) :=
  matchHandler isLineTerminator isDot handler.

(** The code units of a string of code units below 256. *)
Definition widen (s : string) : list N := map N_of_ascii (Js.chars s).

End Wide.

(** The characters with a meaning of their own in a regular expression. *)
Definition isSyntaxCharacter (c : ascii) : bool :=
  existsb (Ascii.eqb c) (Js.chars "^$\.*+?()[]{}|").

Definition dropLast {A} (n : nat) (l : list A) : list A := rev (skipn n (rev l)).

Definition endsWith (suffix l : list ascii) : bool :=
  Js.str (firstn (List.length suffix) (rev l)) =? Js.str (rev suffix).

Definition setCliLog (f : list string -> list string) (w : World) : World :=
  {| cliLog := f (cliLog w); globCalls := globCalls w; removeCalls := removeCalls w;
     lib := lib w; this := this w |}.

Definition setGlobCalls (f : list string -> list string) (w : World) : World :=
  {| cliLog := cliLog w; globCalls := f (globCalls w); removeCalls := removeCalls w;
     lib := lib w; this := this w |}.

Definition setRemoveCalls (f : list (option string) -> list (option string)) (w : World) : World :=
  {| cliLog := cliLog w; globCalls := globCalls w; removeCalls := f (removeCalls w);
     lib := lib w; this := this w |}.

Definition setLib (l : Lib) (w : World) : World :=
  {| cliLog := cliLog w; globCalls := globCalls w; removeCalls := removeCalls w;
     lib := l; this := this w |}.

Definition setThis (f : Plugin -> Plugin) (w : World) : World :=
  {| cliLog := cliLog w; globCalls := globCalls w; removeCalls := removeCalls w;
     lib := lib w; this := f (this w) |}.

Definition withWebpackConfig (c : WebpackConfig) (p : Plugin) : Plugin :=
  {| webpackConfig := Some c; multiCompile := multiCompile p;
     entryFunctions := entryFunctions p; webpackOutputPath := webpackOutputPath p |}.

Definition withMultiCompile (p : Plugin) : Plugin :=
  {| webpackConfig := webpackConfig p; multiCompile := Some true;
     entryFunctions := entryFunctions p; webpackOutputPath := webpackOutputPath p |}.

Definition withEntryFunctions (l : list EntryFunction) (p : Plugin) : Plugin :=
  {| webpackConfig := webpackConfig p; multiCompile := multiCompile p;
     entryFunctions := Some l; webpackOutputPath := webpackOutputPath p |}.

Definition withWebpackOutputPath (o : option string) (p : Plugin) : Plugin :=
  {| webpackConfig := webpackConfig p; multiCompile := multiCompile p;
     entryFunctions := entryFunctions p; webpackOutputPath := Some o |}.

Definition setContext (v : string) (c : Config) : Config :=
  {| entry := entry c; context := Some v; target := target c; devtool := devtool c;
     output := output c; configRest := configRest c |}.

Definition setTarget (v : string) (c : Config) : Config :=
  {| entry := entry c; context := context c; target := Some v; devtool := devtool c;
     output := output c; configRest := configRest c |}.

Definition setOutput (o : Output) (c : Config) : Config :=
  {| entry := entry c; context := context c; target := target c; devtool := devtool c;
     output := Some o; configRest := configRest c |}.

Definition setEntry (e : Entry) (c : Config) : Config :=
  {| entry := Some e; context := context c; target := target c; devtool := devtool c;
     output := output c; configRest := configRest c |}.

Definition setPath (v : string) (o : Output) : Output :=
  {| libraryTarget := libraryTarget o; path := Some v; filename := filename o;
     outputRest := outputRest o |}.

(** [_.isEmpty(output)]: the object has no property. *)
Definition outputIsEmpty (o : Output) : bool :=
  match libraryTarget o, path o, filename o, outputRest o with
  | None, None, None, [] => true
  | _, _, _, _ => false
  end.

(** An [entry] that is not falsy. *)
Definition entryIsTruthy (e : option Entry) : bool :=
  match e with
  | None => false
  | Some (EntryFile f) => Js.truthy f
  | Some _ => true
  end.

(** [_.isEqual(entry, entries)] against an object of strings: an object with
    as many properties, each of them a property of [entries] with the same
    string. *)
Definition isEqualEntries (e : Entry) (entries : Obj.t string) : bool :=
  match e with
  | EntryObject o =>
      (List.length o =? List.length entries)%nat
      && forallb (fun kv =>
                    match snd kv, Obj.get (fst kv) entries with
                    | ItemFile f, Some s => (f =? s)%string
                    | _, _ => false
                    end) o
  | _ => false
  end.

(** [c.entry && !_.isEqual(c.entry, entries)]. *)
Definition entryConflicts (c : Config) (entries : Obj.t string) : bool :=
  entryIsTruthy (entry c)
  && negb (match entry c with
           | Some e => isEqualEntries e entries
           | None => false
           end).

(** A reference to an element of [entryFunctions]: an element of
    [allEntryFunctions], which is shared by every entry it matches, or an
    object made for the entry. *)
Inductive BindingRef :=
| Shared (i : nat)
| Fresh (b : EntryFunction).

Definition withEntryRef (e : EntryRef) (b : EntryFunction) : EntryFunction :=
  {| handlerFile := handlerFile b; funcName := funcName b; func := func b;
     entryRef := Some e |}.

(** [_.filter(allEntryFunctions, ['handlerFile', entryFile])], as positions. *)
Fixpoint matchingFrom (i : nat) (entryFile : string) (all : list EntryFunction) : list nat :=
  match all with
  | [] => []
  | b :: r =>
      match handlerFile b with
      | Some h => if (h =? entryFile)%string then i :: matchingFrom (S i) entryFile r
                  else matchingFrom (S i) entryFile r
      | None => matchingFrom (S i) entryFile r
      end
  end.

(** The object made for an entry that no function matches. *)
Definition freshBinding (kv : string * string) : EntryFunction :=
  {| handlerFile := None; funcName := None; func := None;
     entryRef := Some {| key := fst kv; value := snd kv |} |}.

(** [entryFunc.entry = e] on the elements at the positions [hits]. *)
Definition assignEntry (hits : list nat) (e : EntryRef) (all : list EntryFunction)
  : list EntryFunction :=
  map (fun ib => if existsb (Nat.eqb (fst ib)) hits then withEntryRef e (snd ib) else snd ib)
      (combine (seq 0 (List.length all)) all).

(** The element a reference stands for, in the elements [all] as they are
    after all assignments. *)
Definition deref (all : list EntryFunction) (r : BindingRef) : EntryFunction :=
  match r with
  | Shared i => nth i all {| handlerFile := None; funcName := None; func := None; entryRef := None |}
  | Fresh b => b
  end.

(** The double quote, for the messages that contain one. *)
Definition dq : string := String (ascii_of_nat 34) EmptyString.

(** The names of the members of [Object.prototype]: every object has them
    without declaring them, and [name in object] is true of them. *)
Definition objectPrototype : list string :=
  ["constructor"; "__defineGetter__"; "__defineSetter__"; "hasOwnProperty";
   "__lookupGetter__"; "__lookupSetter__"; "isPrototypeOf"; "propertyIsEnumerable";
   "toString"; "valueOf"; "__proto__"; "toLocaleString"].

(** What [functions[name]] is for such a name, as far as [validate] reads
    it: a value without handler.  A handler that is missing reads as the text
    [undefined], for the pattern of the handler and in the messages. *)
Definition inherited : ServerlessFunction :=
  {| handler := "undefined"; artifact := None |}.

Section Validate.

Variable env : Env.
Variable serverless : Serverless.
Variable options : Options.
Variable keepOutputDirectory : bool.

(** [this.serverless.cli.log(msg)]. *)
Definition log (msg : string) : M unit :=
  modify (setCliLog (fun l => (l ++ [msg])%list)).

(** The directory the files are listed in: [servicePath || process.cwd()]. *)
Definition globCwd : string :=
  Js.or_else (Some (servicePath serverless)) (processCwd env).

(** [globby.sync(pattern, { cwd: servicePath || process.cwd(), nodir: true })]. *)
Definition glob (pattern : string) : M (list string) :=
  fun w =>
    (Ok (globbySync env pattern globCwd),
     setGlobCalls (fun l => (l ++ [pattern])%list) w).

(** [fse.removeSync(p)]: a path that is missing is refused with an assertion
    error, and nothing is removed; the removal of a path that is given is
    recorded and does not fail. *)
Definition removeSync (p : option string) : M unit :=
  match p with
  | Some _ => modify (setRemoveCalls (fun l => (l ++ [p])%list))
  | None => throw (AssertionError "rimraf: missing path")
  end.

(** [this.serverless.service.getAllFunctions()]: the names of the functions. *)
Definition getAllFunctions : list string :=
  Obj.keys (functions (service serverless)).

(** [this.serverless.service.getFunction(name)]: the framework tests
    [name in this.functions], so the function is returned when it is declared,
    the member of [Object.prototype] when the name is one of those, and the
    framework's error is thrown for every other name. *)
Definition getFunction (name : string) : M ServerlessFunction :=
  match Obj.get name (functions (service serverless)) with
  | Some f => ret f
  | None =>
      if Lodash.includes objectPrototype name then ret inherited
      else
        throw (ServerlessError
                 ("Function " ++ dq ++ name ++ dq ++ " doesn't exist in this Service"))
  end.

Definition getEntryExtension (fileName : string) : M string :=
  files <- glob (fileName ++ ".*") ;;
  match files with
  | [] =>
      (* If we cannot find any handler we should terminate with an error *)
      throw (ServerlessError
               ("No matching handler found for '" ++ fileName
                ++ "'. Check your service definition."))
  | _ =>
      (* Move preferred file extensions to the beginning *)
      let sorted := sortedFiles files in
      when (1 <? List.length sorted)%nat
           (log ("WARNING: More than one matching handlers found for '" ++ fileName
                 ++ "'. Using '" ++ Js.show_opt (Lodash.first sorted) ++ "'.")) ;;;
      (* the sorted files are not empty here; the extension of a missing
         value would be a type error *)
      match Lodash.first sorted with
      | Some f => ret (Path.extname f)
      | None => throw TypeError
      end
  end.

(** [_.get(this.serverless, 'service.provider.name') === 'google']. *)
Definition providerIsGoogle : bool :=
  match providerName (service serverless) with
  | Some n => (n =? "google")%string
  | None => false
  end.

(** The warning for a function whose entry could not be retrieved. *)
Definition entryWarning (name handler : string) : string :=
  Js.nl ++ "WARNING: Entry for " ++ name ++ "@" ++ handler
  ++ " could not be retrieved." ++ Js.nl
  ++ "Please check your service config if you want to use lib.entries.".

Definition getEntryForFunction (name : string) (serverlessFunction : ServerlessFunction)
  : M (Obj.t string) :=
  let handler := handler serverlessFunction in
  let handlerFile := getHandlerFile handler in
  if negb (Js.truthy_opt handlerFile) then
    when (negb providerIsGoogle) (log (entryWarning name handler)) ;;;
    ret []
  else
    let handlerFile := Js.show_opt handlerFile in
    ext <- getEntryExtension handlerFile ;;
    (* Create a valid entry key *)
    ret [(handlerFile, "./" ++ handlerFile ++ ext)].

(** The entry of the function [func] is merged into the entries. *)
Definition resolveEntry (entries : Obj.t string) (func : string) : M (Obj.t string) :=
  serverlessFunction <- getFunction func ;;
  entry <- getEntryForFunction func serverlessFunction ;;
  ret (Obj.merge entries entry).

(** The entries of the requested function, or of all functions. *)
Definition resolveEntries : M (Obj.t string) :=
  if Js.truthy_opt (function options) then
    resolveEntry [] (Js.show_opt (function options))
  else
    forEach getAllFunctions resolveEntry [].

(** What [this.webpackConfig] is set to first: the option of the service,
    or the name of the default file when the option is missing or falsy. *)
Definition configSource : ConfigSource :=
  match customWebpack (service serverless) with
  | Some (ConfigInline c) => ConfigInline c
  | Some (ConfigFile f) => ConfigFile (if Js.truthy f then f else "webpack.config.js")
  | None => ConfigFile "webpack.config.js"
  end.

(** The service once [c] is written to the configuration object that the
    service gives. *)
Definition withConfig (c : Config) : Serverless :=
  {| servicePath := servicePath serverless;
     service := {| functions := functions (service serverless);
                   providerName := providerName (service serverless);
                   customWebpack := Some (ConfigInline c);
                   packageIndividually := packageIndividually (service serverless) |} |}.

(** The configuration object in [this.webpackConfig] is written and is now
    [c].  A configuration that the service gives is the very object in
    [service.custom.webpack], and the service is the object that
    [lib.serverless] holds: there the configuration is [c] as well.  A
    configuration that a file gives is an object of its own. *)
Definition written (c : Config) (w : World) : World :=
  let w' := setThis (withWebpackConfig (WebpackSingle c)) w in
  match configSource with
  | ConfigInline _ =>
      setLib {| libServerless := option_map (fun _ => withConfig c) (libServerless (lib w));
                libOptions := libOptions (lib w);
                libEntries := libEntries (lib w) |} w'
  | ConfigFile _ => w'
  end.

(** The configuration object: the one given, or the one loaded from the
    file.  A file that is missing is an error thrown; a file that fails to
    load is logged and makes the promise rejected ([inr]). *)
Definition loadConfig : M (Config + Error) :=
  match configSource with
  | ConfigFile file =>
      let webpackConfigFilePath := Path.join [servicePath serverless; file] in
      if negb (fileExistsSync env webpackConfigFilePath) then
        throw (ServerlessError
                 ("The webpack plugin could not find the configuration file at: "
                  ++ webpackConfigFilePath))
      else
        fun w =>
          match requireConfig env webpackConfigFilePath (lib w) with
          | inl c => (Ok (inl c), setThis (withWebpackConfig (WebpackSingle c)) w)
          | inr err =>
              (Ok (inr (LoadError err)),
               setCliLog (fun l => (l ++ [("Could not load webpack config '"
                                            ++ webpackConfigFilePath ++ "'")%string])%list) w)
          end
  | ConfigInline c => ret (inl c)
  end.

Definition defaultContext (c : Config) : Config :=
  if negb (Js.truthy_opt (context c)) then setContext (servicePath serverless) c else c.

Definition defaultTarget (c : Config) : Config :=
  if negb (Js.truthy_opt (target c)) then setTarget "node" c else c.

Definition theDefaultOutput : Output :=
  {| libraryTarget := Some "commonjs";
     path := Some (Path.join [servicePath serverless; ".webpack"]);
     filename := Some "[name].js";
     outputRest := [] |}.

Definition defaultOutput (c : Config) : Config :=
  match output c with
  | Some o => if outputIsEmpty o then setOutput theDefaultOutput c else c
  | None => setOutput theDefaultOutput c
  end.

(** [this.webpackConfig.output] once the default is in place. *)
Definition outputOf (c : Config) : Output :=
  match output c with
  | Some o => o
  | None => theDefaultOutput
  end.

Definition customOutputPath (c : Config) : Config :=
  if Js.truthy_opt (out options)
  then setOutput (setPath (Path.join [servicePath serverless; Js.show_opt (out options)])
                          (outputOf c)) c
  else c.

(** [_.replace(entry, new RegExp(extname(entry) + '$'), '')].  The extension
    is empty or a dot and more.  Empty, the pattern matches the end of the
    string and nothing is removed.  Otherwise, when the rest has no syntax
    character, the pattern is "any character but a line terminator, then the
    rest, at the end of the string".  Other patterns are left to the engine. *)
Definition stripExtension (entry : string) : Result string :=
  let ext := Js.chars (Path.extname entry) in
  match ext with
  | [] => Ok entry
  | d :: literal =>
      if Path.isDot d && negb (existsb isSyntaxCharacter literal) then
        let cs := Js.chars entry in
        match rev (dropLast (List.length literal) cs) with
        | c :: _ =>
            if endsWith literal cs && negb (Js.isLineTerminator c)
            then Ok (Js.str (dropLast (List.length ext) cs))
            else Ok entry
        | [] => Ok entry
        end
      else
        match regExpReplace env (Path.extname entry) entry with
        | Some s => Ok s
        | None => Throw RegExpSyntaxError
        end
  end.

(** Lookup associated Serverless functions *)
Definition allEntryFunctions : M (list EntryFunction) :=
  mapM (fun funcName =>
          func <- getFunction funcName ;;
          match getHandlerFile (handler func) with
          | Some file =>
              ret {| handlerFile := Some (Path.relativeFromCwd (processCwd env) file);
                     funcName := Some funcName;
                     func := Some func;
                     entryRef := None |}
          | None => throw TypeError
          end)
       getAllFunctions.

(** The callback of [_.flatMap(entries, ...)] for one entry: the elements of
    [allEntryFunctions] whose handler file is the entry's file get the entry
    assigned; when there is none, an object is made for the entry. *)
Definition bindEntry (acc : list EntryFunction * list BindingRef) (kv : string * string)
  : M (list EntryFunction * list BindingRef) :=
  let '(all, refs) := acc in
  let '(key, value) := kv in
  let entry := Path.relativeFromCwd (processCwd env) value in
  entryFile <- lift (stripExtension entry) ;;
  let e := {| key := key; value := value |} in
  match matchingFrom 0 entryFile all with
  | [] =>
      (* We have to make sure that for each entry there is an entry function item. *)
      ret (all, (refs ++ [Fresh (freshBinding (key, value))])%list)
  | hits => ret (assignEntry hits e all, (refs ++ map Shared hits)%list)
  end.

(** The callback of [_.map(this.entryFunctions, ...)]. *)
Definition configFor (base : Config) (entryFunc : EntryFunction) : Result Config :=
  match entryRef entryFunc with
  | None => Throw TypeError
  | Some e =>
      let compileName := Js.or_else (funcName entryFunc) (Lodash.camelCase (key e)) in
      match path (outputOf base) with
      | None => Throw TypeError
      | Some p =>
          Ok (setOutput (setPath (Path.join [p; compileName]) (outputOf base))
                (setEntry (EntryObject [(key e, ItemFile (value e))]) base))
      end
  end.

Definition entryMustBeResolved : Error :=
  ServerlessError
    ("Webpack entry must be automatically resolved when package.individually is set to true. "
     ++ "In webpack.config.js, remove the entry declaration or set entry to slsw.lib.entries.").

(** The configurations of individual packaging: one for every element of
    [entryFunctions]. *)
Definition fanOut (c : Config) (entries : Obj.t string) : M Promise :=
  all <- allEntryFunctions ;;
  bound <- forEach entries bindEntry (all, []) ;;
  let entryFuncs := map (deref (fst bound)) (snd bound) in
  modify (setThis (withEntryFunctions entryFuncs)) ;;;
  configs <- mapM (fun entryFunc => lift (configFor c entryFunc)) entryFuncs ;;
  modify (setThis (withWebpackConfig (WebpackMulti configs))) ;;;
  ret Resolved.

(** The configuration with its defaults and the output path of the options. *)
Definition withDefaults (c : Config) : Config :=
  customOutputPath (defaultOutput (defaultTarget (defaultContext c))).

(** [validate] from the defaults on, for the configuration object [c0]. *)
Definition configure (c0 : Config) (entries : Obj.t string) : M Promise :=
  let c := withDefaults c0 in
  modify (written c) ;;;
  when (negb keepOutputDirectory)
       (when (verbose options)
             (log ("Removing " ++ Js.show_opt (path (outputOf c)))) ;;;
        removeSync (path (outputOf c))) ;;;
  modify (setThis (withWebpackOutputPath (path (outputOf c)))) ;;;
  (* In case of individual packaging we have to create a separate config for each function *)
  if packageIndividually (service serverless) then
    when (verbose options) (log "Using multi-compile (individual packaging)") ;;;
    modify (setThis withMultiCompile) ;;;
    if entryConflicts c entries
    then ret (Rejected entryMustBeResolved)
    else fanOut c entries
  else
    match path (outputOf c) with
    | None => throw TypeError
    | Some p =>
        modify (written (setOutput (setPath (Path.join [p; "service"]) (outputOf c)) c)) ;;;
        ret Resolved
    end.

(** [this.webpackConfig] is set to the option of the service, or to the name
    of the default file. *)
Definition started (w : World) : World :=
  setThis (withWebpackConfig
             match configSource with
             | ConfigFile file => WebpackFile file
             | ConfigInline c => WebpackSingle c
             end) w.

(** The service, the options and the entries are exposed in [lib]. *)
Definition exposed (entries : Obj.t string) (w : World) : World :=
  setLib {| libServerless := Some serverless;
            libOptions := Some options;
            libEntries := Some entries |} w.

(** [validate()], stage by stage: the configuration option is taken
    ([started]), the entries are resolved ([resolveEntries]) and exposed with
    the service and the options ([exposed]), the configuration is loaded
    ([loadConfig]), and it gets its defaults, the output directory is
    removed and the configuration is finished for the service or fanned out
    for the functions ([configure], [fanOut]). *)
Definition validate : M Promise :=
  modify started ;;;
  (* Expose entries - must be done before requiring the webpack configuration *)
  entries <- resolveEntries ;;
  (* Expose service file and options *)
  modify (exposed entries) ;;;
  loaded <- loadConfig ;;
  match loaded with
  | inr err => ret (Rejected err)
  | inl c => configure c entries
  end.

End Validate.

(** ** The fixtures of the test suite *)

Module Fixture.

Definition fn (h a : string) : ServerlessFunction :=
  {| handler := h; artifact := Some a |}.

Definition testFunctionsConfig : Obj.t ServerlessFunction :=
  [("func1", fn "module1.func1handler" "artifact-func1.zip");
   ("func2", fn "module2.func2handler" "artifact-func2.zip");
   ("func3", fn "handlers/func3/module2.func3handler" "artifact-func3.zip");
   ("func4", fn "handlers/module2/func3/module2.func3handler" "artifact-func3.zip")].

(** The stub of the listing service that answers every pattern with the
    pattern itself, its star replaced by [js]. *)
Fixpoint replaceStar (l : list ascii) : list ascii :=
  match l with
  | [] => []
  | c :: r => if (c =? "*")%char then ("j" :: "s" :: r)%char else c :: replaceStar r
  end.

Definition jsFiles (pattern cwd : string) : list string :=
  [Js.str (replaceStar (Js.chars pattern))].

(** The listing service that finds nothing for [module2] and answers as
    [jsFiles] otherwise. *)
Definition module2Missing (pattern cwd : string) : list string :=
  if (pattern =? "module2.*")%string then [] else jsFiles pattern cwd.

(** An environment around a listing service: every file exists, no
    configuration file loads. *)
Definition envOf (listing : string -> string -> list string) : Env :=
  {| globbySync := listing;
     fileExistsSync := fun _ => true;
     requireConfig := fun _ _ => inr "SyntaxError";
     processCwd := "/home/user/project";
     regExpReplace := fun _ s => Some s |}.

(** The environment of the test of a configuration file that is missing. *)
Definition missingFile : Env :=
  {| globbySync := jsFiles;
     fileExistsSync := fun _ => false;
     requireConfig := fun _ _ => inr "SyntaxError";
     processCwd := "/home/user/project";
     regExpReplace := fun _ s => Some s |}.

Definition mostProbable : list string :=
  ["module1.doc"; "module1.json"; "module1.test.js"; "module1.ts"; "module1.js"].

Definition serviceOf (fs : Obj.t ServerlessFunction) (c : option ConfigSource)
           (individually : bool) : Serverless :=
  {| servicePath := "testpath";
     service := {| functions := fs; providerName := None; customWebpack := c;
                   packageIndividually := individually |} |}.

Definition noOptions : Options :=
  {| function := None; out := None; verbose := false; stage := None |}.

Definition emptyConfig : Config :=
  {| entry := None; context := None; target := None; devtool := None;
     output := None; configRest := [] |}.

(** The configuration of the tests of individual packaging. *)
Definition testConfig : Config :=
  {| entry := None; context := None; target := None; devtool := None;
     output := Some {| libraryTarget := None; path := Some "output";
                       filename := None; outputRest := [] |};
     configRest := [] |}.

Definition expectedLibEntries : Obj.t string :=
  [("module1", "./module1.js");
   ("module2", "./module2.js");
   ("handlers/func3/module2", "./handlers/func3/module2.js");
   ("handlers/module2/func3/module2", "./handlers/module2/func3/module2.js")].

(** The configuration of the test of the output path of the options. *)
Definition overrideConfig : Config :=
  {| entry := Some (EntryFile "test"); context := Some "testcontext"; target := None;
     devtool := None;
     output := Some {| libraryTarget := None; path := Some "originalpath";
                       filename := Some "filename"; outputRest := [] |};
     configRest := [] |}.

Definition outTo (dir : string) : Options :=
  {| function := None; out := Some dir; verbose := false; stage := None |}.

(** The configurations of the tests of an explicit entry. *)
Definition customisedEntry : Config :=
  {| entry := Some (EntryObject [("module1", ItemFile "./module1.js");
                                 ("module2", ItemFile "./module2.js")]);
     context := None; target := None; devtool := None;
     output := Some {| libraryTarget := None; path := Some "output";
                       filename := None; outputRest := [] |};
     configRest := [] |}.


(** A function whose only file is a copy with an extension in brackets. *)
Definition copiedFunction : Obj.t ServerlessFunction :=
  [("func3", fn "handlers/func3/module2.func3handler" "artifact-func3.zip")].

Definition copiedFile (pattern cwd : string) : list string :=
  ["handlers/func3/module2.(old)"].

(** Four functions, two of them with a handler file named by a number. *)
Definition numberedFunctions : Obj.t ServerlessFunction :=
  [("func1", fn "2.handler" "artifact-func1.zip");
   ("func2", fn "1.handler" "artifact-func2.zip");
   ("func3", fn "handlers/func3/module2.func3handler" "artifact-func3.zip");
   ("func4", fn "handlers/module2/func3/module2.func3handler" "artifact-func3.zip")].

(** The output paths of the configurations of individual packaging. *)
Definition outputPaths (p : Plugin) : list (option string) :=
  match webpackConfig p with
  | Some (WebpackMulti cs) =>
      map (fun c => match output c with Some o => path o | None => None end) cs
  | _ => []
  end.

(** The world before the plugin has run. *)
Definition fresh : World :=
  {| cliLog := []; globCalls := []; removeCalls := [];
     lib := {| libServerless := None; libOptions := None; libEntries := None |};
     this := {| webpackConfig := None; multiCompile := None;
                entryFunctions := None; webpackOutputPath := None |} |}.

End Fixture.

(** ** Notions used in the statements *)

(** A computation that leaves [lib] as it is. *)
Definition keepsLib {A} (m : M A) : Prop :=
  forall w, lib (snd (m w)) = lib w.

(** A segment of a path that normalization leaves as it is. *)
Definition properSegment (s : string) : bool :=
  negb (s =? "")%string && negb (s =? ".")%string && negb (s =? "..")%string.

(** A relative path of proper segments: normalization leaves it as it is. *)
Definition properPath (b : string) : bool :=
  forallb properSegment (Path.segments b).

(** An extension whose pattern is the one modelled here: a dot and then no
    syntax character. *)
Definition literalExtension (e : string) : bool :=
  match Js.chars e with
  | d :: t => Path.isDot d && negb (existsb isSyntaxCharacter t)
  | [] => false
  end.

(** The extension [getEntryExtension] returns for the files found, when some
    are found. *)
Definition extensionOf (files : list string) : option string :=
  option_map Path.extname (Lodash.first (sortedFiles files)).

Section Expected.

Variable env : Env.
Variable serverless : Serverless.

(** The handler file of a function, and the extension and the entry that are
    resolved for it. *)
Definition basePath (f : ServerlessFunction) : string :=
  Js.show_opt (getHandlerFile (handler f)).

Definition extensionFor (f : ServerlessFunction) : string :=
  Js.show_opt (extensionOf (globbySync env (basePath f ++ ".*") (globCwd env serverless))).

Definition entryFor (f : ServerlessFunction) : string * string :=
  (basePath f, "./" ++ basePath f ++ extensionFor f).

(** A function of the ordinary kind: it has a name; its handler file is a
    relative path of proper segments and not an array index; files are found
    for it, and the extension of the winner is a literal one. *)
Definition wellResolved (nf : string * ServerlessFunction) : bool :=
  Js.truthy (fst nf)
  && match getHandlerFile (handler (snd nf)) with
     | Some b =>
         properPath b
         && match Js.arrayIndex b with None => true | Some _ => false end
         && match extensionOf (globbySync env (b ++ ".*") (globCwd env serverless)) with
            | Some e => literalExtension e
            | None => false
            end
     | None => false
     end.

(** The element of [allEntryFunctions] for a declared function of the
    ordinary kind. *)
Definition unboundFor (nf : string * ServerlessFunction) : EntryFunction :=
  {| handlerFile := Some (basePath (snd nf));
     funcName := Some (fst nf);
     func := Some (snd nf);
     entryRef := None |}.

(** The configuration object [validate] works on, for the entries exposed:
    the one of the service, or the one the configuration file loads as. *)
Definition loadedConfig (options : Options) (entries : Obj.t string) : option Config :=
  match configSource serverless with
  | ConfigInline c => Some c
  | ConfigFile file =>
      if fileExistsSync env (Path.join [servicePath serverless; file]) then
        match requireConfig env (Path.join [servicePath serverless; file])
                {| libServerless := Some serverless; libOptions := Some options;
                   libEntries := Some entries |} with
        | inl c => Some c
        | inr _ => None
        end
      else None
  end.

(** The element of [entryFunctions] for a declared function, and the
    configuration made for it from the configuration [c] with the output
    path [p]. *)
Definition bindingFor (nf : string * ServerlessFunction) : EntryFunction :=
  {| handlerFile := Some (basePath (snd nf));
     funcName := Some (fst nf);
     func := Some (snd nf);
     entryRef := Some {| key := fst (entryFor (snd nf)); value := snd (entryFor (snd nf)) |} |}.

Definition configOf (c : Config) (p : string) (nf : string * ServerlessFunction) : Config :=
  setOutput (setPath (Path.join [p; fst nf]) (outputOf serverless c))
    (setEntry (EntryObject [(fst (entryFor (snd nf)), ItemFile (snd (entryFor (snd nf))))]) c).

(** An entry that matches no declared function: its file is not the handler
    file of any function. *)
Definition unmatched (kv : string * string) : Prop :=
  exists entryFile,
    stripExtension env (Path.relativeFromCwd (processCwd env) (snd kv)) = Ok entryFile
    /\ forall name f file,
         Obj.get name (functions (service serverless)) = Some f ->
         getHandlerFile (handler f) = Some file ->
         Path.relativeFromCwd (processCwd env) file <> entryFile.

(** The configuration made for such an entry from the configuration [c] with
    the output path [p]. *)
Definition freshConfig (c : Config) (p : string) (kv : string * string) : Config :=
  setOutput (setPath (Path.join [p; Lodash.camelCase (fst kv)]) (outputOf serverless c))
    (setEntry (EntryObject [(fst kv, ItemFile (snd kv))]) c).

End Expected.

(** A list of strings without repetition, as a check. *)
Fixpoint distinct (l : list string) : bool :=
  match l with
  | [] => true
  | x :: r => negb (Lodash.includes r x) && distinct r
  end.

(** ** Notions used in the further properties *)

(** A computation that leaves the part [part] of the world as it is. *)
Definition leaves {A B} (part : World -> B) (m : M A) : Prop :=
  forall w, part (snd (m w)) = part w.

(** The warning of [getEntryExtension] for the base path [fileName] and the
    file [winner]. *)
Definition ambiguityWarning (fileName winner : string) : string :=
  "WARNING: More than one matching handlers found for '" ++ fileName
  ++ "'. Using '" ++ winner ++ "'.".

(** A text that is empty or ends with a line terminator: what may stand
    before the line of a handler that is matched. *)
Definition endsLine (pre : string) : bool :=
  match rev (Js.chars pre) with
  | [] => true
  | c :: _ => Js.isLineTerminator c
  end.

(** The patterns the listing service is called with for a function: one for
    a function with a handler file, none for the others. *)
Definition patternsOf (f : ServerlessFunction) : list string :=
  match getHandlerFile (handler f) with
  | Some b => if Js.truthy b then [b ++ ".*"] else []
  | None => []
  end.

(** An entry as the resolver makes them: the key is the handler file of a
    declared function, the value is the key between [./] and the extension
    resolved for it. *)
Definition resolvedEntry (env : Env) (serverless : Serverless) (kv : string * string) : Prop :=
  Js.truthy (fst kv) = true
  /\ (exists name f,
        Obj.get name (functions (service serverless)) = Some f
        /\ getHandlerFile (handler f) = Some (fst kv))
  /\ exists ext,
       extensionOf (globbySync env (fst kv ++ ".*") (globCwd env serverless)) = Some ext
       /\ snd kv = "./" ++ fst kv ++ ext.

(** The world after the first half of [configure] for the configuration
    [c0], when the removal of the output directory does not throw: the
    configuration with its defaults is written, the output directory is
    removed unless it is kept, and the output path is noted. *)
Definition prepared (serverless : Serverless) (options : Options) (keep : bool)
           (c0 : Config) (w : World) : World :=
  let c := withDefaults serverless options c0 in
  let w1 := written serverless c w in
  let w2 :=
    if keep then w1
    else setRemoveCalls (fun l => (l ++ [path (outputOf serverless c)])%list)
           (if verbose options
            then setCliLog
                   (fun l => (l ++ [("Removing " ++ Js.show_opt (path (outputOf serverless c)))%string])%list)
                   w1
            else w1) in
  setThis (withWebpackOutputPath (path (outputOf serverless c))) w2.

(** The world in which the removal of a missing output path has thrown:
    the configuration with its defaults is written and the removal is
    announced, nothing is removed and no output path is noted. *)
Definition refused (serverless : Serverless) (options : Options) (c0 : Config)
           (w : World) : World :=
  let c := withDefaults serverless options c0 in
  let w1 := written serverless c w in
  if verbose options
  then setCliLog
         (fun l => (l ++ [("Removing " ++ Js.show_opt (path (outputOf serverless c)))%string])%list)
         w1
  else w1.

(** The world in which individual packaging starts. *)
Definition individually (options : Options) (w : World) : World :=
  setThis withMultiCompile
    (if verbose options
     then setCliLog (fun l => (l ++ ["Using multi-compile (individual packaging)"])%list) w
     else w).

(** The messages of the errors that [validate] throws. *)
Definition noMatchingHandler (fileName : string) : string :=
  "No matching handler found for '" ++ fileName ++ "'. Check your service definition.".

Definition functionDoesNotExist (name : string) : string :=
  "Function " ++ dq ++ name ++ dq ++ " doesn't exist in this Service".

Definition configurationNotFound (file : string) : string :=
  "The webpack plugin could not find the configuration file at: " ++ file.

(** What [validate] does to the world after the configuration is loaded,
    as far as the services and the flags of the plugin go. *)
Definition afterLoad (w : World)
  : list (option string) * option bool * option (list EntryFunction) * option (option string) :=
  (removeCalls w, multiCompile (this w), entryFunctions (this w), webpackOutputPath (this w)).

(** *** Functions that share a handler file *)

(** Whether an element of [allEntryFunctions] has the handler file [b]. *)
Definition hasFile (b : string) (x : EntryFunction) : bool :=
  match handlerFile x with
  | Some h => (h =? b)%string
  | None => false
  end.

Section Grouped.

Variable env : Env.
Variable serverless : Serverless.

(** The entry that is resolved for the handler file [b]. *)
Definition entryOfBase (b : string) : string * string :=
  (b, "./" ++ b
      ++ Js.show_opt (extensionOf (globbySync env (b ++ ".*") (globCwd env serverless)))).

(** The handler files of the functions, each of them once, in the order in
    which the functions come to them. *)
Definition handlerFiles (fs : Obj.t ServerlessFunction) : list string :=
  Lodash.uniq (map (fun nf => basePath (snd nf)) fs).

(** The functions with the handler file [b], in their order. *)
Definition sharing (b : string) (fs : Obj.t ServerlessFunction) : Obj.t ServerlessFunction :=
  filter (fun nf => (basePath (snd nf) =? b)%string) fs.

(** The functions by handler file: the functions of the first handler file,
    then the ones of the second, and so on. *)
Definition grouped (fs : Obj.t ServerlessFunction) : Obj.t ServerlessFunction :=
  flat_map (fun b => sharing b fs) (handlerFiles fs).

(** An element of [allEntryFunctions] while the entries are bound: the
    functions of the handler files [bound] have their entry. *)
Definition boundFor (bound : list string) (nf : string * ServerlessFunction) : EntryFunction :=
  if Lodash.includes bound (basePath (snd nf))
  then bindingFor env serverless nf
  else unboundFor nf.

End Grouped.

(** Three functions, the first and the third in the same file. *)
Definition sharedFunctions : Obj.t ServerlessFunction :=
  [("create", Fixture.fn "module1.create" "artifact-create.zip");
   ("list", Fixture.fn "module2.list" "artifact-list.zip");
   ("remove", Fixture.fn "module1.remove" "artifact-remove.zip")].

(** *** The elements of [entryFunctions] in general *)

(** An element that has its entry, one of [entries]. *)
Definition hasEntryOf (entries : Obj.t string) (x : EntryFunction) : Prop :=
  exists e, entryRef x = Some e /\ In (key e, value e) entries.

(** The state of the binding after the entries [processed]: an entry that
    an element of [allEntryFunctions] has is one of them, every reference
    stands for an element with an entry, and there is a reference at least
    for every entry. *)
Definition boundBy (processed : Obj.t string)
           (acc : list EntryFunction * list BindingRef) : Prop :=
  (forall x e, In x (fst acc) -> entryRef x = Some e -> In (key e, value e) processed)
  /\ (forall r, In r (snd acc) ->
        match r with
        | Shared i => exists x e, nth_error (fst acc) i = Some x /\ entryRef x = Some e
        | Fresh b => hasEntryOf processed b
        end)
  /\ List.length processed <= List.length (snd acc).

(** The entries as the [entry] of a configuration that is set to them. *)
Definition asEntry (entries : Obj.t string) : Obj.t EntryItem :=
  map (fun kv => (fst kv, ItemFile (snd kv))) entries.

(** The environment [env] with another file test and another loader. *)
Definition withLoader (env : Env) (exists_ : string -> bool)
           (load : string -> Lib -> Config + string) : Env :=
  {| globbySync := globbySync env;
     fileExistsSync := exists_;
     requireConfig := load;
     processCwd := processCwd env;
     regExpReplace := regExpReplace env |}.

(** *** The entry that a shared element ends with *)

(** The file of an entry, as the fan-out takes it: the relative path of the
    value without its extension. *)
Definition entryFileOf (env : Env) (kv : string * string) : Result string :=
  stripExtension env (Path.relativeFromCwd (processCwd env) (snd kv)).

Definition isFileOf (env : Env) (h : string) (kv : string * string) : bool :=
  match entryFileOf env kv with
  | Ok file => (file =? h)%string
  | Throw _ => false
  end.

(** The last of the entries whose file is [h]. *)
Definition lastEntryFor (env : Env) (h : string) (entries : Obj.t string) : option EntryRef :=
  match filter (isFileOf env h) (rev entries) with
  | kv :: _ => Some {| key := fst kv; value := snd kv |}
  | [] => None
  end.

(** The state of the binding after the entries [processed], as to which
    entry an element has: the last one with its handler file.  The objects
    made for entries have no handler file. *)
Definition lastBound (env : Env) (processed : Obj.t string)
           (acc : list EntryFunction * list BindingRef) : Prop :=
  (forall x h, In x (fst acc) -> handlerFile x = Some h ->
               entryRef x = lastEntryFor env h processed)
  /\ (forall r, In r (snd acc) ->
        match r with
        | Shared i => exists x, nth_error (fst acc) i = Some x
        | Fresh b => handlerFile b = None
        end).

(** Two functions in one file, the handler of the second written with the
    directory. *)
Definition aliasedFunctions : Obj.t ServerlessFunction :=
  [("first", Fixture.fn "module1.first" "artifact-first.zip");
   ("second", Fixture.fn "./module1.second" "artifact-second.zip")].

(** A loader that makes the configuration from what [lib] holds when the
    file is loaded: its entry is the entries of [lib]. *)
Definition entriesOfLib (file : string) (l : Lib) : Config + string :=
  match libEntries l with
  | Some entries => inl (setEntry (EntryObject (asEntry entries)) Fixture.testConfig)
  | None => inr "TypeError"
  end.

(** *** The names made by [_.camelCase] *)



(** * Properties *)

(** ** Strings and lists *)

Lemma chars_str (l : list ascii) : Js.chars (Js.str l) = l.
Proof. apply list_ascii_of_string_of_list_ascii. Qed.

Lemma str_chars (s : string) : Js.str (Js.chars s) = s.
Proof. apply string_of_list_ascii_of_string. Qed.

Lemma chars_app (s1 s2 : string) :
  Js.chars (s1 ++ s2) = (Js.chars s1 ++ Js.chars s2)%list.
Proof.
  induction s1 as [|c s1 IH]; simpl; [reflexivity|].
  unfold Js.chars in *. simpl. now rewrite IH.
Qed.

Lemma str_app (l1 l2 : list ascii) :
  Js.str (l1 ++ l2) = Js.str l1 ++ Js.str l2.
Proof.
  induction l1 as [|c l1 IH]; simpl; [reflexivity|].
  unfold Js.str in *. simpl. now rewrite IH.
Qed.

Lemma takeWhile_all {A} (p : A -> bool) (l : list A) :
  forallb p l = true -> takeWhile p l = l.
Proof.
  induction l as [|x l IH]; simpl; [reflexivity|].
  intros H. apply andb_true_iff in H as [Hx Hl]. rewrite Hx. now rewrite IH.
Qed.

Lemma dropWhile_all {A} (p : A -> bool) (l : list A) :
  forallb p l = true -> dropWhile p l = [].
Proof.
  induction l as [|x l IH]; simpl; [reflexivity|].
  intros H. apply andb_true_iff in H as [Hx Hl]. rewrite Hx. now apply IH.
Qed.

Lemma takeWhile_app_stop {A} (p : A -> bool) (l : list A) (x : A) (r : list A) :
  forallb p l = true -> p x = false -> takeWhile p (l ++ x :: r) = l.
Proof.
  induction l as [|y l IH]; simpl; intros Hl Hx.
  - now rewrite Hx.
  - apply andb_true_iff in Hl as [Hy Hl]. rewrite Hy. now rewrite IH.
Qed.

Lemma dropWhile_app_stop {A} (p : A -> bool) (l : list A) (x : A) (r : list A) :
  forallb p l = true -> p x = false -> dropWhile p (l ++ x :: r) = x :: r.
Proof.
  induction l as [|y l IH]; simpl; intros Hl Hx.
  - now rewrite Hx.
  - apply andb_true_iff in Hl as [Hy Hl]. rewrite Hy. now apply IH.
Qed.

Lemma forallb_rev {A} (p : A -> bool) (l : list A) :
  forallb p (rev l) = forallb p l.
Proof.
  induction l as [|x l IH]; simpl; [reflexivity|].
  rewrite forallb_app, IH. simpl. rewrite andb_true_r. apply andb_comm.
Qed.

(** ** The candidate resolver *)

Lemma uniq_head (x : string) (r : list string) :
  Lodash.uniq (x :: r) = x :: Lodash.uniqFrom [x] r.
Proof. reflexivity. Qed.

(** The winner: the first of the sorted preferred files when there is one,
    the first file found otherwise. *)
Lemma sortedFiles_first (files : list string) :
  Lodash.first (sortedFiles files) =
  match Lodash.sortBy Lodash.size (filter preferred files) with
  | x :: _ => Some x
  | [] => Lodash.first files
  end.
Proof.
  unfold sortedFiles.
  destruct (Lodash.sortBy _ _) as [|x r]; simpl.
  - destruct files; reflexivity.
  - reflexivity.
Qed.

Lemma sortedFiles_nonempty (f : string) (fs : list string) :
  exists x r, sortedFiles (f :: fs) = x :: r.
Proof.
  unfold sortedFiles.
  destruct (Lodash.sortBy _ _) as [|x r].
  - simpl app. rewrite uniq_head. eauto.
  - simpl app. rewrite uniq_head. eauto.
Qed.

(** What [getEntryExtension] does when the listing is not empty: one call of
    the listing service, a warning when several files remain, and the
    extension of the first of the sorted files. *)
Lemma getEntryExtension_found env serverless fileName w f fs :
  globbySync env (fileName ++ ".*") (globCwd env serverless) = f :: fs ->
  exists winner,
    Lodash.first (sortedFiles (f :: fs)) = Some winner /\
    getEntryExtension env serverless fileName w =
    (Ok (Path.extname winner),
     (if (1 <? List.length (sortedFiles (f :: fs)))%nat
      then setCliLog (fun l => (l ++ [("WARNING: More than one matching handlers found for '"
                                        ++ fileName ++ "'. Using '" ++ winner ++ "'.")%string])%list)
      else fun w => w)
       (setGlobCalls (fun l => (l ++ [(fileName ++ ".*")%string])%list) w)).
Proof.
  intros H.
  destruct (sortedFiles_nonempty f fs) as (x & r & Hs).
  exists x. split; [now rewrite Hs|].
  unfold getEntryExtension, bind, glob. rewrite H, Hs. simpl Lodash.first.
  unfold when, Js.show_opt.
  destruct (1 <? List.length (x :: r))%nat; reflexivity.
Qed.

(** What [getEntryExtension] does when nothing is found. *)
Lemma getEntryExtension_missing env serverless fileName w :
  globbySync env (fileName ++ ".*") (globCwd env serverless) = [] ->
  getEntryExtension env serverless fileName w =
  (Throw (ServerlessError ("No matching handler found for '" ++ fileName
                           ++ "'. Check your service definition.")),
   setGlobCalls (fun l => (l ++ [(fileName ++ ".*")%string])%list) w).
Proof.
  intros H. unfold getEntryExtension, bind, glob. now rewrite H.
Qed.

(** C1. With the files [module1.doc], [module1.json], [module1.test.js],
    [module1.ts] and [module1.js] found in that order for the base path
    [module1], [getEntryExtension] returns [.ts]: the sorted files start with
    [module1.ts], there are five of them, more than one, and the warning that
    names the winner is logged. *)
Theorem most_probable_handler env serverless w :
  globbySync env "module1.*" (globCwd env serverless) = Fixture.mostProbable ->
  getEntryExtension env serverless "module1" w =
  (Ok ".ts",
   setCliLog (fun l => (l ++ ["WARNING: More than one matching handlers found for 'module1'. Using 'module1.ts'."])%list)
     (setGlobCalls (fun l => (l ++ ["module1.*"])%list) w))
  /\ Lodash.first (sortedFiles Fixture.mostProbable) = Some "module1.ts"
  /\ List.length (sortedFiles Fixture.mostProbable) = 5.
Proof.
  intros H. split; [|split; reflexivity].
  unfold getEntryExtension, bind, glob.
  change ("module1" ++ ".*") with "module1.*". rewrite H. reflexivity.
Qed.

Lemma most_probable_handler_witness :
  getEntryExtension (Fixture.envOf (fun _ _ => Fixture.mostProbable))
    (Fixture.serviceOf Fixture.testFunctionsConfig None false)
    "module1" Fixture.fresh =
  (Ok ".ts",
   setCliLog (fun l => (l ++ ["WARNING: More than one matching handlers found for 'module1'. Using 'module1.ts'."])%list)
     (setGlobCalls (fun l => (l ++ ["module1.*"])%list) Fixture.fresh))
  /\ Lodash.first (sortedFiles Fixture.mostProbable) = Some "module1.ts"
  /\ List.length (sortedFiles Fixture.mostProbable) = 5.
Proof.
  exact (most_probable_handler
           (Fixture.envOf (fun _ _ => Fixture.mostProbable))
           (Fixture.serviceOf Fixture.testFunctionsConfig None false)
           Fixture.fresh eq_refl).
Defined.

(** *** The extension of a path *)

Lemma takeWhile_app_all {A} (p : A -> bool) (l1 l2 : list A) :
  forallb p l1 = true -> takeWhile p (l1 ++ l2) = (l1 ++ takeWhile p l2)%list.
Proof.
  induction l1 as [|x l1 IH]; simpl; [reflexivity|].
  intros H. apply andb_true_iff in H as [Hx Hl]. rewrite Hx. now rewrite IH.
Qed.

Lemma extnameRev_ext (rext rstem : list ascii) :
  forallb (fun c => negb (Path.isDot c)) rext = true ->
  rstem <> [] ->
  rext <> [] \/ rstem <> [Path.dot] ->
  Path.extnameRev (rext ++ Path.dot :: rstem) = Path.dot :: rev rext.
Proof.
  intros Hext Hstem Hdots. unfold Path.extnameRev.
  rewrite takeWhile_app_stop, dropWhile_app_stop by (assumption || reflexivity).
  destruct rstem as [|c [|c' r]]; [congruence| |].
  - destruct rext as [|x rext]; [|reflexivity].
    destruct Hdots as [Hd|Hd]; [congruence|].
    unfold Path.isDot. destruct (Ascii.eqb_spec c Path.dot) as [->|_]; [congruence|reflexivity].
  - destruct rext; reflexivity.
Qed.

Lemma namesFile_lastNameRev (b : string) :
  namesFile b = true -> lastNameRev b <> [].
Proof.
  unfold namesFile, lastNameRev. destruct (rev (Js.chars b)) as [|c r]; [discriminate|].
  simpl. intros ->. discriminate.
Qed.

(** The extension of [b.t] is [.t] when [b] names a file and [t] has neither
    dot nor separator ([b] must not end in a lone dot when [t] is empty). *)
Lemma extname_append (b : string) (t : list ascii) :
  namesFile b = true ->
  forallb (fun c => negb (Path.isDot c) && negb (Path.isSlash c)) t = true ->
  t <> [] \/ lastNameRev b <> [Path.dot] ->
  Path.extname (b ++ Js.str (Path.dot :: t)) = Js.str (Path.dot :: t).
Proof.
  intros Hb Ht Hdots. unfold Path.extname. f_equal.
  rewrite chars_app, chars_str. unfold Path.lastPartRev.
  rewrite rev_app_distr. simpl rev.
  assert (Hnd : forallb (fun c => negb (Path.isDot c)) (rev t) = true).
  { rewrite forallb_rev. rewrite forallb_forall in *. intros x Hx.
    specialize (Ht x Hx). now apply andb_true_iff in Ht. }
  assert (Hns : forallb (fun c => negb (Path.isSlash c)) (rev t ++ [Path.dot]) = true).
  { rewrite forallb_app, forallb_rev. simpl. rewrite andb_true_r.
    rewrite forallb_forall in *. intros x Hx.
    specialize (Ht x Hx). now apply andb_true_iff in Ht. }
  assert (Hdrop : dropWhile Path.isSlash ((rev t ++ [Path.dot]) ++ rev (Js.chars b))
                  = ((rev t ++ [Path.dot]) ++ rev (Js.chars b))%list).
  { destruct (rev t ++ [Path.dot])%list as [|c r] eqn:E.
    - destruct (rev t); discriminate.
    - simpl in Hns. apply andb_true_iff in Hns as [Hc _].
      apply negb_true_iff in Hc. simpl. now rewrite Hc. }
  rewrite Hdrop, takeWhile_app_all by exact Hns.
  rewrite <- app_assoc. simpl app.
  fold (lastNameRev b).
  rewrite extnameRev_ext.
  - now rewrite rev_involutive.
  - exact Hnd.
  - now apply namesFile_lastNameRev.
  - destruct Hdots as [Hd|Hd]; [left|now right].
    intros E. apply Hd. apply (f_equal (@rev ascii)) in E.
    now rewrite rev_involutive in E.
Qed.

Lemma extname_append_nameless (b : string) (t : list ascii) :
  namesFile b = false ->
  forallb (fun c => negb (Path.isDot c) && negb (Path.isSlash c)) t = true ->
  t <> [] ->
  Path.extname (b ++ Js.str (Path.dot :: t)) = "".
Proof.
  intros Hb Ht Hne. unfold Path.extname.
  rewrite chars_app, chars_str. unfold Path.lastPartRev.
  rewrite rev_app_distr. simpl rev.
  assert (Hnd : forallb (fun c => negb (Path.isDot c)) (rev t) = true).
  { rewrite forallb_rev. rewrite forallb_forall in *. intros x Hx.
    specialize (Ht x Hx). now apply andb_true_iff in Ht. }
  assert (Hns : forallb (fun c => negb (Path.isSlash c)) (rev t ++ [Path.dot]) = true).
  { rewrite forallb_app, forallb_rev. simpl. rewrite andb_true_r.
    rewrite forallb_forall in *. intros x Hx.
    specialize (Ht x Hx). now apply andb_true_iff in Ht. }
  assert (Hdrop : dropWhile Path.isSlash ((rev t ++ [Path.dot]) ++ rev (Js.chars b))
                  = ((rev t ++ [Path.dot]) ++ rev (Js.chars b))%list).
  { destruct (rev t ++ [Path.dot])%list as [|c r] eqn:E.
    - destruct (rev t); discriminate.
    - simpl in Hns. apply andb_true_iff in Hns as [Hc _].
      apply negb_true_iff in Hc. simpl. now rewrite Hc. }
  rewrite Hdrop, takeWhile_app_all by exact Hns.
  assert (Hlast : takeWhile (fun c => negb (Path.isSlash c)) (rev (Js.chars b)) = []).
  { unfold namesFile in Hb. destruct (rev (Js.chars b)) as [|c r]; [reflexivity|].
    simpl. now rewrite Hb. }
  rewrite Hlast, <- app_assoc. simpl app.
  unfold Path.extnameRev.
  rewrite dropWhile_app_stop by (assumption || reflexivity).
  reflexivity.
Qed.

Lemma length_append (s1 s2 : string) :
  String.length (s1 ++ s2) = String.length s1 + String.length s2.
Proof. induction s1 as [|c s1 IH]; simpl; [reflexivity|now rewrite IH]. Qed.

(** *** The stable sort *)

Lemma insertBy_In {A} (key : A -> nat) (x y : A) (l : list A) :
  In y (Lodash.insertBy key x l) <-> y = x \/ In y l.
Proof.
  induction l as [|z l IH]; simpl.
  - intuition.
  - destruct (key x <=? key z)%nat; simpl; [intuition|].
    rewrite IH. intuition.
Qed.

Lemma sortBy_In {A} (key : A -> nat) (y : A) (l : list A) :
  In y (Lodash.sortBy key l) <-> In y l.
Proof.
  induction l as [|x l IH]; simpl; [reflexivity|].
  rewrite insertBy_In, IH. intuition.
Qed.

(** An element with a key smaller than the key of every other element is
    the first of the sorted list, wherever it stands in the list. *)
Lemma sortBy_least_first {A} (eq_dec : forall x y : A, {x = y} + {x <> y})
      (key : A -> nat) (f : A) (l : list A) :
  In f l ->
  (forall g, In g l -> g <> f -> key f < key g) ->
  exists r, Lodash.sortBy key l = f :: r.
Proof.
  induction l as [|a l IH]; simpl; [contradiction|].
  intros Hin Hmin.
  assert (Hstep : forall s, (forall y, In y s -> In y l) ->
                            Lodash.insertBy key f s = f :: s).
  { intros s Hs. destruct s as [|z s]; [reflexivity|]. simpl.
    assert (Hz : key f <= key z).
    { assert (Hzl : In z l) by (apply Hs; now left).
      destruct (Nat.eq_dec (key f) (key z)) as [E|NE]; [lia|].
      assert (z <> f) by (intros ->; congruence).
      specialize (Hmin z (or_intror Hzl) H). lia. }
    apply Nat.leb_le in Hz. now rewrite Hz. }
  assert (Hsub : forall y, In y (Lodash.sortBy key l) -> In y l)
    by (intros y; apply sortBy_In).
  destruct (eq_dec a f) as [->|Hne].
  - exists (Lodash.sortBy key l). now apply Hstep.
  - destruct Hin as [E|Hin]; [congruence|].
    destruct (IH Hin) as [r Hr].
    { intros g Hg Hgf. apply Hmin; [now right|assumption]. }
    fold (Lodash.sortBy key l). rewrite Hr. simpl.
    assert (Hlt : key f < key a) by (apply Hmin; [now left|assumption]).
    apply Nat.leb_gt in Hlt. rewrite Hlt. eauto.
Qed.

Lemma extname_js_ts (b : string) :
  (namesFile b = true ->
   Path.extname (b ++ ".js") = ".js" /\ Path.extname (b ++ ".ts") = ".ts")
  /\ (namesFile b = false ->
      Path.extname (b ++ ".js") = "" /\ Path.extname (b ++ ".ts") = "").
Proof.
  split; intros Hb; split.
  - apply (extname_append b ["j"; "s"]%char Hb); [reflexivity|left; discriminate].
  - apply (extname_append b ["t"; "s"]%char Hb); [reflexivity|left; discriminate].
  - apply (extname_append_nameless b ["j"; "s"]%char Hb); [reflexivity|discriminate].
  - apply (extname_append_nameless b ["t"; "s"]%char Hb); [reflexivity|discriminate].
Qed.

(** Of two files of the same length that are both preferred or both not,
    the first found is the first of the sorted files. *)
Lemma sortedFiles_pair (x y : string) :
  preferred x = preferred y ->
  Lodash.size x = Lodash.size y ->
  Lodash.first (sortedFiles [x; y]) = Some x.
Proof.
  intros Hp Hs. rewrite sortedFiles_first. simpl filter. rewrite <- Hp.
  destruct (preferred x); [|reflexivity].
  simpl. rewrite Hs, Nat.leb_refl. reflexivity.
Qed.

Lemma first_listed_wins env serverless b w (x y : string) :
  preferred x = preferred y ->
  Lodash.size x = Lodash.size y ->
  globbySync env (b ++ ".*") (globCwd env serverless) = [x; y] ->
  fst (getEntryExtension env serverless b w) = Ok (Path.extname x).
Proof.
  intros Hp Hs Hg.
  destruct (getEntryExtension_found env serverless b w x [y] Hg) as (winner & Hw & Hrun).
  rewrite (sortedFiles_pair x y Hp Hs) in Hw. injection Hw as <-.
  now rewrite Hrun.
Qed.

Lemma preferred_js_ts (b : string) : preferred (b ++ ".js") = preferred (b ++ ".ts").
Proof.
  unfold preferred. destruct (namesFile b) eqn:Hb.
  - destruct (proj1 (extname_js_ts b) Hb) as [-> ->]. reflexivity.
  - destruct (proj2 (extname_js_ts b) Hb) as [-> ->]. reflexivity.
Qed.

Lemma size_js_ts (b : string) : Lodash.size (b ++ ".js") = Lodash.size (b ++ ".ts").
Proof. unfold Lodash.size. now rewrite !length_append. Qed.

(** A preferred file that is shorter than every other preferred file wins,
    whatever the order of the listing. *)
Lemma shortest_preferred_wins env serverless b w (files : list string) (f : string) :
  globbySync env (b ++ ".*") (globCwd env serverless) = files ->
  In f files -> preferred f = true ->
  (forall g, In g files -> preferred g = true -> g <> f -> Lodash.size f < Lodash.size g) ->
  fst (getEntryExtension env serverless b w) = Ok (Path.extname f).
Proof.
  intros Hg Hin Hp Hmin.
  destruct files as [|x fs]; [contradiction|].
  destruct (getEntryExtension_found env serverless b w x fs Hg) as (winner & Hw & Hrun).
  rewrite sortedFiles_first in Hw.
  destruct (sortBy_least_first string_dec Lodash.size f (filter preferred (x :: fs)))
    as [r Hr].
  - apply filter_In. split; assumption.
  - intros g Hgin Hne. apply filter_In in Hgin as [Hgin Hgp]. now apply Hmin.
  - rewrite Hr in Hw. injection Hw as <-. now rewrite Hrun.
Qed.

(** C2, as the code has it.  Of the candidates [b.js] and [b.ts] the one the
    listing service lists first wins: its extension is returned, [.js] for the
    listing [b.js, b.ts] and [.ts] for the listing [b.ts, b.js] when [b] names
    a file.  Two listings of the same candidate set give the same extension
    when one preferred candidate is shorter than every other preferred
    candidate: that candidate wins in both. *)
Theorem extension_follows_listing env serverless b w :
  (globbySync env (b ++ ".*") (globCwd env serverless) = [b ++ ".js"; b ++ ".ts"] ->
   fst (getEntryExtension env serverless b w) = Ok (Path.extname (b ++ ".js")))
  /\ (globbySync env (b ++ ".*") (globCwd env serverless) = [b ++ ".ts"; b ++ ".js"] ->
      fst (getEntryExtension env serverless b w) = Ok (Path.extname (b ++ ".ts")))
  /\ (namesFile b = true ->
      Path.extname (b ++ ".js") = ".js" /\ Path.extname (b ++ ".ts") = ".ts")
  /\ (forall env' w' files files' f,
        globbySync env (b ++ ".*") (globCwd env serverless) = files ->
        globbySync env' (b ++ ".*") (globCwd env' serverless) = files' ->
        (forall x, In x files <-> In x files') ->
        In f files -> preferred f = true ->
        (forall g, In g files -> preferred g = true -> g <> f ->
                   Lodash.size f < Lodash.size g) ->
        fst (getEntryExtension env serverless b w) = Ok (Path.extname f)
        /\ fst (getEntryExtension env' serverless b w') = Ok (Path.extname f)).
Proof.
  split; [|split; [|split]].
  - apply first_listed_wins; [apply preferred_js_ts|apply size_js_ts].
  - apply first_listed_wins; [symmetry; apply preferred_js_ts|symmetry; apply size_js_ts].
  - apply (proj1 (extname_js_ts b)).
  - intros env' w' files files' f Hg Hg' Hsame Hin Hp Hmin. split.
    + now apply (shortest_preferred_wins env serverless b w files f).
    + apply (shortest_preferred_wins env' serverless b w' files' f); try assumption.
      * now apply Hsame.
      * intros g Hgin. apply Hmin. now apply Hsame.
Qed.

Lemma extension_follows_listing_witness :
  fst (getEntryExtension (Fixture.envOf (fun _ _ => ["module1.js"; "module1.ts"]))
         (Fixture.serviceOf Fixture.testFunctionsConfig None false) "module1" Fixture.fresh)
  = Ok ".js"
  /\ fst (getEntryExtension (Fixture.envOf (fun _ _ => ["module1.test.js"; "module1.js"]))
            (Fixture.serviceOf Fixture.testFunctionsConfig None false) "module1" Fixture.fresh)
     = Ok ".js"
  /\ fst (getEntryExtension (Fixture.envOf (fun _ _ => ["module1.js"; "module1.test.js"]))
            (Fixture.serviceOf Fixture.testFunctionsConfig None false) "module1" Fixture.fresh)
     = Ok ".js".
Proof.
  split.
  - exact (proj1 (extension_follows_listing
                    (Fixture.envOf (fun _ _ => ["module1.js"; "module1.ts"]))
                    (Fixture.serviceOf Fixture.testFunctionsConfig None false)
                    "module1" Fixture.fresh) eq_refl).
  - apply (proj2 (proj2 (proj2 (extension_follows_listing
                    (Fixture.envOf (fun _ _ => ["module1.test.js"; "module1.js"]))
                    (Fixture.serviceOf Fixture.testFunctionsConfig None false)
                    "module1" Fixture.fresh)))
             (Fixture.envOf (fun _ _ => ["module1.js"; "module1.test.js"]))
             Fixture.fresh
             ["module1.test.js"; "module1.js"] ["module1.js"; "module1.test.js"]
             "module1.js" eq_refl eq_refl).
    + intros x. simpl. tauto.
    + simpl. tauto.
    + reflexivity.
    + intros g [<-|[<-|[]]] _ Hne; [|congruence]. vm_compute. lia.
Defined.

(** The listing [module1.ts, module1.js] is a listing of the candidate set of
    [module1.js] and [module1.ts], and for it the extension is [.ts]: the
    extension is not [.js] for every order of the listing. *)
Lemma extension_not_js_for_every_order :
  ~ (forall files,
       Permutation files ["module1.js"; "module1.ts"] ->
       fst (getEntryExtension (Fixture.envOf (fun _ _ => files))
              (Fixture.serviceOf Fixture.testFunctionsConfig None false)
              "module1" Fixture.fresh) = Ok ".js").
Proof.
  intros H. specialize (H ["module1.ts"; "module1.js"] (perm_swap _ _ _)).
  vm_compute in H. discriminate H.
Qed.

(** ** The stages of [validate] *)

(** [validate] is the entry resolution, the exposition of the entries, the
    loading of the configuration and the configuration itself, each started
    in the world the stage before has left. *)
Lemma validate_stages env serverless options keep w :
  validate env serverless options keep w =
  match resolveEntries env serverless options (started serverless w) with
  | (Ok entries, w1) =>
      match loadConfig env serverless (exposed serverless options entries w1) with
      | (Ok (inl c), w2) => configure env serverless options keep c entries w2
      | (Ok (inr err), w2) => (Ok (Rejected err), w2)
      | (Throw e, w2) => (Throw e, w2)
      end
  | (Throw e, w1) => (Throw e, w1)
  end.
Proof.
  unfold validate, bind, modify.
  destruct (resolveEntries _ _ _ _) as [[entries|e] w1]; [|reflexivity].
  destruct (loadConfig _ _ _) as [[[c|err]|e] w2]; reflexivity.
Qed.

(** *** What writing the configuration changes *)

Lemma this_written serverless c w :
  this (written serverless c w) = withWebpackConfig (WebpackSingle c) (this w).
Proof. unfold written. destruct (configSource serverless); reflexivity. Qed.

Lemma cliLog_written serverless c w : cliLog (written serverless c w) = cliLog w.
Proof. unfold written. destruct (configSource serverless); reflexivity. Qed.

Lemma globCalls_written serverless c w : globCalls (written serverless c w) = globCalls w.
Proof. unfold written. destruct (configSource serverless); reflexivity. Qed.

Lemma removeCalls_written serverless c w :
  removeCalls (written serverless c w) = removeCalls w.
Proof. unfold written. destruct (configSource serverless); reflexivity. Qed.

(** The options and the entries in [lib] are not touched; the service in
    [lib] is not touched when the configuration comes from a file. *)
Lemma lib_written serverless c w :
  libOptions (lib (written serverless c w)) = libOptions (lib w)
  /\ libEntries (lib (written serverless c w)) = libEntries (lib w)
  /\ (forall file, configSource serverless = ConfigFile file ->
                   lib (written serverless c w) = lib w)
  /\ (forall c0, configSource serverless = ConfigInline c0 ->
                 libServerless (lib (written serverless c w)) =
                 option_map (fun _ => withConfig serverless c) (libServerless (lib w))).
Proof.
  unfold written. destruct (configSource serverless) as [file|c1];
    repeat split; try reflexivity; intros; discriminate.
Qed.

(** ** Parts of the world that a computation leaves alone *)

Lemma leaves_ret {A B} (part : World -> B) (a : A) : leaves part (ret a).
Proof. intros w. reflexivity. Qed.

Lemma leaves_throw {A B} (part : World -> B) (e : Error) : leaves part (@throw A e).
Proof. intros w. reflexivity. Qed.

Lemma leaves_lift {A B} (part : World -> B) (r : Result A) : leaves part (lift r).
Proof. intros w. reflexivity. Qed.

Lemma leaves_bind {A B C} (part : World -> C) (m : M A) (k : A -> M B) :
  leaves part m -> (forall a, leaves part (k a)) -> leaves part (bind m k).
Proof.
  intros Hm Hk w. unfold bind. specialize (Hm w).
  destruct (m w) as [[a|e] w1]; simpl in *; [|exact Hm].
  now rewrite Hk.
Qed.

Lemma leaves_modify {B} (part : World -> B) (f : World -> World) :
  (forall w, part (f w) = part w) -> leaves part (modify f).
Proof. intros H w. apply H. Qed.

Lemma leaves_when {B} (part : World -> B) (b : bool) (m : M unit) :
  leaves part m -> leaves part (when b m).
Proof. destruct b; [trivial|intros _; apply leaves_ret]. Qed.

Lemma leaves_forEach {A S B} (part : World -> B) (l : list A) (f : S -> A -> M S) :
  (forall s a, leaves part (f s a)) -> forall s, leaves part (forEach l f s).
Proof.
  intros Hf. induction l as [|a l IH]; simpl; intros s; [apply leaves_ret|].
  apply leaves_bind; [apply Hf|]. intros s'. apply IH.
Qed.

Lemma leaves_mapM {A B C} (part : World -> C) (f : A -> M B) (l : list A) :
  (forall a, leaves part (f a)) -> leaves part (mapM f l).
Proof.
  intros Hf. induction l as [|a l IH]; simpl; [apply leaves_ret|].
  apply leaves_bind; [apply Hf|]. intros b.
  apply leaves_bind; [exact IH|]. intros bs. apply leaves_ret.
Qed.

Ltac untouched :=
  repeat first
    [ apply leaves_ret | apply leaves_throw | apply leaves_lift
    | apply leaves_when | apply leaves_modify; intros; reflexivity
    | apply leaves_bind; [|intros] | apply leaves_forEach; intros
    | apply leaves_mapM; intros ].

Lemma leaves_getFunction {B} (part : World -> B) serverless name :
  leaves part (getFunction serverless name).
Proof.
  unfold getFunction. destruct (Obj.get _ _); [|destruct (Lodash.includes _ _)]; untouched.
Qed.

(** The lookup of the functions and the binding of the entries change
    nothing in the world. *)
Lemma leaves_allEntryFunctions {B} (part : World -> B) env serverless :
  leaves part (allEntryFunctions env serverless).
Proof.
  unfold allEntryFunctions. apply leaves_mapM. intros name.
  apply leaves_bind; [apply leaves_getFunction|].
  intros f. destruct (getHandlerFile _); untouched.
Qed.

Lemma leaves_bindEntry {B} (part : World -> B) env acc kv :
  leaves part (bindEntry env acc kv).
Proof.
  destruct acc as [all refs], kv as [k v]. unfold bindEntry.
  apply leaves_bind; [apply leaves_lift|].
  intros entryFile. destruct (matchingFrom _ _ _); untouched.
Qed.

(** The fan-out writes the plugin and nothing else. *)
Lemma leaves_fanOut {B} (part : World -> B) env serverless c entries :
  (forall l w, part (setThis (withEntryFunctions l) w) = part w) ->
  (forall c w, part (setThis (withWebpackConfig c) w) = part w) ->
  leaves part (fanOut env serverless c entries).
Proof.
  intros Hfuncs Hconfig. unfold fanOut.
  apply leaves_bind; [apply leaves_allEntryFunctions|]. intros all.
  apply leaves_bind; [apply leaves_forEach; intros; apply leaves_bindEntry|].
  intros bound.
  apply leaves_bind; [apply leaves_modify; intros; apply Hfuncs|]. intros _.
  apply leaves_bind; [apply leaves_mapM; intros; apply leaves_lift|]. intros configs.
  apply leaves_bind; [apply leaves_modify; intros; apply Hconfig|]. intros _.
  apply leaves_ret.
Qed.

(** The entry resolution lists files and logs. *)
Lemma leaves_resolveEntries {B} (part : World -> B) env serverless options :
  (forall f w, part (setCliLog f w) = part w) ->
  (forall f w, part (setGlobCalls f w) = part w) ->
  leaves part (resolveEntries env serverless options).
Proof.
  intros Hlog Hglob.
  assert (Hext : forall fileName, leaves part (getEntryExtension env serverless fileName)).
  { intros fileName. unfold getEntryExtension.
    apply leaves_bind; [intros w; apply Hglob|].
    intros [|f fs]; [untouched|].
    apply leaves_bind.
    - apply leaves_when. apply leaves_modify. intros; apply Hlog.
    - intros _. destruct (Lodash.first _); untouched. }
  assert (Hone : forall entries name, leaves part (resolveEntry env serverless entries name)).
  { intros entries name. unfold resolveEntry.
    apply leaves_bind; [apply leaves_getFunction|]. intros f.
    apply leaves_bind; [|untouched].
    unfold getEntryForFunction. cbv zeta. destruct (negb _).
    - apply leaves_bind; [|untouched].
      apply leaves_when. apply leaves_modify. intros; apply Hlog.
    - apply leaves_bind; [apply Hext|untouched]. }
  unfold resolveEntries. destruct (Js.truthy_opt _); [apply Hone|].
  apply leaves_forEach. intros. apply Hone.
Qed.

(** The loading of the configuration logs and writes the configuration of
    the plugin. *)
Lemma leaves_loadConfig {B} (part : World -> B) env serverless :
  (forall f w, part (setCliLog f w) = part w) ->
  (forall c w, part (setThis (withWebpackConfig c) w) = part w) ->
  leaves part (loadConfig env serverless).
Proof.
  intros Hlog Hthis. unfold loadConfig.
  destruct (configSource serverless) as [file|c]; [|untouched].
  destruct (negb _); [untouched|].
  intros w. destruct (requireConfig _ _ _); simpl; [apply Hthis|apply Hlog].
Qed.

(** ** The two halves of [configure] *)

Lemma configure_run env serverless options keep c0 entries w :
  keep = true
  \/ (exists p, path (outputOf serverless (withDefaults serverless options c0)) = Some p) ->
  configure env serverless options keep c0 entries w =
  if packageIndividually (service serverless) then
    if entryConflicts (withDefaults serverless options c0) entries
    then (Ok (Rejected entryMustBeResolved),
          individually options (prepared serverless options keep c0 w))
    else fanOut env serverless (withDefaults serverless options c0) entries
           (individually options (prepared serverless options keep c0 w))
  else
    match path (outputOf serverless (withDefaults serverless options c0)) with
    | None => (Throw TypeError, prepared serverless options keep c0 w)
    | Some p =>
        (Ok Resolved,
         written serverless
           (setOutput (setPath (Path.join [p; "service"])
                         (outputOf serverless (withDefaults serverless options c0)))
              (withDefaults serverless options c0))
           (prepared serverless options keep c0 w))
    end.
Proof.
  intros Hrm.
  unfold configure, prepared, individually, bind, modify, when, log, removeSync, ret, throw.
  cbv zeta.
  destruct keep; cbn [negb].
  - destruct (verbose options), (packageIndividually (service serverless));
      try reflexivity;
      try (destruct (entryConflicts _ _); reflexivity);
      destruct (path _); reflexivity.
  - destruct Hrm as [Hk|[p Hp]]; [discriminate|]. rewrite Hp.
    destruct (verbose options), (packageIndividually (service serverless));
      try reflexivity;
      destruct (entryConflicts _ _); reflexivity.
Qed.

(** The removal of a missing output path throws before anything else is
    looked at. *)
Lemma configure_refused env serverless options c0 entries w :
  path (outputOf serverless (withDefaults serverless options c0)) = None ->
  configure env serverless options false c0 entries w =
  (Throw (AssertionError "rimraf: missing path"), refused serverless options c0 w).
Proof.
  intros Hp.
  unfold configure, refused, bind, modify, when, log, removeSync, ret, throw.
  cbv zeta. rewrite Hp. cbn [negb].
  destruct (verbose options); reflexivity.
Qed.

(** A pass that returns has not thrown at the removal: the output directory
    is kept, or the output has a path. *)
Lemma removal_has_not_thrown env serverless options keep w entries w1 c0 w2 r :
  resolveEntries env serverless options (started serverless w) = (Ok entries, w1) ->
  loadConfig env serverless (exposed serverless options entries w1) = (Ok (inl c0), w2) ->
  fst (validate env serverless options keep w) = Ok r ->
  keep = true
  \/ exists p, path (outputOf serverless (withDefaults serverless options c0)) = Some p.
Proof.
  intros Hent Hload Hrun.
  destruct keep; [now left|right].
  destruct (path (outputOf serverless (withDefaults serverless options c0)))
    as [p|] eqn:Hp; [now exists p|].
  rewrite validate_stages, Hent, Hload, (configure_refused _ _ _ _ _ _ Hp) in Hrun.
  discriminate Hrun.
Qed.

(** Without individual packaging, a configuration whose output has a path
    after the defaults gets the segment [service] appended to it. *)
Lemma configure_single env serverless options keep c0 entries w p :
  packageIndividually (service serverless) = false ->
  path (outputOf serverless (withDefaults serverless options c0)) = Some p ->
  exists w',
    configure env serverless options keep c0 entries w = (Ok Resolved, w')
    /\ webpackConfig (this w') =
       Some (WebpackSingle
               (setOutput (setPath (Path.join [p; "service"])
                             (outputOf serverless (withDefaults serverless options c0)))
                          (withDefaults serverless options c0)))
    /\ libOptions (lib w') = libOptions (lib w)
    /\ libEntries (lib w') = libEntries (lib w).
Proof.
  intros Hind Hp. unfold configure, bind, modify, when, log, removeSync, ret.
  rewrite Hind, Hp.
  destruct keep, (verbose options); cbn [negb]; eexists;
    (split; [reflexivity|]); (split; [now rewrite this_written|]);
    unfold written; destruct (configSource serverless); split; reflexivity.
Qed.

(** *** The default output *)

Lemma output_defaultContext serverless c :
  output (defaultContext serverless c) = output c.
Proof. unfold defaultContext. destruct (negb _); reflexivity. Qed.

Lemma output_defaultTarget c : output (defaultTarget c) = output c.
Proof. unfold defaultTarget. destruct (negb _); reflexivity. Qed.

Lemma entry_defaultContext serverless c :
  entry (defaultContext serverless c) = entry c.
Proof. unfold defaultContext. destruct (negb _); reflexivity. Qed.

Lemma entry_defaultTarget c : entry (defaultTarget c) = entry c.
Proof. unfold defaultTarget. destruct (negb _); reflexivity. Qed.

Lemma entry_defaultOutput serverless c :
  entry (defaultOutput serverless c) = entry c.
Proof.
  unfold defaultOutput. destruct (output c) as [o|]; [destruct (outputIsEmpty o)|]; reflexivity.
Qed.

Lemma entry_withDefaults serverless options c :
  entry (withDefaults serverless options c) = entry c.
Proof.
  unfold withDefaults, customOutputPath.
  destruct (Js.truthy_opt (out options)); simpl;
    now rewrite entry_defaultOutput, entry_defaultTarget, entry_defaultContext.
Qed.

Lemma withDefaults_output_default serverless options c0 :
  Js.truthy_opt (out options) = false ->
  (output c0 = None \/ exists o, output c0 = Some o /\ outputIsEmpty o = true) ->
  output (withDefaults serverless options c0) = Some (theDefaultOutput serverless).
Proof.
  intros Hout Hc. unfold withDefaults, customOutputPath. rewrite Hout.
  unfold defaultOutput.
  rewrite output_defaultTarget, output_defaultContext.
  destruct Hc as [->|(o & -> & ->)]; reflexivity.
Qed.

Lemma withDefaults_output_override serverless options c0 dir :
  out options = Some dir -> Js.truthy dir = true ->
  exists o, output (withDefaults serverless options c0) = Some o
            /\ path o = Some (Path.join [servicePath serverless; dir]).
Proof.
  intros Hout Hdir. unfold withDefaults, customOutputPath.
  rewrite Hout. simpl Js.truthy_opt. rewrite Hdir. simpl.
  eexists. split; reflexivity.
Qed.

(** C6. For the service root [testpath], without individual packaging: a
    configuration without output ends with the output of the defaults, its
    path [testpath/.webpack/service]; with the output directory [testdir] in
    the options the path ends as [testpath/testdir/service]. *)
Theorem output_path_of_single_mode env serverless options keep w entries w1 c0 w2 :
  servicePath serverless = "testpath" ->
  packageIndividually (service serverless) = false ->
  resolveEntries env serverless options (started serverless w) = (Ok entries, w1) ->
  loadConfig env serverless (exposed serverless options entries w1) = (Ok (inl c0), w2) ->
  (Js.truthy_opt (out options) = false ->
   (output c0 = None \/ exists o, output c0 = Some o /\ outputIsEmpty o = true) ->
   exists w' c,
     validate env serverless options keep w = (Ok Resolved, w')
     /\ webpackConfig (this w') = Some (WebpackSingle c)
     /\ output c = Some {| libraryTarget := Some "commonjs";
                           path := Some "testpath/.webpack/service";
                           filename := Some "[name].js";
                           outputRest := [] |})
  /\ (out options = Some "testdir" ->
      exists w' c o,
        validate env serverless options keep w = (Ok Resolved, w')
        /\ webpackConfig (this w') = Some (WebpackSingle c)
        /\ output c = Some o
        /\ path o = Some "testpath/testdir/service").
Proof.
  intros Hroot Hind Hent Hload. rewrite validate_stages, Hent, Hload. split.
  - intros Hout Hc0.
    pose proof (withDefaults_output_default serverless options c0 Hout Hc0) as Ho.
    destruct (configure_single env serverless options keep c0 entries w2
                (Path.join [servicePath serverless; ".webpack"]) Hind)
      as (w' & Hrun & Hcfg & _).
    { unfold outputOf. now rewrite Ho. }
    exists w'. eexists. split; [exact Hrun|]. split; [exact Hcfg|].
    unfold outputOf. rewrite Ho, Hroot. reflexivity.
  - intros Hout.
    destruct (withDefaults_output_override serverless options c0 "testdir" Hout eq_refl)
      as (o & Ho & Hp).
    destruct (configure_single env serverless options keep c0 entries w2
                (Path.join [servicePath serverless; "testdir"]) Hind)
      as (w' & Hrun & Hcfg & _).
    { unfold outputOf. now rewrite Ho. }
    exists w'. do 2 eexists. split; [exact Hrun|]. split; [exact Hcfg|].
    split; [reflexivity|]. rewrite Hroot. reflexivity.
Qed.

Lemma output_path_of_single_mode_witness :
  (exists w' c,
     validate (Fixture.envOf Fixture.jsFiles)
       (Fixture.serviceOf Fixture.testFunctionsConfig
          (Some (ConfigInline Fixture.emptyConfig)) false)
       Fixture.noOptions false Fixture.fresh = (Ok Resolved, w')
     /\ webpackConfig (this w') = Some (WebpackSingle c)
     /\ output c = Some {| libraryTarget := Some "commonjs";
                           path := Some "testpath/.webpack/service";
                           filename := Some "[name].js";
                           outputRest := [] |})
  /\ (exists w' c o,
        validate (Fixture.envOf Fixture.jsFiles)
          (Fixture.serviceOf Fixture.testFunctionsConfig
             (Some (ConfigInline Fixture.testConfig)) false)
          (Fixture.outTo "testdir") false Fixture.fresh = (Ok Resolved, w')
        /\ webpackConfig (this w') = Some (WebpackSingle c)
        /\ output c = Some o
        /\ path o = Some "testpath/testdir/service").
Proof.
  split.
  - refine (proj1 (output_path_of_single_mode
                     (Fixture.envOf Fixture.jsFiles)
                     (Fixture.serviceOf Fixture.testFunctionsConfig
                        (Some (ConfigInline Fixture.emptyConfig)) false)
                     Fixture.noOptions false Fixture.fresh
                     Fixture.expectedLibEntries _ Fixture.emptyConfig _
                     eq_refl eq_refl _ _) eq_refl (or_introl eq_refl));
      vm_compute; reflexivity.
  - refine (proj2 (output_path_of_single_mode
                     (Fixture.envOf Fixture.jsFiles)
                     (Fixture.serviceOf Fixture.testFunctionsConfig
                        (Some (ConfigInline Fixture.testConfig)) false)
                     (Fixture.outTo "testdir") false Fixture.fresh
                     Fixture.expectedLibEntries _ Fixture.testConfig _
                     eq_refl eq_refl _ _) eq_refl);
      vm_compute; reflexivity.
Defined.

(** Without individual packaging [configure] resolves or throws an error of
    a missing output path. *)
Lemma configure_single_cases env serverless options keep c0 entries w :
  packageIndividually (service serverless) = false ->
  (exists p w',
     path (outputOf serverless (withDefaults serverless options c0)) = Some p
     /\ configure env serverless options keep c0 entries w = (Ok Resolved, w')
     /\ webpackConfig (this w') =
        Some (WebpackSingle
                (setOutput (setPath (Path.join [p; "service"])
                              (outputOf serverless (withDefaults serverless options c0)))
                           (withDefaults serverless options c0))))
  \/ (exists e w', configure env serverless options keep c0 entries w = (Throw e, w')).
Proof.
  intros Hind.
  destruct (path (outputOf serverless (withDefaults serverless options c0))) as [p|] eqn:Hp.
  - left. destruct (configure_single env serverless options keep c0 entries w p Hind Hp)
      as (w' & Hrun & Hcfg & _). eauto.
  - right. unfold configure, bind, modify, when, log, removeSync, ret, throw.
    rewrite Hind, Hp. destruct keep, (verbose options); cbn [negb]; simpl; eauto.
Qed.

Lemma withDefaults_output_kept serverless options c o :
  output c = Some o -> outputIsEmpty o = false ->
  exists o', output (withDefaults serverless options c) = Some o'
             /\ libraryTarget o' = libraryTarget o
             /\ filename o' = filename o
             /\ outputRest o' = outputRest o
             /\ (Js.truthy_opt (out options) = false -> path o' = path o).
Proof.
  intros Ho He. unfold withDefaults, customOutputPath.
  assert (Hd : output (defaultOutput serverless (defaultTarget (defaultContext serverless c)))
               = Some o).
  { unfold defaultOutput. rewrite output_defaultTarget, output_defaultContext, Ho, He.
    now rewrite output_defaultTarget, output_defaultContext. }
  destruct (Js.truthy_opt (out options)).
  - unfold outputOf. rewrite Hd. simpl. eexists. repeat split; try reflexivity. discriminate.
  - exists o. repeat split; try reflexivity. exact Hd.
Qed.

(** C9. The default output is all or nothing: it is installed when the
    configuration has no output or an output without any property, and a
    configuration whose output has some property is left as it is, its
    missing properties missing.  When [validate] then resolves without
    individual packaging, the library target, the file name and the other
    properties of the output are as supplied. *)
Theorem default_output_all_or_nothing serverless c :
  ((output c = None \/ exists o, output c = Some o /\ outputIsEmpty o = true) ->
   output (defaultOutput serverless c) =
   Some {| libraryTarget := Some "commonjs";
           path := Some (Path.join [servicePath serverless; ".webpack"]);
           filename := Some "[name].js";
           outputRest := [] |})
  /\ (forall o, output c = Some o -> outputIsEmpty o = false ->
                defaultOutput serverless c = c)
  /\ (forall env options keep w entries w1 w2 o w',
        packageIndividually (service serverless) = false ->
        resolveEntries env serverless options (started serverless w) = (Ok entries, w1) ->
        loadConfig env serverless (exposed serverless options entries w1) = (Ok (inl c), w2) ->
        output c = Some o -> outputIsEmpty o = false ->
        validate env serverless options keep w = (Ok Resolved, w') ->
        exists c' o',
          webpackConfig (this w') = Some (WebpackSingle c')
          /\ output c' = Some o'
          /\ libraryTarget o' = libraryTarget o
          /\ filename o' = filename o
          /\ outputRest o' = outputRest o).
Proof.
  split; [|split].
  - unfold defaultOutput. intros [->|(o & -> & ->)]; reflexivity.
  - intros o Ho He. unfold defaultOutput. now rewrite Ho, He.
  - intros env options keep w entries w1 w2 o w' Hind Hent Hload Ho He Hrun.
    rewrite validate_stages, Hent, Hload in Hrun.
    destruct (withDefaults_output_kept serverless options c o Ho He)
      as (o' & Ho' & Hlt & Hfn & Hrest & _).
    destruct (configure_single_cases env serverless options keep c entries w2 Hind)
      as [(p & w'' & Hp & Hrun' & Hcfg)|(e & w'' & Hrun')];
      rewrite Hrun' in Hrun; [|discriminate].
    injection Hrun as <-. do 2 eexists. split; [exact Hcfg|].
    unfold outputOf. rewrite Ho'. simpl. repeat split; assumption.
Qed.

Lemma default_output_all_or_nothing_witness :
  exists c' o',
    webpackConfig
      (this (snd (validate (Fixture.envOf Fixture.jsFiles)
                    (Fixture.serviceOf Fixture.testFunctionsConfig
                       (Some (ConfigInline Fixture.overrideConfig)) false)
                    (Fixture.outTo "testdir") false Fixture.fresh)))
    = Some (WebpackSingle c')
    /\ output c' = Some o'
    /\ libraryTarget o' = None
    /\ filename o' = Some "filename"
    /\ outputRest o' = [].
Proof.
  refine (proj2 (proj2 (default_output_all_or_nothing
                          (Fixture.serviceOf Fixture.testFunctionsConfig
                             (Some (ConfigInline Fixture.overrideConfig)) false)
                          Fixture.overrideConfig))
            (Fixture.envOf Fixture.jsFiles) (Fixture.outTo "testdir") false Fixture.fresh
            Fixture.expectedLibEntries _ _ _ _ eq_refl _ _ eq_refl eq_refl _);
    vm_compute; reflexivity.
Defined.

(** ** Entry resolution *)

Lemma forEach_app {A S} (l1 l2 : list A) (f : S -> A -> M S) (s : S) (w : World) :
  forEach (l1 ++ l2) f s w =
  match forEach l1 f s w with
  | (Ok s', w') => forEach l2 f s' w'
  | (Throw e, w') => (Throw e, w')
  end.
Proof.
  revert s w. induction l1 as [|a l1 IH]; intros s w; simpl; [reflexivity|].
  unfold bind. destruct (f s a w) as [[s'|e] w']; [apply IH|reflexivity].
Qed.

Lemma getFunction_found serverless name f w :
  Obj.get name (functions (service serverless)) = Some f ->
  getFunction serverless name w = (Ok f, w).
Proof. intros H. unfold getFunction. now rewrite H. Qed.

(** The entry of a function whose base path has no candidate: the listing
    service is called once and the error is thrown. *)
Lemma resolveEntry_missing env serverless entries name f b w :
  Obj.get name (functions (service serverless)) = Some f ->
  getHandlerFile (handler f) = Some b -> Js.truthy b = true ->
  globbySync env (b ++ ".*") (globCwd env serverless) = [] ->
  resolveEntry env serverless entries name w =
  (Throw (ServerlessError ("No matching handler found for '" ++ b
                           ++ "'. Check your service definition.")),
   setGlobCalls (fun l => (l ++ [(b ++ ".*")%string])%list) w).
Proof.
  intros Hf Hb Ht Hg. unfold resolveEntry, bind.
  rewrite (getFunction_found serverless name f w Hf).
  unfold getEntryForFunction. cbv zeta. rewrite Hb. cbn [Js.truthy_opt Js.show_opt].
  rewrite Ht. cbn [negb]. unfold bind.
  now rewrite (getEntryExtension_missing env serverless b w Hg).
Qed.

(** C5. A function whose base path has no candidate makes [validate] throw
    the error that names the base path.  The world it leaves is the world
    after the functions before it, with the one call of the listing service
    for this base path: nothing is done for the functions after it, and
    neither the entries nor the configuration are touched. *)
Theorem no_candidate_aborts env serverless options keep w name f b :
  Obj.get name (functions (service serverless)) = Some f ->
  getHandlerFile (handler f) = Some b -> Js.truthy b = true ->
  globbySync env (b ++ ".*") (globCwd env serverless) = [] ->
  (forall pre post entries w1,
     Js.truthy_opt (function options) = false ->
     getAllFunctions serverless = (pre ++ name :: post)%list ->
     forEach pre (resolveEntry env serverless) [] (started serverless w) = (Ok entries, w1) ->
     validate env serverless options keep w =
     (Throw (ServerlessError ("No matching handler found for '" ++ b
                              ++ "'. Check your service definition.")),
      setGlobCalls (fun l => (l ++ [(b ++ ".*")%string])%list) w1))
  /\ (function options = Some name -> Js.truthy name = true ->
      validate env serverless options keep w =
      (Throw (ServerlessError ("No matching handler found for '" ++ b
                               ++ "'. Check your service definition.")),
       setGlobCalls (fun l => (l ++ [(b ++ ".*")%string])%list) (started serverless w))).
Proof.
  intros Hf Hb Ht Hg. split.
  - intros pre post entries w1 Hall Hnames Hpre.
    rewrite validate_stages. unfold resolveEntries. rewrite Hall, Hnames.
    rewrite forEach_app, Hpre. simpl forEach. unfold bind at 1.
    now rewrite (resolveEntry_missing env serverless entries name f b w1 Hf Hb Ht Hg).
  - intros Hsel Hname.
    rewrite validate_stages. unfold resolveEntries. rewrite Hsel.
    cbn [Js.truthy_opt Js.show_opt]. rewrite Hname.
    now rewrite (resolveEntry_missing env serverless [] name f b _ Hf Hb Ht Hg).
Qed.

Lemma no_candidate_aborts_witness :
  validate (Fixture.envOf Fixture.module2Missing)
    (Fixture.serviceOf Fixture.testFunctionsConfig
       (Some (ConfigInline Fixture.testConfig)) false)
    Fixture.noOptions false Fixture.fresh =
  (Throw (ServerlessError "No matching handler found for 'module2'. Check your service definition."),
   {| cliLog := []; globCalls := ["module1.*"; "module2.*"]; removeCalls := [];
      lib := lib Fixture.fresh;
      this := {| webpackConfig := Some (WebpackSingle Fixture.testConfig);
                 multiCompile := None; entryFunctions := None;
                 webpackOutputPath := None |} |}).
Proof.
  refine (eq_trans
            (proj1 (no_candidate_aborts (Fixture.envOf Fixture.module2Missing)
                      (Fixture.serviceOf Fixture.testFunctionsConfig
                         (Some (ConfigInline Fixture.testConfig)) false)
                      Fixture.noOptions false Fixture.fresh
                      "func2" (Fixture.fn "module2.func2handler" "artifact-func2.zip")
                      "module2" eq_refl eq_refl eq_refl eq_refl)
               ["func1"] ["func3"; "func4"] [("module1", "./module1.js")] _
               eq_refl eq_refl _) _);
    vm_compute; reflexivity.
Defined.

(** *** The handler parser *)

Lemma forallb_takeWhile {A} (p q : A -> bool) (l : list A) :
  forallb p l = true -> forallb p (takeWhile q l) = true.
Proof.
  induction l as [|x l IH]; simpl; [reflexivity|].
  intros H. apply andb_true_iff in H as [Hx Hl].
  destruct (q x); simpl; [|reflexivity]. now rewrite Hx, IH.
Qed.

(** A handler without a dot has no handler file. *)
Lemma getHandlerFile_no_dot (handler : string) :
  forallb (fun c => negb (Path.isDot c)) (Js.chars handler) = true ->
  getHandlerFile handler = None.
Proof.
  intros H. unfold getHandlerFile.
  rewrite dropWhile_all; [reflexivity|].
  apply forallb_takeWhile. now rewrite forallb_rev.
Qed.

(** A handler without line terminator: the handler file is everything before
    the last dot. *)
Lemma getHandlerFile_last_dot (stem suffix : string) :
  forallb (fun c => negb (Path.isDot c)) (Js.chars suffix) = true ->
  forallb (fun c => negb (Js.isLineTerminator c)) (Js.chars (stem ++ "." ++ suffix)) = true ->
  getHandlerFile (stem ++ "." ++ suffix) = Some stem.
Proof.
  intros Hs Hl. unfold getHandlerFile.
  rewrite takeWhile_all by now rewrite forallb_rev.
  rewrite !chars_app. change (Js.chars ".") with [Path.dot].
  rewrite rev_app_distr. simpl rev. rewrite <- app_assoc. simpl app.
  rewrite dropWhile_app_stop; [|now rewrite forallb_rev|reflexivity].
  now rewrite rev_involutive, str_chars.
Qed.

(** The same two facts for a handler of any code units. *)
Lemma matchHandler_no_dot {C} (isLineTerminator isDot : C -> bool) (handler : list C) :
  forallb (fun c => negb (isDot c)) handler = true ->
  matchHandler isLineTerminator isDot handler = None.
Proof.
  intros H. unfold matchHandler.
  rewrite dropWhile_all; [reflexivity|].
  apply forallb_takeWhile. now rewrite forallb_rev.
Qed.

Lemma matchHandler_last_dot {C} (isLineTerminator isDot : C -> bool)
      (stem : list C) (d : C) (suffix : list C) :
  isDot d = true ->
  forallb (fun c => negb (isDot c)) suffix = true ->
  forallb (fun c => negb (isLineTerminator c)) (stem ++ d :: suffix) = true ->
  matchHandler isLineTerminator isDot (stem ++ d :: suffix) = Some stem.
Proof.
  intros Hd Hs Hl. unfold matchHandler.
  rewrite takeWhile_all by now rewrite forallb_rev.
  rewrite rev_app_distr. simpl rev. rewrite <- app_assoc. simpl app.
  rewrite dropWhile_app_stop; [|now rewrite forallb_rev|now rewrite Hd].
  now rewrite rev_involutive.
Qed.

Lemma takeWhile_map {A B} (f : A -> B) (p : A -> bool) (q : B -> bool) (l : list A) :
  (forall a, q (f a) = p a) ->
  takeWhile q (map f l) = map f (takeWhile p l).
Proof.
  intros H. induction l as [|a l IH]; simpl; [reflexivity|].
  rewrite H. destruct (p a); simpl; [now rewrite IH|reflexivity].
Qed.

Lemma dropWhile_map {A B} (f : A -> B) (p : A -> bool) (q : B -> bool) (l : list A) :
  (forall a, q (f a) = p a) ->
  dropWhile q (map f l) = map f (dropWhile p l).
Proof.
  intros H. induction l as [|a l IH]; simpl; [reflexivity|].
  rewrite H. destruct (p a); [exact IH|reflexivity].
Qed.

Lemma isLineTerminator_widen (c : ascii) :
  Wide.isLineTerminator (N_of_ascii c) = Js.isLineTerminator c.
Proof. destruct c as [[] [] [] [] [] [] [] []]; reflexivity. Qed.

Lemma isDot_widen (c : ascii) : Wide.isDot (N_of_ascii c) = Path.isDot c.
Proof. destruct c as [[] [] [] [] [] [] [] []]; reflexivity. Qed.

(** On a handler of code units below 256 the two parsers agree. *)
Lemma getHandlerFile_widen (handler : string) :
  Wide.getHandlerFile (Wide.widen handler) = option_map Wide.widen (getHandlerFile handler).
Proof.
  unfold Wide.getHandlerFile, matchHandler, getHandlerFile, Wide.widen.
  rewrite <- map_rev.
  rewrite (takeWhile_map N_of_ascii (fun c => negb (Js.isLineTerminator c)))
    by (intros a; now rewrite isLineTerminator_widen).
  rewrite (dropWhile_map N_of_ascii (fun c => negb (Path.isDot c)))
    by (intros a; now rewrite isDot_widen).
  destruct (dropWhile _ _) as [|d rstem]; simpl; [reflexivity|].
  now rewrite chars_str, map_rev.
Qed.

(** A function without handler file gives no entry: the warning is logged
    unless the provider is Google, and nothing is thrown. *)
Lemma getEntryForFunction_skipped env serverless name f w :
  Js.truthy_opt (getHandlerFile (handler f)) = false ->
  getEntryForFunction env serverless name f w =
  (Ok [],
   if providerIsGoogle serverless then w
   else setCliLog (fun l => (l ++ [entryWarning name (handler f)])%list) w).
Proof.
  intros H. unfold getEntryForFunction. cbv zeta. rewrite H. cbn [negb].
  unfold bind, when, log, modify, ret.
  destruct (providerIsGoogle serverless); reflexivity.
Qed.

(** C8, as the code has it.  A function whose handler has no dot has no
    handler file; it gives no entry, the warning is logged unless the
    provider is Google, nothing is thrown, and the resolution goes on with
    the functions after it, the entries unchanged.  A handler with a dot and
    without line terminator has everything before its last dot as handler
    file.  The line terminators are the four code units that the dot of the
    pattern does not match: line feed, carriage return, line separator
    (U+2028) and paragraph separator (U+2029).  Both facts about the parser
    hold for a handler of any 16-bit code units, and on a handler of code
    units below 256, where only line feed and carriage return occur, the
    parser on code units is the parser on strings. *)
Theorem handler_without_path env serverless name f :
  Obj.get name (functions (service serverless)) = Some f ->
  forallb (fun c => negb (Path.isDot c)) (Js.chars (handler f)) = true ->
  getHandlerFile (handler f) = None
  /\ (forall w,
        getEntryForFunction env serverless name f w =
        (Ok [],
         if providerIsGoogle serverless then w
         else setCliLog (fun l => (l ++ [entryWarning name (handler f)])%list) w))
  /\ (forall entries rest w,
        forEach (name :: rest) (resolveEntry env serverless) entries w =
        forEach rest (resolveEntry env serverless) entries
          (if providerIsGoogle serverless then w
           else setCliLog (fun l => (l ++ [entryWarning name (handler f)])%list) w))
  /\ (forall stem suffix,
        forallb (fun c => negb (Path.isDot c)) (Js.chars suffix) = true ->
        forallb (fun c => negb (Js.isLineTerminator c)) (Js.chars (stem ++ "." ++ suffix)) = true ->
        getHandlerFile (stem ++ "." ++ suffix) = Some stem)
  /\ (forall units : list N,
        forallb (fun u => negb (Wide.isDot u)) units = true ->
        Wide.getHandlerFile units = None)
  /\ (forall stem suffix : list N,
        forallb (fun u => negb (Wide.isDot u)) suffix = true ->
        forallb (fun u => negb (Wide.isLineTerminator u)) (stem ++ 46%N :: suffix) = true ->
        Wide.getHandlerFile (stem ++ 46%N :: suffix) = Some stem)
  /\ (forall u, Wide.isLineTerminator u = true <->
                u = 10%N \/ u = 13%N \/ u = 8232%N \/ u = 8233%N)
  /\ (forall h : string,
        Wide.getHandlerFile (Wide.widen h) = option_map Wide.widen (getHandlerFile h)).
Proof.
  intros Hf Hdot.
  pose proof (getHandlerFile_no_dot (handler f) Hdot) as Hnone.
  assert (Hskip : Js.truthy_opt (getHandlerFile (handler f)) = false)
    by now rewrite Hnone.
  split; [exact Hnone|]. split; [|split; [|split; [|split; [|split; [|split]]]]].
  - intros w. now apply getEntryForFunction_skipped.
  - intros entries rest w. simpl forEach. unfold bind at 1. unfold resolveEntry at 1.
    unfold bind. rewrite (getFunction_found serverless name f w Hf).
    rewrite (getEntryForFunction_skipped env serverless name f w Hskip).
    reflexivity.
  - apply getHandlerFile_last_dot.
  - intros units. apply matchHandler_no_dot.
  - intros stem suffix. apply matchHandler_last_dot. reflexivity.
  - intros u. unfold Wide.isLineTerminator.
    rewrite !orb_true_iff, !N.eqb_eq. tauto.
  - apply getHandlerFile_widen.
Qed.

Lemma handler_without_path_witness :
  getHandlerFile "receive" = None
  /\ forEach ["queue"; "func1"; "func2"; "func3"; "func4"]
       (resolveEntry (Fixture.envOf Fixture.jsFiles)
          (Fixture.serviceOf
             (("queue", {| handler := "receive"; artifact := None |})
                :: Fixture.testFunctionsConfig)
             (Some (ConfigInline Fixture.testConfig)) false))
       [] Fixture.fresh
     = (Ok Fixture.expectedLibEntries,
        {| cliLog := [entryWarning "queue" "receive"];
           globCalls := ["module1.*"; "module2.*"; "handlers/func3/module2.*";
                         "handlers/module2/func3/module2.*"];
           removeCalls := []; lib := lib Fixture.fresh; this := this Fixture.fresh |})
  /\ getHandlerFile "handlers/func3/module2.func3handler" = Some "handlers/func3/module2"
  /\ Wide.getHandlerFile [104; 246; 8364; 46; 8232; 98; 8364; 46; 99]%N = Some [98; 8364]%N
  /\ Wide.getHandlerFile [104; 8364; 115; 46; 102; 46; 8364]%N = Some [104; 8364; 115; 46; 102]%N.
Proof.
  pose proof (handler_without_path (Fixture.envOf Fixture.jsFiles)
                (Fixture.serviceOf
                   (("queue", {| handler := "receive"; artifact := None |})
                      :: Fixture.testFunctionsConfig)
                   (Some (ConfigInline Fixture.testConfig)) false)
                "queue" {| handler := "receive"; artifact := None |} eq_refl eq_refl)
    as (Hnone & _ & Hnext & Hlast & _ & Hwide & _).
  split; [exact Hnone|]. split; [|split; [|split]].
  - rewrite Hnext. vm_compute. reflexivity.
  - exact (Hlast "handlers/func3/module2" "func3handler" eq_refl eq_refl).
  - reflexivity.
  - exact (Hwide [104; 8364; 115; 46; 102]%N [8364]%N eq_refl eq_refl).
Defined.

(** The handler [a], line feed, [b.c] has a dot, and its handler file is [b]:
    not everything before the last dot. *)
Lemma handler_file_after_line_terminator :
  ~ (forall stem suffix,
       forallb (fun c => negb (Path.isDot c)) (Js.chars suffix) = true ->
       getHandlerFile (stem ++ "." ++ suffix) = Some stem).
Proof.
  intros H. specialize (H ("a" ++ Js.nl ++ "b") "c" eq_refl).
  vm_compute in H. discriminate H.
Qed.

(** ** What is written to [lib] *)

Lemma keepsLib_ret {A} (a : A) : keepsLib (ret a).
Proof. intros w. reflexivity. Qed.

Lemma keepsLib_throw {A} (e : Error) : keepsLib (@throw A e).
Proof. intros w. reflexivity. Qed.

Lemma keepsLib_bind {A B} (m : M A) (k : A -> M B) :
  keepsLib m -> (forall a, keepsLib (k a)) -> keepsLib (bind m k).
Proof.
  intros Hm Hk w. unfold bind. specialize (Hm w).
  destruct (m w) as [[a|e] w']; simpl in *; [|assumption].
  now rewrite Hk.
Qed.

Lemma keepsLib_modify (f : World -> World) :
  (forall w, lib (f w) = lib w) -> keepsLib (modify f).
Proof. intros H w. apply H. Qed.

Lemma keepsLib_log (msg : string) : keepsLib (log msg).
Proof. now apply keepsLib_modify. Qed.

Lemma keepsLib_when (b : bool) (m : M unit) : keepsLib m -> keepsLib (when b m).
Proof. destruct b; [trivial|intros _; apply keepsLib_ret]. Qed.

Lemma keepsLib_forEach {A S} (l : list A) (f : S -> A -> M S) (s : S) :
  (forall s a, keepsLib (f s a)) -> keepsLib (forEach l f s).
Proof.
  intros Hf. revert s. induction l as [|a l IH]; intros s; simpl.
  - apply keepsLib_ret.
  - apply keepsLib_bind; [apply Hf|intros s'; apply IH].
Qed.

Lemma keepsLib_mapM {A B} (f : A -> M B) (l : list A) :
  (forall a, keepsLib (f a)) -> keepsLib (mapM f l).
Proof.
  intros Hf. induction l as [|a l IH]; simpl.
  - apply keepsLib_ret.
  - apply keepsLib_bind; [apply Hf|]. intros b.
    apply keepsLib_bind; [apply IH|]. intros bs. apply keepsLib_ret.
Qed.

Ltac keeps :=
  repeat first
    [ apply keepsLib_ret | apply keepsLib_throw | apply keepsLib_log
    | apply keepsLib_when | apply keepsLib_modify; intros; reflexivity
    | apply keepsLib_bind; [|intros] | apply keepsLib_forEach; intros
    | apply keepsLib_mapM; intros ].

Lemma keepsLib_getFunction serverless name : keepsLib (getFunction serverless name).
Proof.
  unfold getFunction. destruct (Obj.get _ _); [|destruct (Lodash.includes _ _)]; keeps.
Qed.

Lemma keepsLib_getEntryExtension env serverless fileName :
  keepsLib (getEntryExtension env serverless fileName).
Proof.
  unfold getEntryExtension. apply keepsLib_bind; [intros w; reflexivity|].
  intros [|f fs]; [keeps|]. apply keepsLib_bind; [keeps|].
  intros _. destruct (Lodash.first _); keeps.
Qed.

Lemma keepsLib_resolveEntry env serverless entries name :
  keepsLib (resolveEntry env serverless entries name).
Proof.
  unfold resolveEntry. apply keepsLib_bind; [apply keepsLib_getFunction|].
  intros f. apply keepsLib_bind; [|keeps].
  unfold getEntryForFunction. cbv zeta. destruct (negb _); [keeps|].
  apply keepsLib_bind; [apply keepsLib_getEntryExtension|keeps].
Qed.

Lemma keepsLib_resolveEntries env serverless options :
  keepsLib (resolveEntries env serverless options).
Proof.
  unfold resolveEntries. destruct (Js.truthy_opt _).
  - apply keepsLib_resolveEntry.
  - apply keepsLib_forEach. intros. apply keepsLib_resolveEntry.
Qed.

Lemma keepsLib_loadConfig env serverless : keepsLib (loadConfig env serverless).
Proof.
  unfold loadConfig. destruct (configSource serverless) as [file|c]; [|keeps].
  destruct (negb _); [keeps|].
  intros w. destruct (requireConfig _ _ _); reflexivity.
Qed.

Lemma keepsLib_lift {A} (r : Result A) : keepsLib (lift r).
Proof. intros w. reflexivity. Qed.

Lemma keepsLib_fanOut env serverless c entries :
  keepsLib (fanOut env serverless c entries).
Proof.
  unfold fanOut. apply keepsLib_bind.
  { unfold allEntryFunctions. apply keepsLib_mapM. intros name.
    apply keepsLib_bind; [apply keepsLib_getFunction|].
    intros f. destruct (getHandlerFile _); keeps. }
  intros all. apply keepsLib_bind.
  { apply keepsLib_forEach. intros [all' refs] [k v]. unfold bindEntry.
    apply keepsLib_bind; [apply keepsLib_lift|].
    intros entryFile. destruct (matchingFrom _ _ _); keeps. }
  intros bound. apply keepsLib_bind; [keeps|]. intros _.
  apply keepsLib_bind; [|keeps].
  apply keepsLib_mapM. intros b. apply keepsLib_lift.
Qed.

(** [configure] writes the configuration, logs, removes and writes the
    plugin: a part of the world that none of these touches is left as it
    is. *)
Lemma leaves_configure {B} (part : World -> B) env serverless options keep c entries :
  (forall f w, part (setCliLog f w) = part w) ->
  (forall f w, part (setRemoveCalls f w) = part w) ->
  (forall f w, part (setThis f w) = part w) ->
  (forall c w, part (written serverless c w) = part w) ->
  leaves part (configure env serverless options keep c entries).
Proof.
  intros Hlog Hrm Hthis Hwr. unfold configure. cbv zeta.
  apply leaves_bind; [apply leaves_modify; intros; apply Hwr|]. intros _.
  apply leaves_bind.
  { apply leaves_when. apply leaves_bind.
    - apply leaves_when. apply leaves_modify. intros; apply Hlog.
    - intros _. unfold removeSync. destruct (path _).
      + apply leaves_modify. intros; apply Hrm.
      + apply leaves_throw. }
  intros _. apply leaves_bind; [apply leaves_modify; intros; apply Hthis|]. intros _.
  destruct (packageIndividually _).
  - apply leaves_bind; [apply leaves_when; apply leaves_modify; intros; apply Hlog|].
    intros _. apply leaves_bind; [apply leaves_modify; intros; apply Hthis|]. intros _.
    destruct (entryConflicts _ _); [apply leaves_ret|].
    apply leaves_fanOut; intros; apply Hthis.
  - destruct (path _); [|apply leaves_throw].
    apply leaves_bind; [apply leaves_modify; intros; apply Hwr|]. intros _.
    apply leaves_ret.
Qed.

(** The configuration that a pass leaves written in the configuration
    object: the one with the defaults, and in a pass for the whole service
    the one whose output path has got the segment [service]. *)
Lemma lib_of_configure env serverless options keep c0 entries w s :
  libServerless (lib w) = Some s ->
  forall c1, configSource serverless = ConfigInline c1 ->
  libServerless (lib (snd (configure env serverless options keep c0 entries w))) =
  Some (withConfig serverless
          (if packageIndividually (service serverless)
           then withDefaults serverless options c0
           else match path (outputOf serverless (withDefaults serverless options c0)) with
                | Some p =>
                    setOutput (setPath (Path.join [p; "service"])
                                 (outputOf serverless (withDefaults serverless options c0)))
                      (withDefaults serverless options c0)
                | None => withDefaults serverless options c0
                end)).
Proof.
  intros Hs c1 Hsrc.
  assert (Hwr : forall c w' s', libServerless (lib w') = Some s' ->
                  libServerless (lib (written serverless c w')) =
                  Some (withConfig serverless c)).
  { intros c w' s' Hw'.
    rewrite (proj2 (proj2 (proj2 (lib_written serverless c w'))) c1 Hsrc), Hw'.
    reflexivity. }
  assert (Hprep : lib (prepared serverless options keep c0 w) =
                  lib (written serverless (withDefaults serverless options c0) w)).
  { unfold prepared. cbv zeta. destruct keep, (verbose options); reflexivity. }
  assert (Hind : forall w', lib (individually options w') = lib w').
  { intros w'. unfold individually. destruct (verbose options); reflexivity. }
  assert (Hrun : keep = true
                 \/ (exists p, path (outputOf serverless
                                       (withDefaults serverless options c0)) = Some p) ->
                 libServerless
                   (lib (snd (configure env serverless options keep c0 entries w))) =
                 Some (withConfig serverless
                         (if packageIndividually (service serverless)
                          then withDefaults serverless options c0
                          else match path (outputOf serverless
                                             (withDefaults serverless options c0)) with
                               | Some p =>
                                   setOutput
                                     (setPath (Path.join [p; "service"])
                                        (outputOf serverless
                                           (withDefaults serverless options c0)))
                                     (withDefaults serverless options c0)
                               | None => withDefaults serverless options c0
                               end))).
  { intros Hrm. rewrite configure_run by exact Hrm.
    destruct (packageIndividually (service serverless)).
    - destruct (entryConflicts _ _); [cbn [snd]|rewrite keepsLib_fanOut];
        rewrite Hind, Hprep; apply (Hwr _ _ _ Hs).
    - destruct (path _) as [p|]; cbn [snd].
      + apply (Hwr _ _ (withConfig serverless (withDefaults serverless options c0))).
        rewrite Hprep. apply (Hwr _ _ _ Hs).
      + rewrite Hprep. apply (Hwr _ _ _ Hs). }
  destruct keep; [apply Hrun; now left|].
  destruct (path (outputOf serverless (withDefaults serverless options c0))) as [p|] eqn:Hp;
    [apply Hrun; right; now exists p|].
  rewrite configure_refused by exact Hp. cbn [snd].
  assert (Href : lib (refused serverless options c0 w) =
                 lib (written serverless (withDefaults serverless options c0) w)).
  { unfold refused. cbv zeta. destruct (verbose options); reflexivity. }
  rewrite Href, (Hwr _ _ _ Hs).
  destruct (packageIndividually (service serverless)); reflexivity.
Qed.

Lemma lib_after_stages env serverless options keep w entries w1 :
  resolveEntries env serverless options (started serverless w) = (Ok entries, w1) ->
  libOptions (lib (snd (validate env serverless options keep w))) = Some options
  /\ libEntries (lib (snd (validate env serverless options keep w))) = Some entries
  /\ (forall file,
        configSource serverless = ConfigFile file ->
        libServerless (lib (snd (validate env serverless options keep w))) = Some serverless).
Proof.
  intros Hent. rewrite validate_stages, Hent.
  pose proof (keepsLib_loadConfig env serverless (exposed serverless options entries w1))
    as Hload.
  destruct (loadConfig _ _ _) as [[[c|err]|e] w2]; simpl in Hload;
    try (cbn [snd]; rewrite Hload; repeat split; reflexivity).
  split; [|split].
  - rewrite (leaves_configure (fun w => libOptions (lib w))); try (intros; reflexivity).
    + now rewrite Hload.
    + intros c' w'. apply (proj1 (lib_written serverless c' w')).
  - rewrite (leaves_configure (fun w => libEntries (lib w))); try (intros; reflexivity).
    + now rewrite Hload.
    + intros c' w'. apply (proj1 (proj2 (lib_written serverless c' w'))).
  - intros file Hsrc.
    rewrite (leaves_configure (fun w => libServerless (lib w))); try (intros; reflexivity).
    + now rewrite Hload.
    + intros c' w'.
      now rewrite (proj1 (proj2 (proj2 (lib_written serverless c' w'))) file Hsrc).
Qed.

(** C7, as the code has it.  The service, the options and the complete
    entries are written to [lib] once the entries are resolved, before the
    configuration is loaded.  When the configuration file is missing
    ([validate] throws), when it fails to load or when an explicit entry
    conflicts with individual packaging (the promise is rejected, provided
    that the removal of the output directory has not thrown before: the
    directory is kept or the output has a path), the failure is signalled and
    [lib] holds what it holds after a pass that succeeds: the options, the
    complete entries and the service.  The service in [lib] is the service
    object of the plugin itself, so that a configuration given in the service
    is read through [lib] as [validate] has written it: with its defaults,
    and after a pass for the whole service with the segment [service] in
    its output path.  Only a failure of the entry resolution itself leaves
    [lib] as it was. *)
Theorem lib_is_written_before_the_faults env serverless options keep w :
  (forall entries w1,
     resolveEntries env serverless options (started serverless w) = (Ok entries, w1) ->
     libOptions (lib (snd (validate env serverless options keep w))) = Some options
     /\ libEntries (lib (snd (validate env serverless options keep w))) = Some entries
     /\ (forall file,
           configSource serverless = ConfigFile file ->
           lib (snd (validate env serverless options keep w)) =
           {| libServerless := Some serverless; libOptions := Some options;
              libEntries := Some entries |})
     /\ (forall c0,
           configSource serverless = ConfigInline c0 ->
           lib (snd (validate env serverless options keep w)) =
           {| libServerless :=
                Some (withConfig serverless
                        (if packageIndividually (service serverless)
                         then withDefaults serverless options c0
                         else match path (outputOf serverless
                                            (withDefaults serverless options c0)) with
                              | Some p =>
                                  setOutput
                                    (setPath (Path.join [p; "service"])
                                       (outputOf serverless
                                          (withDefaults serverless options c0)))
                                    (withDefaults serverless options c0)
                              | None => withDefaults serverless options c0
                              end));
              libOptions := Some options;
              libEntries := Some entries |})
     /\ (forall file,
           configSource serverless = ConfigFile file ->
           fileExistsSync env (Path.join [servicePath serverless; file]) = false ->
           fst (validate env serverless options keep w) =
           Throw (ServerlessError
                    ("The webpack plugin could not find the configuration file at: "
                     ++ Path.join [servicePath serverless; file])))
     /\ (forall file err,
           configSource serverless = ConfigFile file ->
           fileExistsSync env (Path.join [servicePath serverless; file]) = true ->
           requireConfig env (Path.join [servicePath serverless; file])
             {| libServerless := Some serverless; libOptions := Some options;
                libEntries := Some entries |} = inr err ->
           fst (validate env serverless options keep w) = Ok (Rejected (LoadError err)))
     /\ (forall c w2,
           loadConfig env serverless (exposed serverless options entries w1) = (Ok (inl c), w2) ->
           packageIndividually (service serverless) = true ->
           entryIsTruthy (entry c) = true ->
           (forall e, entry c = Some e -> isEqualEntries e entries = false) ->
           (keep = true
            \/ exists p, path (outputOf serverless (withDefaults serverless options c)) = Some p) ->
           fst (validate env serverless options keep w) = Ok (Rejected entryMustBeResolved)))
  /\ (forall e w1,
        resolveEntries env serverless options (started serverless w) = (Throw e, w1) ->
        validate env serverless options keep w = (Throw e, w1) /\ lib w1 = lib w).
Proof.
  split.
  - intros entries w1 Hent.
    destruct (lib_after_stages env serverless options keep w entries w1 Hent)
      as (Hopt & Hentries & Hfile).
    split; [exact Hopt|]. split; [exact Hentries|]. split; [|split; [|split; [|split]]].
    + intros file Hsrc. specialize (Hfile file Hsrc).
      destruct (lib (snd (validate env serverless options keep w))) as [s o e].
      simpl in *. now subst.
    + intros c0 Hsrc.
      assert (Hs : libServerless (lib (snd (validate env serverless options keep w))) =
                   Some (withConfig serverless
                           (if packageIndividually (service serverless)
                            then withDefaults serverless options c0
                            else match path (outputOf serverless
                                               (withDefaults serverless options c0)) with
                                 | Some p =>
                                     setOutput
                                       (setPath (Path.join [p; "service"])
                                          (outputOf serverless
                                             (withDefaults serverless options c0)))
                                       (withDefaults serverless options c0)
                                 | None => withDefaults serverless options c0
                                 end))).
      { rewrite validate_stages, Hent. unfold loadConfig. rewrite Hsrc.
        unfold ret. cbn [snd].
        apply (lib_of_configure env serverless options keep c0 entries
                 (exposed serverless options entries w1) serverless eq_refl c0 Hsrc). }
      destruct (lib (snd (validate env serverless options keep w))) as [s o e].
      simpl in *. now subst.
    + intros file Hsrc Hmiss. rewrite validate_stages, Hent.
      unfold loadConfig. rewrite Hsrc, Hmiss. reflexivity.
    + intros file err Hsrc Hfile' Hreq. rewrite validate_stages, Hent.
      unfold loadConfig. rewrite Hsrc, Hfile'. cbn [negb].
      change (lib (exposed serverless options entries w1))
        with {| libServerless := Some serverless; libOptions := Some options;
                libEntries := Some entries |}.
      rewrite Hreq. reflexivity.
    + intros c w2 Hload Hind Htruthy Hne Hrm. rewrite validate_stages, Hent, Hload.
      rewrite configure_run by exact Hrm.
      assert (Hconf : entryConflicts (withDefaults serverless options c) entries = true).
      { unfold entryConflicts. rewrite entry_withDefaults, Htruthy.
        destruct (entry c) as [e|]; [now rewrite (Hne e eq_refl)|reflexivity]. }
      rewrite Hind, Hconf. reflexivity.
  - intros e w1 Hent. rewrite validate_stages, Hent. split; [reflexivity|].
    pose proof (keepsLib_resolveEntries env serverless options (started serverless w)) as H.
    rewrite Hent in H. exact H.
Qed.

Lemma lib_is_written_before_the_faults_witness :
  lib (snd (validate Fixture.missingFile
              (Fixture.serviceOf Fixture.testFunctionsConfig None false)
              Fixture.noOptions false Fixture.fresh)) =
  {| libServerless := Some (Fixture.serviceOf Fixture.testFunctionsConfig None false);
     libOptions := Some Fixture.noOptions;
     libEntries := Some Fixture.expectedLibEntries |}
  /\ fst (validate Fixture.missingFile
            (Fixture.serviceOf Fixture.testFunctionsConfig None false)
            Fixture.noOptions false Fixture.fresh) =
     Throw (ServerlessError
              "The webpack plugin could not find the configuration file at: testpath/webpack.config.js").
Proof.
  destruct (proj1 (lib_is_written_before_the_faults Fixture.missingFile
                     (Fixture.serviceOf Fixture.testFunctionsConfig None false)
                     Fixture.noOptions false Fixture.fresh)
              Fixture.expectedLibEntries
              (snd (resolveEntries Fixture.missingFile
                      (Fixture.serviceOf Fixture.testFunctionsConfig None false)
                      Fixture.noOptions
                      (started (Fixture.serviceOf Fixture.testFunctionsConfig None false)
                         Fixture.fresh))))
    as (_ & _ & Hlib & _ & Hmissing & _).
  - vm_compute. reflexivity.
  - split; [exact (Hlib "webpack.config.js" eq_refl)|].
    exact (Hmissing "webpack.config.js" eq_refl eq_refl).
Defined.

(** The configuration file is missing, [validate] throws, and [lib], empty
    before, holds the service, the options and the four entries: the shared
    state is populated although the pass has failed. *)
Lemma lib_is_populated_when_the_file_is_missing :
  fst (validate Fixture.missingFile
         (Fixture.serviceOf Fixture.testFunctionsConfig None false)
         Fixture.noOptions false Fixture.fresh) =
  Throw (ServerlessError
           "The webpack plugin could not find the configuration file at: testpath/webpack.config.js")
  /\ lib Fixture.fresh =
     {| libServerless := None; libOptions := None; libEntries := None |}
  /\ lib (snd (validate Fixture.missingFile
                 (Fixture.serviceOf Fixture.testFunctionsConfig None false)
                 Fixture.noOptions false Fixture.fresh)) =
     {| libServerless := Some (Fixture.serviceOf Fixture.testFunctionsConfig None false);
        libOptions := Some Fixture.noOptions;
        libEntries := Some Fixture.expectedLibEntries |}.
Proof. repeat split; vm_compute; reflexivity. Qed.

(** ** Paths that normalization leaves alone *)

Lemma takeWhile_app_cut {A} (p : A -> bool) (l : list A) (x : A) (m : list A) :
  p x = false -> takeWhile p (l ++ x :: m) = takeWhile p l.
Proof.
  intros Hx. induction l as [|y l IH]; simpl; [now rewrite Hx|].
  destruct (p y); [now rewrite IH|reflexivity].
Qed.

Lemma splitRev_nonempty (cur l : list ascii) : Path.splitRev cur l <> [].
Proof.
  revert cur. induction l as [|c r IH]; intros cur; simpl; [discriminate|].
  destruct (Path.isSlash c); [discriminate|apply IH].
Qed.

Lemma joinSegs_cons (s : string) (l : list string) :
  l <> [] -> Path.joinSegs (s :: l) = s ++ "/" ++ Path.joinSegs l.
Proof. destruct l; [congruence|reflexivity]. Qed.

(** Joining the segments of a path gives the path back. *)
Lemma joinSegs_splitRev (cur l : list ascii) :
  Path.joinSegs (Path.splitRev cur l) = Js.str (rev cur ++ l).
Proof.
  revert cur. induction l as [|c r IH]; intros cur; simpl.
  - now rewrite app_nil_r.
  - destruct (Path.isSlash c) eqn:Hc.
    + rewrite joinSegs_cons by apply splitRev_nonempty.
      rewrite IH. simpl rev. simpl app.
      apply Ascii.eqb_eq in Hc. subst c.
      rewrite str_app. reflexivity.
    + rewrite IH. simpl rev. rewrite <- app_assoc. reflexivity.
Qed.

Lemma joinSegs_segments (b : string) : Path.joinSegs (Path.segments b) = b.
Proof. unfold Path.segments. rewrite joinSegs_splitRev. simpl. apply str_chars. Qed.

Lemma normalizeSegs_app (allow : bool) (acc l1 l2 : list string) :
  Path.normalizeSegs allow acc (l1 ++ l2) =
  Path.normalizeSegs allow (rev (Path.normalizeSegs allow acc l1)) l2.
Proof.
  revert acc. induction l1 as [|s l1 IH]; intros acc; simpl.
  - now rewrite rev_involutive.
  - destruct (_ || _); [apply IH|].
    destruct (s =? "..")%string; [|apply IH].
    destruct acc as [|top below]; [apply IH|].
    destruct (top =? "..")%string; apply IH.
Qed.

Lemma properSegment_spec (s : string) :
  properSegment s = true ->
  (s =? "")%string = false /\ (s =? ".")%string = false /\ (s =? "..")%string = false.
Proof.
  unfold properSegment. intros H.
  apply andb_true_iff in H as [H H3]. apply andb_true_iff in H as [H1 H2].
  repeat split; now apply negb_true_iff.
Qed.

Lemma normalizeSegs_proper (allow : bool) (acc l : list string) :
  forallb properSegment l = true ->
  Path.normalizeSegs allow acc l = (rev acc ++ l)%list.
Proof.
  revert acc. induction l as [|s l IH]; intros acc H; simpl.
  - now rewrite app_nil_r.
  - simpl in H. apply andb_true_iff in H as [Hs Hl].
    destruct (properSegment_spec s Hs) as (-> & -> & ->). simpl.
    rewrite IH by assumption. simpl. now rewrite <- app_assoc.
Qed.

Lemma stripCommon_prefix (c s : list string) :
  Path.stripCommon c (c ++ s) = ([], s).
Proof.
  induction c as [|x c IH]; simpl.
  - destruct s; reflexivity.
  - now rewrite String.eqb_refl.
Qed.

Lemma segments_first_of_absolute (b : string) :
  Path.isAbsolute b = true -> exists r, Path.segments b = "" :: r.
Proof.
  destruct b as [|c b]; [discriminate|]. simpl. intros Hc.
  unfold Path.segments. simpl. unfold Js.chars. simpl. rewrite Hc. eauto.
Qed.

Lemma properPath_relative (b : string) :
  properPath b = true -> Path.isAbsolute b = false.
Proof.
  intros H. destruct (Path.isAbsolute b) eqn:Ha; [|reflexivity].
  destruct (segments_first_of_absolute b Ha) as [r Hr].
  unfold properPath in H. rewrite Hr in H. discriminate H.
Qed.

Lemma resolveSegs_cwd (cwd : string) :
  Path.resolveSegs cwd "" = Path.normalizeSegs false [] (Path.segments cwd).
Proof.
  unfold Path.resolveSegs. simpl Path.isAbsolute. cbv iota.
  rewrite normalizeSegs_app.
  change (Path.normalizeSegs false ?acc (Path.segments "")) with (rev acc).
  apply rev_involutive.
Qed.

Lemma resolveSegs_proper (cwd b : string) :
  properPath b = true ->
  Path.resolveSegs cwd b =
  (Path.normalizeSegs false [] (Path.segments cwd) ++ Path.segments b)%list.
Proof.
  intros H. unfold Path.resolveSegs. rewrite (properPath_relative b H).
  rewrite normalizeSegs_app, normalizeSegs_proper by exact H.
  now rewrite rev_involutive.
Qed.

(** A relative path of proper segments is its own relative path. *)
Lemma relativeFromCwd_proper (cwd b : string) :
  properPath b = true -> Path.relativeFromCwd cwd b = b.
Proof.
  intros H. unfold Path.relativeFromCwd.
  rewrite resolveSegs_cwd, resolveSegs_proper, stripCommon_prefix by exact H.
  simpl. apply joinSegs_segments.
Qed.

Lemma segments_dot_slash (x : string) :
  Path.segments ("./" ++ x) = "." :: Path.segments x.
Proof. reflexivity. Qed.

Lemma resolveSegs_dot_slash (cwd x : string) :
  properPath x = true ->
  Path.resolveSegs cwd ("./" ++ x) =
  (Path.normalizeSegs false [] (Path.segments cwd) ++ Path.segments x)%list.
Proof.
  intros H. unfold Path.resolveSegs.
  change (Path.isAbsolute ("./" ++ x)) with false. cbv iota.
  rewrite segments_dot_slash, normalizeSegs_app.
  change (Path.normalizeSegs false ?acc ("." :: ?l)) with (Path.normalizeSegs false acc l).
  rewrite (normalizeSegs_proper false _ (Path.segments x) H).
  now rewrite rev_involutive.
Qed.

(** So is the path with [./] before it. *)
Lemma relativeFromCwd_dot_slash (cwd x : string) :
  properPath x = true -> Path.relativeFromCwd cwd ("./" ++ x) = x.
Proof.
  intros H. unfold Path.relativeFromCwd.
  rewrite resolveSegs_cwd, (resolveSegs_dot_slash cwd x H), stripCommon_prefix.
  simpl. apply joinSegs_segments.
Qed.

Lemma splitRev_no_slash (cur t : list ascii) :
  forallb (fun c => negb (Path.isSlash c)) t = true ->
  Path.splitRev cur t = [Js.str (rev cur ++ t)].
Proof.
  revert cur. induction t as [|c t IH]; intros cur H; simpl.
  - now rewrite app_nil_r.
  - simpl in H. apply andb_true_iff in H as [Hc Ht].
    apply negb_true_iff in Hc. rewrite Hc, IH by assumption.
    simpl rev. now rewrite <- app_assoc.
Qed.

Lemma properSegment_append (s t : string) :
  properSegment s = true -> t <> "" -> properSegment (s ++ t) = true.
Proof.
  intros Hs Ht. destruct (properSegment_spec s Hs) as (H0 & H1 & H2).
  destruct s as [|c s]; [discriminate|].
  destruct t as [|d t]; [congruence|].
  unfold properSegment.
  destruct s as [|c' s].
  - (* one character, which is not a dot: two characters or more follow *)
    simpl. destruct (Ascii.eqb_spec c ".") as [->|Hc]; [discriminate|].
    destruct t; reflexivity.
  - simpl. destruct (Ascii.eqb c "."); [|reflexivity].
    destruct (Ascii.eqb c' "."); [|reflexivity].
    destruct s; reflexivity.
Qed.

Lemma str_nonempty (t : list ascii) : t <> [] -> Js.str t <> "".
Proof. destruct t; [congruence|discriminate]. Qed.

Lemma proper_splitRev_append (l cur t : list ascii) :
  t <> [] ->
  forallb (fun c => negb (Path.isSlash c)) t = true ->
  forallb properSegment (Path.splitRev cur l) = true ->
  forallb properSegment (Path.splitRev cur (l ++ t)) = true.
Proof.
  intros Hne Ht. revert cur. induction l as [|c l IH]; intros cur H.
  - simpl in *. rewrite splitRev_no_slash, str_app by exact Ht. simpl.
    rewrite andb_true_r in *. apply properSegment_append; [assumption|].
    now apply str_nonempty.
  - simpl in *. destruct (Path.isSlash c).
    + simpl in *. apply andb_true_iff in H as [H1 H2]. rewrite H1. now apply IH.
    + now apply IH.
Qed.

(** A proper path stays one when an extension is put after it. *)
Lemma properPath_append (b : string) (t : list ascii) :
  t <> [] ->
  forallb (fun c => negb (Path.isSlash c)) t = true ->
  properPath b = true -> properPath (b ++ Js.str t) = true.
Proof.
  intros Hne Ht Hb. unfold properPath, Path.segments in *.
  rewrite chars_app, chars_str. now apply proper_splitRev_append.
Qed.

Lemma last_splitRev (l cur : list ascii) :
  forallb (fun c => negb (Path.isSlash c)) cur = true ->
  last (Path.splitRev cur l) "" =
  Js.str (rev (takeWhile (fun c => negb (Path.isSlash c)) (rev l ++ cur))).
Proof.
  revert cur. induction l as [|c l IH]; intros cur Hcur.
  - simpl. now rewrite takeWhile_all.
  - simpl Path.splitRev. destruct (Path.isSlash c) eqn:Hc.
    + assert (Hl : last (Js.str (rev cur) :: Path.splitRev [] l) "" =
                   last (Path.splitRev [] l) "").
      { pose proof (splitRev_nonempty [] l). destruct (Path.splitRev [] l); [congruence|reflexivity]. }
      rewrite Hl, IH by reflexivity. rewrite app_nil_r.
      simpl rev. rewrite <- app_assoc. simpl app.
      rewrite takeWhile_app_cut; [reflexivity|]. now rewrite Hc.
    + rewrite IH.
      * simpl rev. now rewrite <- app_assoc.
      * simpl. now rewrite Hc.
Qed.

Lemma forallb_last {A} (p : A -> bool) (l : list A) (d : A) :
  l <> [] -> forallb p l = true -> p (last l d) = true.
Proof.
  induction l as [|x l IH]; [congruence|]. intros _ H.
  simpl in H. apply andb_true_iff in H as [Hx Hl].
  destruct l as [|y l]; [exact Hx|]. apply IH; [discriminate|exact Hl].
Qed.

(** A proper path names a file, and its last segment is not a lone dot. *)
Lemma properPath_names (b : string) :
  properPath b = true -> namesFile b = true /\ lastNameRev b <> [Path.dot].
Proof.
  intros H. unfold properPath, Path.segments in H.
  apply (forallb_last _ _ "") in H; [|apply splitRev_nonempty].
  rewrite last_splitRev in H by reflexivity. rewrite app_nil_r in H.
  fold (lastNameRev b) in H. split.
  - unfold namesFile. unfold lastNameRev in H.
    destruct (rev (Js.chars b)) as [|c r]; [discriminate H|].
    simpl in H. destruct (negb (Path.isSlash c)); [reflexivity|discriminate H].
  - intros E. rewrite E in H. discriminate H.
Qed.

Lemma forallb_takeWhile_self {A} (p : A -> bool) (l : list A) :
  forallb p (takeWhile p l) = true.
Proof.
  induction l as [|x l IH]; simpl; [reflexivity|].
  destruct (p x) eqn:Hx; simpl; [now rewrite Hx|reflexivity].
Qed.

Lemma forallb_weaken {A} (p q : A -> bool) (l : list A) :
  (forall x, p x = true -> q x = true) -> forallb p l = true -> forallb q l = true.
Proof.
  intros Hpq. rewrite !forallb_forall. auto.
Qed.

(** An extension has no separator, and only its first character is a dot. *)
Lemma extname_shape (p : string) :
  Path.extname p = ""
  \/ exists t, Path.extname p = Js.str (Path.dot :: t)
               /\ forallb (fun c => negb (Path.isDot c) && negb (Path.isSlash c)) t = true.
Proof.
  unfold Path.extname.
  assert (Hns : forallb (fun c => negb (Path.isSlash c)) (Path.lastPartRev (Js.chars p)) = true)
    by apply forallb_takeWhile_self.
  set (rc := Path.lastPartRev (Js.chars p)) in *. clearbody rc.
  unfold Path.extnameRev.
  assert (Hext : forallb (fun c => negb (Path.isDot c) && negb (Path.isSlash c))
                   (rev (takeWhile (fun c => negb (Path.isDot c)) rc)) = true).
  { rewrite forallb_rev. rewrite forallb_forall. intros x Hx.
    assert (Hd : negb (Path.isDot x) = true).
    { pose proof (forallb_takeWhile_self (fun c => negb (Path.isDot c)) rc) as Hd.
      rewrite forallb_forall in Hd. now apply Hd. }
    assert (Hs : negb (Path.isSlash x) = true).
    { pose proof (forallb_takeWhile (fun c => negb (Path.isSlash c))
                    (fun c => negb (Path.isDot c)) rc Hns) as Hs.
      rewrite forallb_forall in Hs. now apply Hs. }
    now rewrite Hd, Hs. }
  destruct (dropWhile _ rc) as [|d rstem]; [now left|].
  destruct rstem as [|c [|c' r]].
  - now left.
  - destruct (takeWhile _ rc) as [|x rext] eqn:E.
    + destruct (Path.isDot c); [now left|]. right. exists []. split; reflexivity.
    + right. eexists. split; [reflexivity|exact Hext].
  - right. destruct (takeWhile _ rc) eqn:E; eexists; (split; [reflexivity|exact Hext]).
Qed.

(** *** The file of an entry *)

Lemma dropLast_app {A} (l t : list A) : dropLast (List.length t) (l ++ t) = l.
Proof.
  unfold dropLast. rewrite rev_app_distr.
  rewrite <- (length_rev t), skipn_app, Nat.sub_diag, skipn_all. simpl.
  apply rev_involutive.
Qed.

Lemma endsWith_app (l t : list ascii) : endsWith t (l ++ t) = true.
Proof.
  unfold endsWith. rewrite rev_app_distr.
  rewrite <- (length_rev t), firstn_app, Nat.sub_diag, firstn_all. simpl.
  rewrite app_nil_r. apply String.eqb_refl.
Qed.

(** The extension is stripped from a path that ends with a literal
    extension. *)
Lemma stripExtension_literal env (b : string) (t : list ascii) :
  Path.extname (b ++ Js.str (Path.dot :: t)) = Js.str (Path.dot :: t) ->
  existsb isSyntaxCharacter t = false ->
  stripExtension env (b ++ Js.str (Path.dot :: t)) = Ok b.
Proof.
  intros Hext Hlit. unfold stripExtension. rewrite Hext, chars_str.
  change (Path.isDot Path.dot) with true. rewrite Hlit. cbn [andb negb].
  rewrite chars_app, chars_str.
  change (Js.chars b ++ Path.dot :: t)%list with (Js.chars b ++ [Path.dot] ++ t)%list.
  rewrite app_assoc, dropLast_app, endsWith_app.
  rewrite rev_app_distr. simpl rev. simpl app.
  change (Js.isLineTerminator Path.dot) with false. cbn [andb negb].
  rewrite <- app_assoc.
  change ([Path.dot] ++ t)%list with (Path.dot :: t).
  rewrite dropLast_app. now rewrite str_chars.
Qed.

(** For a handler file [b] that is a proper path and a literal extension [e]
    of the resolver, the entry [./b.e] has the file [b]: the very handler
    file of the function, as [allEntryFunctions] has it. *)
Lemma entry_file_of_proper env (b p : string) :
  properPath b = true ->
  literalExtension (Path.extname p) = true ->
  stripExtension env
    (Path.relativeFromCwd (processCwd env) ("./" ++ b ++ Path.extname p)) = Ok b
  /\ Path.relativeFromCwd (processCwd env) b = b.
Proof.
  intros Hb Hlit. split; [|now apply relativeFromCwd_proper].
  destruct (extname_shape p) as [E|(t & E & Ht)].
  { rewrite E in Hlit. discriminate Hlit. }
  rewrite E in *.
  assert (Hns : forallb (fun c => negb (Path.isSlash c)) (Path.dot :: t) = true).
  { simpl. revert Ht. apply forallb_weaken.
    intros x Hx. now apply andb_true_iff in Hx. }
  rewrite relativeFromCwd_dot_slash
    by (apply properPath_append; [discriminate|exact Hns|exact Hb]).
  destruct (properPath_names b Hb) as [Hname Hlast].
  apply stripExtension_literal.
  - apply extname_append; [exact Hname|exact Ht|now right].
  - unfold literalExtension in Hlit. rewrite chars_str in Hlit.
    apply andb_true_iff in Hlit as [_ Hlit]. now apply negb_true_iff.
Qed.

(** ** Objects *)

Lemma has_false_iff {V} (k : string) (o : Obj.t V) :
  Obj.has k o = false <-> ~ In k (Obj.keys o).
Proof.
  unfold Obj.has. induction o as [|[k' v] o IH]; simpl.
  - tauto.
  - destruct (String.eqb_spec k k') as [->|Hne].
    + split; [discriminate|]. intros H. exfalso. apply H. now left.
    + rewrite IH. split.
      * intros H [E|Hin]; [congruence|contradiction].
      * intros H Hin. apply H. now right.
Qed.

(** A new property that is not an array index comes last. *)
Lemma set_new {V} (k : string) (v : V) (o : Obj.t V) :
  ~ In k (Obj.keys o) -> Js.arrayIndex k = None ->
  Obj.set k v o = (o ++ [(k, v)])%list.
Proof.
  intros Hk Hi. unfold Obj.set. apply has_false_iff in Hk. now rewrite Hk, Hi.
Qed.

Lemma get_of_NoDup {V} (k : string) (v : V) (o : Obj.t V) :
  NoDup (Obj.keys o) -> In (k, v) o -> Obj.get k o = Some v.
Proof.
  induction o as [|[k' v'] o IH]; simpl; [contradiction|].
  intros Hnd [E|Hin].
  - injection E as -> ->. now rewrite String.eqb_refl.
  - inversion Hnd as [|? ? Hk' Hnd']; subst.
    destruct (String.eqb_spec k k') as [->|Hne]; [|now apply IH].
    exfalso. apply Hk'. unfold Obj.keys. apply in_map_iff. now exists (k', v).
Qed.

(** ** Functions of the ordinary kind *)

Lemma wellResolved_spec env serverless nf :
  wellResolved env serverless nf = true ->
  Js.truthy (fst nf) = true
  /\ getHandlerFile (handler (snd nf)) = Some (basePath (snd nf))
  /\ properPath (basePath (snd nf)) = true
  /\ Js.arrayIndex (basePath (snd nf)) = None
  /\ exists winner,
       Lodash.first (sortedFiles (globbySync env (basePath (snd nf) ++ ".*")
                                    (globCwd env serverless))) = Some winner
       /\ extensionFor env serverless (snd nf) = Path.extname winner
       /\ literalExtension (Path.extname winner) = true.
Proof.
  unfold wellResolved, extensionFor, basePath. intros H.
  apply andb_true_iff in H as [Hn H]. split; [exact Hn|].
  destruct (getHandlerFile (handler (snd nf))) as [b|]; [|discriminate H].
  apply andb_true_iff in H as [H He]. apply andb_true_iff in H as [Hp Hi].
  simpl Js.show_opt. split; [reflexivity|]. split; [exact Hp|]. split.
  - destruct (Js.arrayIndex b); [discriminate Hi|reflexivity].
  - unfold extensionOf in *.
    destruct (Lodash.first (sortedFiles _)) as [winner|]; [|discriminate He].
    exists winner. simpl in *. auto.
Qed.

Lemma properPath_truthy (b : string) : properPath b = true -> Js.truthy b = true.
Proof. destruct b; [discriminate|reflexivity]. Qed.

(** The entry of a function of the ordinary kind is resolved and put into
    the entries. *)
Lemma resolveEntry_ordinary env serverless entries nf w :
  Obj.get (fst nf) (functions (service serverless)) = Some (snd nf) ->
  wellResolved env serverless nf = true ->
  exists w',
    resolveEntry env serverless entries (fst nf) w =
    (Ok (Obj.set (fst (entryFor env serverless (snd nf)))
                 (snd (entryFor env serverless (snd nf))) entries), w').
Proof.
  intros Hget Hwr.
  destruct (wellResolved_spec env serverless nf Hwr)
    as (_ & Hb & Hp & _ & winner & Hw & He & _).
  unfold resolveEntry, bind.
  rewrite (getFunction_found serverless (fst nf) (snd nf) w Hget).
  unfold getEntryForFunction. cbv zeta. rewrite Hb.
  cbn [Js.truthy_opt Js.show_opt]. rewrite (properPath_truthy _ Hp). cbn [negb].
  unfold bind.
  destruct (globbySync env (basePath (snd nf) ++ ".*") (globCwd env serverless))
    as [|f fs] eqn:Hg; [discriminate Hw|].
  destruct (getEntryExtension_found env serverless (basePath (snd nf)) w f fs Hg)
    as (winner' & Hw' & Hrun).
  rewrite Hw in Hw'. injection Hw' as <-.
  rewrite Hrun. unfold ret. eexists.
  unfold entryFor. rewrite He. reflexivity.
Qed.

(** The entries of functions of the ordinary kind with distinct handler
    files are the entries of the functions, in the order of the functions. *)
Lemma resolveEntries_from env serverless (todo : list (string * ServerlessFunction)) :
  forall done w,
    (forall nf, In nf todo ->
                Obj.get (fst nf) (functions (service serverless)) = Some (snd nf)) ->
    forallb (wellResolved env serverless) todo = true ->
    NoDup (map (fun nf => basePath (snd nf)) (done ++ todo)) ->
    exists w',
      forEach (map fst todo) (resolveEntry env serverless)
        (map (fun nf => entryFor env serverless (snd nf)) done) w =
      (Ok (map (fun nf => entryFor env serverless (snd nf)) (done ++ todo)), w').
Proof.
  induction todo as [|nf todo IH]; intros done w Hget Hwr Hnd.
  - simpl. rewrite app_nil_r. eexists. reflexivity.
  - simpl in Hwr. apply andb_true_iff in Hwr as [Hnf Hwr].
    simpl map. simpl forEach. unfold bind at 1.
    destruct (resolveEntry_ordinary env serverless
                (map (fun nf => entryFor env serverless (snd nf)) done) nf w)
      as (w1 & Hrun); [apply Hget; now left|exact Hnf|].
    rewrite Hrun.
    destruct (wellResolved_spec env serverless nf Hnf) as (_ & _ & _ & Hi & _).
    rewrite set_new; [| |exact Hi].
    + change [(fst (entryFor env serverless (snd nf)), snd (entryFor env serverless (snd nf)))]
        with (map (fun nf => entryFor env serverless (snd nf)) [nf]).
      rewrite <- map_app.
      destruct (IH (done ++ [nf])%list w1) as (w' & Hrest).
      * intros nf' Hin. apply Hget. now right.
      * exact Hwr.
      * now rewrite <- app_assoc.
      * rewrite Hrest, <- app_assoc. eauto.
    + unfold Obj.keys. rewrite map_map. simpl.
      rewrite map_app in Hnd. apply NoDup_remove_2 in Hnd.
      intros Hin. apply Hnd. apply in_or_app. now left.
Qed.

Lemma functions_get serverless nf :
  NoDup (Obj.keys (functions (service serverless))) ->
  In nf (functions (service serverless)) ->
  Obj.get (fst nf) (functions (service serverless)) = Some (snd nf).
Proof. intros Hnd Hin. apply get_of_NoDup; [exact Hnd|]. now destruct nf. Qed.

Lemma resolveEntries_ordinary env serverless options w :
  Js.truthy_opt (function options) = false ->
  NoDup (Obj.keys (functions (service serverless))) ->
  forallb (wellResolved env serverless) (functions (service serverless)) = true ->
  NoDup (map (fun nf => basePath (snd nf)) (functions (service serverless))) ->
  exists w',
    resolveEntries env serverless options w =
    (Ok (map (fun nf => entryFor env serverless (snd nf)) (functions (service serverless))),
     w').
Proof.
  intros Hall Hnd Hwr Hbase. unfold resolveEntries. rewrite Hall.
  apply (resolveEntries_from env serverless (functions (service serverless)) [] w).
  - intros nf. now apply functions_get.
  - exact Hwr.
  - exact Hbase.
Qed.

(** ** The fan-out for functions of the ordinary kind *)

Lemma mapM_map_ret {A B C} (f : B -> M C) (h : A -> B) (g : A -> C)
      (l : list A) (w : World) :
  (forall a, In a l -> f (h a) w = (Ok (g a), w)) ->
  mapM f (map h l) w = (Ok (map g l), w).
Proof.
  induction l as [|a l IH]; intros H; simpl; [reflexivity|].
  unfold bind. rewrite (H a (or_introl eq_refl)).
  rewrite IH by (intros a' Ha'; apply H; now right). reflexivity.
Qed.

Lemma allEntryFunctions_ordinary env serverless w :
  NoDup (Obj.keys (functions (service serverless))) ->
  forallb (wellResolved env serverless) (functions (service serverless)) = true ->
  allEntryFunctions env serverless w =
  (Ok (map unboundFor (functions (service serverless))), w).
Proof.
  intros Hnd Hwr. unfold allEntryFunctions, getAllFunctions, Obj.keys.
  set (step := fun funcName : string => _).
  assert (H : forall l,
             (forall nf, In nf l -> In nf (functions (service serverless))) ->
             mapM step (map fst l) w = (Ok (map unboundFor l), w)).
  { induction l as [|nf l IH]; intros Hl; simpl; [reflexivity|].
    assert (Hin : In nf (functions (service serverless))) by (apply Hl; now left).
    rewrite forallb_forall in Hwr.
    destruct (wellResolved_spec env serverless nf (Hwr nf Hin)) as (_ & Hb & Hp & _).
    unfold bind. unfold step at 1. unfold bind.
    rewrite (getFunction_found serverless (fst nf) (snd nf) w
               (functions_get serverless nf Hnd Hin)).
    rewrite Hb. unfold ret.
    rewrite IH by (intros nf' Hin'; apply Hl; now right).
    unfold unboundFor at 1. now rewrite (relativeFromCwd_proper _ _ Hp). }
  apply H. auto.
Qed.

Lemma matchingFrom_none (i : nat) (file : string) (l : list EntryFunction) :
  (forall b, In b l -> handlerFile b <> Some file) ->
  matchingFrom i file l = [].
Proof.
  revert i. induction l as [|b l IH]; intros i H; simpl; [reflexivity|].
  assert (Hb : handlerFile b <> Some file) by (apply H; now left).
  assert (Hl : matchingFrom (S i) file l = []) by (apply IH; intros b' Hb'; apply H; now right).
  destruct (handlerFile b) as [h|]; [|exact Hl].
  destruct (String.eqb_spec h file) as [->|_]; [congruence|exact Hl].
Qed.

(** The one element with the handler file [file] is the one match. *)
Lemma matchingFrom_one (i : nat) (file : string) (l1 l2 : list EntryFunction) (x : EntryFunction) :
  handlerFile x = Some file ->
  (forall b, In b l1 -> handlerFile b <> Some file) ->
  (forall b, In b l2 -> handlerFile b <> Some file) ->
  matchingFrom i file (l1 ++ x :: l2) = [i + List.length l1].
Proof.
  intros Hx. revert i. induction l1 as [|b l1 IH]; intros i H1 H2; simpl.
  - rewrite Hx, String.eqb_refl, matchingFrom_none by exact H2.
    now rewrite Nat.add_0_r.
  - assert (Hb : handlerFile b <> Some file) by (apply H1; now left).
    assert (Hl : matchingFrom (S i) file (l1 ++ x :: l2) = [i + S (List.length l1)]).
    { rewrite IH; [f_equal; lia| |exact H2]. intros b' Hb'. apply H1. now right. }
    destruct (handlerFile b) as [h|]; [|exact Hl].
    destruct (String.eqb_spec h file) as [->|_]; [congruence|exact Hl].
Qed.

Lemma assign_outside (e : EntryRef) (k s : nat) (l : list EntryFunction) :
  k < s ->
  map (fun ib : nat * EntryFunction =>
         if existsb (Nat.eqb (fst ib)) [k] then withEntryRef e (snd ib) else snd ib)
      (combine (seq s (List.length l)) l) = l.
Proof.
  revert s. induction l as [|b l IH]; intros s Hk; simpl; [reflexivity|].
  destruct (Nat.eqb_spec s k) as [->|_]; [lia|]. simpl.
  f_equal. apply IH. lia.
Qed.

Lemma assign_at (e : EntryRef) (s : nat) (l1 l2 : list EntryFunction) (x : EntryFunction) :
  map (fun ib : nat * EntryFunction =>
         if existsb (Nat.eqb (fst ib)) [s + List.length l1]
         then withEntryRef e (snd ib) else snd ib)
      (combine (seq s (List.length (l1 ++ x :: l2))) (l1 ++ x :: l2))
  = (l1 ++ withEntryRef e x :: l2)%list.
Proof.
  revert s. induction l1 as [|b l1 IH]; intros s; simpl.
  - rewrite Nat.add_0_r, Nat.eqb_refl. simpl. f_equal.
    apply assign_outside. lia.
  - destruct (Nat.eqb_spec s (s + S (List.length l1))) as [E|_]; [lia|]. simpl.
    f_equal. specialize (IH (S s)).
    replace (S s + List.length l1) with (s + S (List.length l1)) in IH by lia.
    exact IH.
Qed.

Lemma assignEntry_at (e : EntryRef) (l1 l2 : list EntryFunction) (x : EntryFunction) :
  assignEntry [List.length l1] e (l1 ++ x :: l2) = (l1 ++ withEntryRef e x :: l2)%list.
Proof. unfold assignEntry. apply (assign_at e 0). Qed.

Lemma basePath_distinct (done todo : list (string * ServerlessFunction))
      (x : string * ServerlessFunction) :
  NoDup (map (fun nf => basePath (snd nf)) (done ++ x :: todo)) ->
  forall y, In y (done ++ todo) -> basePath (snd y) <> basePath (snd x).
Proof.
  intros Hnd y Hy E. rewrite map_app in Hnd. simpl in Hnd.
  apply NoDup_remove_2 in Hnd. apply Hnd.
  rewrite <- map_app, <- E. apply in_map_iff. now exists y.
Qed.

(** The entry of a function is bound to the function it comes from, and to
    no other. *)
Lemma bindEntry_ordinary env serverless
      (done todo : list (string * ServerlessFunction)) x refs w :
  wellResolved env serverless x = true ->
  NoDup (map (fun nf => basePath (snd nf)) (done ++ x :: todo)) ->
  bindEntry env
    (map (bindingFor env serverless) done ++ unboundFor x :: map unboundFor todo, refs)%list
    (entryFor env serverless (snd x)) w =
  (Ok (map (bindingFor env serverless) done
         ++ bindingFor env serverless x :: map unboundFor todo,
       refs ++ [Shared (List.length done)])%list, w).
Proof.
  intros Hx Hnd.
  destruct (wellResolved_spec env serverless x Hx)
    as (_ & _ & Hp & _ & winner & _ & He & Hlit).
  unfold bindEntry, entryFor, bind, lift. rewrite He.
  rewrite (proj1 (entry_file_of_proper env (basePath (snd x)) winner Hp Hlit)).
  rewrite (matchingFrom_one 0 (basePath (snd x))
             (map (bindingFor env serverless) done) (map unboundFor todo) (unboundFor x)).
  - cbn [Nat.add]. rewrite <- (length_map (bindingFor env serverless) done) at 1.
    rewrite assignEntry_at. unfold ret. rewrite !length_map.
    do 3 f_equal.
    unfold bindingFor, withEntryRef, unboundFor, entryFor. simpl. now rewrite He.
  - reflexivity.
  - intros b Hb. apply in_map_iff in Hb as (y & <- & Hy). simpl.
    intros E. injection E as E.
    apply (basePath_distinct done todo x Hnd y); [apply in_or_app; now left|exact E].
  - intros b Hb. apply in_map_iff in Hb as (y & <- & Hy). simpl.
    intros E. injection E as E.
    apply (basePath_distinct done todo x Hnd y); [apply in_or_app; now right|exact E].
Qed.

Lemma bindEntries_from env serverless (todo : list (string * ServerlessFunction)) :
  forall done refs w,
    forallb (wellResolved env serverless) todo = true ->
    NoDup (map (fun nf => basePath (snd nf)) (done ++ todo)) ->
    forEach (map (fun nf => entryFor env serverless (snd nf)) todo) (bindEntry env)
      (map (bindingFor env serverless) done ++ map unboundFor todo, refs)%list w =
    (Ok (map (bindingFor env serverless) (done ++ todo),
         (refs ++ map Shared (seq (List.length done) (List.length todo)))%list), w).
Proof.
  induction todo as [|x todo IH]; intros done refs w Hwr Hnd.
  - simpl. now rewrite !app_nil_r.
  - simpl in Hwr. apply andb_true_iff in Hwr as [Hx Hwr].
    cbn [map forEach]. unfold bind at 1.
    rewrite (bindEntry_ordinary env serverless done todo x refs w Hx Hnd).
    replace (map (bindingFor env serverless) done
             ++ bindingFor env serverless x :: map unboundFor todo)%list
      with (map (bindingFor env serverless) (done ++ [x]) ++ map unboundFor todo)%list
      by (rewrite map_app, <- app_assoc; reflexivity).
    rewrite IH.
    + rewrite <- !app_assoc, length_app. simpl.
      rewrite Nat.add_1_r. reflexivity.
    + exact Hwr.
    + now rewrite <- app_assoc.
Qed.

Lemma map_nth_from {A} (d : A) (l pre : list A) :
  map (fun i => nth i (pre ++ l) d) (seq (List.length pre) (List.length l)) = l.
Proof.
  revert pre. induction l as [|x l IH]; intros pre; simpl; [reflexivity|].
  rewrite nth_middle. f_equal.
  specialize (IH (pre ++ [x])%list).
  rewrite <- app_assoc, length_app, Nat.add_1_r in IH. exact IH.
Qed.

Lemma deref_all (all : list EntryFunction) :
  map (deref all) (map Shared (seq 0 (List.length all))) = all.
Proof. rewrite map_map. apply (map_nth_from _ all []). Qed.

Lemma configFor_ordinary env serverless c p nf :
  wellResolved env serverless nf = true ->
  path (outputOf serverless c) = Some p ->
  configFor serverless c (bindingFor env serverless nf) =
  Ok (configOf env serverless c p nf).
Proof.
  intros Hnf Hp.
  destruct (wellResolved_spec env serverless nf Hnf) as (Hname & _).
  unfold configFor, bindingFor. cbn [entryRef funcName key value Js.or_else].
  rewrite Hname, Hp. reflexivity.
Qed.

(** The fan-out for functions of the ordinary kind: one element of
    [entryFunctions] and one configuration for every function, in the order
    of the functions. *)
Lemma fanOut_ordinary env serverless c p w :
  NoDup (Obj.keys (functions (service serverless))) ->
  forallb (wellResolved env serverless) (functions (service serverless)) = true ->
  NoDup (map (fun nf => basePath (snd nf)) (functions (service serverless))) ->
  path (outputOf serverless c) = Some p ->
  fanOut env serverless c
    (map (fun nf => entryFor env serverless (snd nf)) (functions (service serverless))) w =
  (Ok Resolved,
   setThis (withWebpackConfig
              (WebpackMulti (map (configOf env serverless c p)
                               (functions (service serverless)))))
     (setThis (withEntryFunctions
                 (map (bindingFor env serverless) (functions (service serverless)))) w)).
Proof.
  intros Hnd Hwr Hbase Hp. unfold fanOut, bind.
  rewrite (allEntryFunctions_ordinary env serverless w Hnd Hwr).
  pose proof (bindEntries_from env serverless (functions (service serverless)) [] [] w
                Hwr Hbase) as Hbind.
  simpl in Hbind. rewrite Hbind. cbn [fst snd].
  rewrite <- (length_map (bindingFor env serverless)), deref_all.
  unfold modify.
  rewrite (mapM_map_ret (fun b => lift (configFor serverless c b))
             (bindingFor env serverless) (configOf env serverless c p)).
  - reflexivity.
  - intros nf Hnf. rewrite forallb_forall in Hwr. unfold lift.
    rewrite (configFor_ordinary env serverless c p nf); [reflexivity|now apply Hwr|exact Hp].
Qed.

(** With individual packaging, and unless the removal of a missing output
    path throws, [configure] rejects a conflicting entry and hands every
    other configuration to the fan-out. *)
Lemma configure_individually env serverless options keep c0 entries w :
  packageIndividually (service serverless) = true ->
  keep = true
  \/ (exists p, path (outputOf serverless (withDefaults serverless options c0)) = Some p) ->
  exists w3,
    (libOptions (lib w3) = libOptions (lib w) /\ libEntries (lib w3) = libEntries (lib w))
    /\ configure env serverless options keep c0 entries w =
       if entryConflicts c0 entries
       then (Ok (Rejected entryMustBeResolved), w3)
       else fanOut env serverless (withDefaults serverless options c0) entries w3.
Proof.
  intros Hind Hrm. rewrite configure_run by exact Hrm. rewrite Hind.
  assert (E : entryConflicts (withDefaults serverless options c0) entries
              = entryConflicts c0 entries)
    by (unfold entryConflicts; now rewrite entry_withDefaults).
  rewrite E. eexists. split; [|reflexivity].
  assert (Hlib : lib (individually options (prepared serverless options keep c0 w)) =
                 lib (written serverless (withDefaults serverless options c0) w)).
  { unfold individually, prepared. cbv zeta.
    destruct keep, (verbose options); reflexivity. }
  rewrite Hlib.
  split; apply (lib_written serverless (withDefaults serverless options c0) w).
Qed.

Lemma loadConfig_loaded env serverless options entries c0 w :
  loadedConfig env serverless options entries = Some c0 ->
  lib w = {| libServerless := Some serverless; libOptions := Some options;
             libEntries := Some entries |} ->
  exists w2, loadConfig env serverless w = (Ok (inl c0), w2).
Proof.
  unfold loadedConfig, loadConfig. intros H Hlib.
  destruct (configSource serverless) as [file|c].
  - destruct (fileExistsSync env _); [|discriminate H]. cbn [negb].
    rewrite Hlib. destruct (requireConfig env _ _) as [c|err]; [|discriminate H].
    injection H as <-. eauto.
  - injection H as <-. unfold ret. eauto.
Qed.

Lemma includes_In (l : list string) (x : string) :
  Lodash.includes l x = true <-> In x l.
Proof.
  unfold Lodash.includes. rewrite existsb_exists. split.
  - intros (y & Hy & E). apply String.eqb_eq in E. now subst.
  - intros H. exists x. split; [exact H|apply String.eqb_refl].
Qed.

Lemma distinct_NoDup (l : list string) : distinct l = true -> NoDup l.
Proof.
  induction l as [|x l IH]; simpl; intros H; [constructor|].
  apply andb_true_iff in H as [Hx Hl]. constructor; [|now apply IH].
  intros Hin. apply includes_In in Hin. rewrite Hin in Hx. discriminate Hx.
Qed.

(** C3, as the code has it.  With individual packaging and no function
    selected, for functions of the ordinary kind (a name that is not empty; a
    handler file that is a relative path of proper segments and not an array
    index; files found, the winner's extension a literal one) whose names and
    handler files are pairwise distinct, a configuration that loads, declares
    no conflicting entry and has an output path [p] after the defaults:
    [validate] resolves with one configuration for every function, in the
    order of the functions (four for four functions).  The configuration of a
    function has the entry of that function alone, the output path [p]
    joined with the name of the function, and every other field as the
    configuration [c] has it after the defaults. *)
Theorem individual_configurations env serverless options keep w c0 p :
  packageIndividually (service serverless) = true ->
  Js.truthy_opt (function options) = false ->
  NoDup (Obj.keys (functions (service serverless))) ->
  forallb (wellResolved env serverless) (functions (service serverless)) = true ->
  NoDup (map (fun nf => basePath (snd nf)) (functions (service serverless))) ->
  loadedConfig env serverless options
    (map (fun nf => entryFor env serverless (snd nf)) (functions (service serverless)))
  = Some c0 ->
  entryConflicts c0
    (map (fun nf => entryFor env serverless (snd nf)) (functions (service serverless)))
  = false ->
  path (outputOf serverless (withDefaults serverless options c0)) = Some p ->
  exists w' configs,
    validate env serverless options keep w = (Ok Resolved, w')
    /\ webpackConfig (this w') = Some (WebpackMulti configs)
    /\ List.length configs = List.length (functions (service serverless))
    /\ Forall2
         (fun nf cfg =>
            let c := withDefaults serverless options c0 in
            entry cfg =
            Some (EntryObject
                    [(basePath (snd nf),
                      ItemFile ("./" ++ basePath (snd nf)
                                ++ extensionFor env serverless (snd nf)))])
            /\ output cfg = Some (setPath (Path.join [p; fst nf]) (outputOf serverless c))
            /\ context cfg = context c
            /\ target cfg = target c
            /\ devtool cfg = devtool c
            /\ configRest cfg = configRest c)
         (functions (service serverless)) configs
    /\ entryFunctions (this w') =
       Some (map (bindingFor env serverless) (functions (service serverless)))
    /\ libEntries (lib w') =
       Some (map (fun nf => entryFor env serverless (snd nf))
               (functions (service serverless))).
Proof.
  intros Hind Hall Hnd Hwr Hbase Hload Hconf Hp.
  set (fs := functions (service serverless)) in *.
  set (entries := map (fun nf => entryFor env serverless (snd nf)) fs) in *.
  destruct (resolveEntries_ordinary env serverless options (started serverless w)
              Hall Hnd Hwr Hbase) as (w1 & Hent).
  fold fs in Hent. fold entries in Hent.
  destruct (loadConfig_loaded env serverless options entries c0
              (exposed serverless options entries w1) Hload eq_refl) as (w2 & Hrun2).
  destruct (configure_individually env serverless options keep c0 entries w2 Hind
              (or_intror (ex_intro _ p Hp)))
    as (w3 & [_ Hlib3] & Hrun3).
  rewrite Hconf in Hrun3. unfold entries, fs in Hrun3.
  rewrite (fanOut_ordinary env serverless _ p w3 Hnd Hwr Hbase Hp) in Hrun3.
  fold fs in Hrun3. fold entries in Hrun3.
  eexists. exists (map (configOf env serverless (withDefaults serverless options c0) p) fs).
  split; [rewrite validate_stages, Hent, Hrun2; exact Hrun3|].
  split; [reflexivity|]. split; [apply length_map|]. split; [|split].
  - clear. induction fs as [|nf fs IH]; simpl; constructor; [|exact IH].
    cbv zeta. repeat split; reflexivity.
  - reflexivity.
  - cbn [lib setThis]. rewrite Hlib3.
    pose proof (keepsLib_loadConfig env serverless (exposed serverless options entries w1))
      as Hk.
    rewrite Hrun2 in Hk. simpl in Hk. now rewrite Hk.
Qed.

Lemma individual_configurations_witness :
  exists w' configs,
    validate (Fixture.envOf Fixture.jsFiles)
      (Fixture.serviceOf Fixture.testFunctionsConfig
         (Some (ConfigInline Fixture.testConfig)) true)
      Fixture.noOptions false Fixture.fresh = (Ok Resolved, w')
    /\ webpackConfig (this w') = Some (WebpackMulti configs)
    /\ List.length configs = 4
    /\ Fixture.outputPaths (this w') =
       [Some "output/func1"; Some "output/func2"; Some "output/func3"; Some "output/func4"].
Proof.
  destruct (individual_configurations (Fixture.envOf Fixture.jsFiles)
              (Fixture.serviceOf Fixture.testFunctionsConfig
                 (Some (ConfigInline Fixture.testConfig)) true)
              Fixture.noOptions false Fixture.fresh Fixture.testConfig "output"
              eq_refl eq_refl
              (distinct_NoDup (Obj.keys Fixture.testFunctionsConfig) eq_refl)
              eq_refl
              (distinct_NoDup (map (fun nf => basePath (snd nf)) Fixture.testFunctionsConfig)
                 eq_refl)
              eq_refl eq_refl eq_refl)
    as (w' & configs & Hrun & Hcfg & Hlen & _).
  exists w', configs. repeat split; try assumption.
  assert (E : w' = snd (validate (Fixture.envOf Fixture.jsFiles)
                          (Fixture.serviceOf Fixture.testFunctionsConfig
                             (Some (ConfigInline Fixture.testConfig)) true)
                          Fixture.noOptions false Fixture.fresh))
    by now rewrite Hrun.
  rewrite E. lazy. reflexivity.
Defined.

(** The handler files [2], [1] and two more are four distinct base paths, and
    the configurations are not in the order of the functions: the entry [1]
    of the second function is enumerated before the entry [2] of the first,
    so the first configuration is the one of [func2]. *)
Lemma configurations_not_in_declaration_order :
  fst (validate (Fixture.envOf Fixture.jsFiles)
         (Fixture.serviceOf Fixture.numberedFunctions
            (Some (ConfigInline Fixture.testConfig)) true)
         Fixture.noOptions false Fixture.fresh) = Ok Resolved
  /\ map (fun nf => basePath (snd nf)) Fixture.numberedFunctions =
     ["2"; "1"; "handlers/func3/module2"; "handlers/module2/func3/module2"]
  /\ Fixture.outputPaths
       (this (snd (validate (Fixture.envOf Fixture.jsFiles)
                     (Fixture.serviceOf Fixture.numberedFunctions
                        (Some (ConfigInline Fixture.testConfig)) true)
                     Fixture.noOptions false Fixture.fresh))) =
     [Some "output/func2"; Some "output/func1"; Some "output/func3"; Some "output/func4"].
Proof. repeat split; vm_compute; reflexivity. Qed.

(** ** An explicit entry with individual packaging *)

(** The fan-out resolves or throws: it never rejects. *)
Lemma fanOut_never_rejects env serverless c entries w :
  fst (fanOut env serverless c entries w) = Ok Resolved
  \/ exists e, fst (fanOut env serverless c entries w) = Throw e.
Proof.
  unfold fanOut, bind, modify, ret.
  destruct (allEntryFunctions env serverless w) as [[all|e] w1];
    [|right; exists e; reflexivity].
  destruct (forEach entries (bindEntry env) (all, []) w1) as [[bound|e] w2];
    [|right; exists e; reflexivity].
  destruct (mapM _ _ _) as [[configs|e] w3];
    [left; reflexivity|right; exists e; reflexivity].
Qed.




(** ** Entries that match no function *)

Lemma mapM_inv {A B} (f : A -> M B) (l : list A) :
  forall w bs w',
    mapM f l w = (Ok bs, w') ->
    Forall2 (fun a b => exists w1 w2, f a w1 = (Ok b, w2)) l bs.
Proof.
  induction l as [|a l IH]; intros w bs w' H; simpl in H.
  - injection H as <- _. constructor.
  - unfold bind in H. destruct (f a w) as [[b|e] w1] eqn:Ha; [|discriminate H].
    destruct (mapM f l w1) as [[bs'|e] w2] eqn:Hl; [|discriminate H].
    injection H as <- _. constructor; [eauto|]. eapply IH. exact Hl.
Qed.

Lemma mapM_lift {A B} (f : A -> Result B) (l : list A) (w : World) :
  forall bs w',
    mapM (fun a => lift (f a)) l w = (Ok bs, w') ->
    w' = w /\ Forall2 (fun a b => f a = Ok b) l bs.
Proof.
  induction l as [|a l IH]; intros bs w' H; simpl in H.
  - injection H as <- <-. split; [reflexivity|constructor].
  - unfold bind at 1 in H. change (lift (f a) w) with (f a, w) in H.
    destruct (f a) as [b|e] eqn:Ha; [|discriminate H].
    unfold bind at 1 in H.
    destruct (mapM (fun a => lift (f a)) l w) as [[bs'|e] w2] eqn:Hl; [|discriminate H].
    injection H as <- <-. destruct (IH bs' w2 eq_refl) as [-> HF].
    split; [reflexivity|]. now constructor.
Qed.

(** Every element of [allEntryFunctions] is the element of a declared
    function, its handler file the relative path of the handler file. *)
Lemma allEntryFunctions_elements env serverless w all w' :
  allEntryFunctions env serverless w = (Ok all, w') ->
  forall b, In b all ->
    exists name f file,
      Obj.get name (functions (service serverless)) = Some f
      /\ getHandlerFile (handler f) = Some file
      /\ handlerFile b = Some (Path.relativeFromCwd (processCwd env) file).
Proof.
  unfold allEntryFunctions. intros H.
  apply mapM_inv in H. revert H. generalize (getAllFunctions serverless).
  intros names HF. induction HF as [|name b names all (w1 & w2 & Hstep) HF IH];
    intros b' Hb'; [contradiction|].
  destruct Hb' as [<-|Hb']; [|now apply IH].
  unfold bind, getFunction in Hstep.
  destruct (Obj.get name (functions (service serverless))) as [f|] eqn:Hget;
    [|destruct (Lodash.includes objectPrototype name); [lazy in Hstep|];
      discriminate Hstep].
  unfold ret in Hstep.
  destruct (getHandlerFile (handler f)) as [file|] eqn:Hfile; [|discriminate Hstep].
  injection Hstep as <- _. exists name, f, file. auto.
Qed.

Lemma handlerFile_assign (hits : list nat) (e : EntryRef) (idx : list nat)
      (all : list EntryFunction) :
  List.length idx = List.length all ->
  map handlerFile
    (map (fun ib : nat * EntryFunction =>
            if existsb (Nat.eqb (fst ib)) hits then withEntryRef e (snd ib) else snd ib)
         (combine idx all)) = map handlerFile all.
Proof.
  revert idx. induction all as [|b all IH]; intros [|i idx] H; simpl in *;
    try reflexivity; try discriminate.
  rewrite IH by lia. f_equal. destruct (existsb _ hits); reflexivity.
Qed.

Lemma handlerFile_assignEntry hits e all :
  map handlerFile (assignEntry hits e all) = map handlerFile all.
Proof. unfold assignEntry. apply handlerFile_assign. apply length_seq. Qed.

Lemma matchingFrom_handlerFiles (file : string) (a b : list EntryFunction) :
  map handlerFile a = map handlerFile b ->
  forall i, matchingFrom i file a = matchingFrom i file b.
Proof.
  revert b. induction a as [|x a IH]; intros [|y b] H i; simpl in *;
    try reflexivity; try discriminate.
  injection H as Hx Hab. rewrite Hx, (IH b Hab). reflexivity.
Qed.

(** The references of [entryFunctions] come in groups, one group for every
    entry; the group of an entry that matches nothing is the object made for
    it. *)
Lemma bindEntries_groups env (entries : Obj.t string) :
  forall all refs w all' refs' w',
    forEach entries (bindEntry env) (all, refs) w = (Ok (all', refs'), w') ->
    exists groups,
      refs' = (refs ++ concat groups)%list
      /\ Forall2
           (fun kv g =>
              forall entryFile,
                stripExtension env (Path.relativeFromCwd (processCwd env) (snd kv))
                = Ok entryFile ->
                matchingFrom 0 entryFile all = [] ->
                g = [Fresh (freshBinding kv)])
           entries groups.
Proof.
  induction entries as [|[k v] entries IH]; intros all refs w all' refs' w' H.
  - simpl in H. injection H as _ <- _. exists []. simpl.
    rewrite app_nil_r. split; [reflexivity|constructor].
  - simpl in H. unfold bind at 1 in H. unfold bindEntry at 1 in H.
    unfold bind, lift in H.
    destruct (stripExtension env (Path.relativeFromCwd (processCwd env) v))
      as [entryFile|e] eqn:Hstrip; [|discriminate H].
    destruct (matchingFrom 0 entryFile all) as [|hit hits] eqn:Hm.
    + unfold ret in H. destruct (IH _ _ _ _ _ _ H) as (groups & -> & HF).
      exists ([Fresh (freshBinding (k, v))] :: groups). split.
      * simpl. now rewrite <- app_assoc.
      * constructor; [|exact HF]. intros entryFile' E _. reflexivity.
    + unfold ret in H. destruct (IH _ _ _ _ _ _ H) as (groups & -> & HF).
      exists (map Shared (hit :: hits) :: groups). split.
      * simpl. now rewrite <- app_assoc.
      * constructor.
        -- intros entryFile' E Hnone. simpl in E. rewrite Hstrip in E.
           injection E as <-. rewrite Hm in Hnone. discriminate Hnone.
        -- revert HF. apply Forall2_impl. intros kv g Hg entryFile' E Hnone.
           apply (Hg entryFile' E).
           rewrite (matchingFrom_handlerFiles entryFile' _ all
                      (handlerFile_assignEntry _ _ _)).
           exact Hnone.
Qed.

Lemma Forall2_impl_In {A B} (R R' : A -> B -> Prop) (l1 : list A) (l2 : list B) :
  (forall a b, In a l1 -> In b l2 -> R a b -> R' a b) ->
  Forall2 R l1 l2 -> Forall2 R' l1 l2.
Proof.
  intros H HF. induction HF as [|a b l1 l2 Hab HF IH]; constructor.
  - apply H; [now left|now left|exact Hab].
  - apply IH. intros a' b' Ha' Hb'. apply H; now right.
Qed.

Lemma Forall2_map_right {A B C} (R : A -> C -> Prop) (h : B -> C)
      (l1 : list A) (l2 : list B) :
  Forall2 (fun a b => R a (h b)) l1 l2 -> Forall2 R l1 (map h l2).
Proof. intros HF. induction HF; simpl; constructor; assumption. Qed.

Lemma Forall2_results {A B} (f : A -> Result B) (d : B) (l : list A) (l' : list B) :
  Forall2 (fun a b => f a = Ok b) l l' ->
  l' = map (fun a => match f a with Ok b => b | Throw _ => d end) l.
Proof.
  intros HF. induction HF as [|a b l l' Hab HF IH]; simpl; [reflexivity|].
  now rewrite Hab, IH.
Qed.

Lemma Forall2_In_left {A B} (R : A -> B -> Prop) (l : list A) (l' : list B) (a : A) :
  Forall2 R l l' -> In a l -> exists b, R a b.
Proof.
  intros HF. induction HF as [|x y l l' Hxy HF IH]; [contradiction|].
  intros [<-|Hin]; [eauto|now apply IH].
Qed.

(** What a resolved fan-out has written: the elements of [entryFunctions]
    and their configurations, in groups, one group for every entry. *)
Lemma fanOut_groups env serverless c entries w w' :
  fanOut env serverless c entries w = (Ok Resolved, w') ->
  exists groups : list (list (EntryFunction * Config)),
    entryFunctions (this w') = Some (map fst (concat groups))
    /\ webpackConfig (this w') = Some (WebpackMulti (map snd (concat groups)))
    /\ Forall2
         (fun kv g =>
            unmatched env serverless kv ->
            exists p, path (outputOf serverless c) = Some p
                      /\ g = [(freshBinding kv, freshConfig serverless c p kv)])
         entries groups.
Proof.
  unfold fanOut, bind, modify, ret. intros H.
  destruct (allEntryFunctions env serverless w) as [[all|e] wa] eqn:Hall; [|discriminate H].
  destruct (forEach entries (bindEntry env) (all, []) wa) as [[[all' refs]|e] wb] eqn:Hbind;
    [|discriminate H].
  cbn [fst snd] in H.
  destruct (mapM _ _ _) as [[configs|e] wc] eqn:Hmap; [|discriminate H].
  injection H as <-.
  destruct (mapM_lift _ _ _ _ _ Hmap) as [-> Hcfg].
  destruct (bindEntries_groups env entries _ _ _ _ _ _ Hbind) as (rgroups & Hrefs & HF).
  simpl in Hrefs. subst refs.
  set (cfgOf := fun b => match configFor serverless c b with Ok x => x | Throw _ => c end).
  exists (map (map (fun r => (deref all' r, cfgOf (deref all' r)))) rgroups).
  rewrite <- !concat_map, !map_map. cbn [fst snd].
  split; [reflexivity|]. split.
  - cbn [this setThis webpackConfig withWebpackConfig]. do 2 f_equal.
    rewrite (Forall2_results _ c _ _ Hcfg), map_map. reflexivity.
  - apply Forall2_map_right. revert HF. apply Forall2_impl_In.
    intros kv rg Hkv Hrg Hfresh (entryFile & Hstrip & Hnone).
    assert (Hrgf : rg = [Fresh (freshBinding kv)]).
    { apply (Hfresh entryFile Hstrip). apply matchingFrom_none.
      intros b Hb Eb.
      destruct (allEntryFunctions_elements env serverless w all wa Hall b Hb)
        as (name & f & file & Hget & Hfile & Hhf).
      rewrite Hhf in Eb. injection Eb as Eb. exact (Hnone name f file Hget Hfile Eb). }
    subst rg. simpl.
    assert (Hin : In (freshBinding kv) (map (deref all') (concat rgroups))).
    { apply in_map_iff. exists (Fresh (freshBinding kv)). split; [reflexivity|].
      apply in_concat. exists [Fresh (freshBinding kv)]. split; [exact Hrg|now left]. }
    destruct (Forall2_In_left _ _ _ _ Hcfg Hin) as (cfg & Hok).
    unfold cfgOf. rewrite Hok.
    unfold configFor, freshBinding in Hok. cbn [entryRef funcName key value Js.or_else] in Hok.
    destruct (path (outputOf serverless c)) as [p|]; [|discriminate Hok].
    injection Hok as <-. exists p. split; reflexivity.
Qed.

(** C10. With individual packaging, when [validate] resolves, the elements of
    [entryFunctions] and the configurations come in groups, one group for
    every entry, in the order of the entries.  The group of an entry whose
    file is the handler file of no declared function is a single element,
    without function name, function or handler file, and of its
    configuration the output path is the output path joined with the camel
    case of the key of the entry ([handlersFunc3Module2] for the key
    [handlers/func3/module2]). *)
Theorem unmatched_entry_has_its_own_binding
        env serverless options keep w entries w1 c0 w2 w' :
  packageIndividually (service serverless) = true ->
  resolveEntries env serverless options (started serverless w) = (Ok entries, w1) ->
  loadConfig env serverless (exposed serverless options entries w1) = (Ok (inl c0), w2) ->
  validate env serverless options keep w = (Ok Resolved, w') ->
  (exists groups : list (list (EntryFunction * Config)),
     entryFunctions (this w') = Some (map fst (concat groups))
     /\ webpackConfig (this w') = Some (WebpackMulti (map snd (concat groups)))
     /\ Forall2
          (fun kv g =>
             unmatched env serverless kv ->
             exists p,
               path (outputOf serverless (withDefaults serverless options c0)) = Some p
               /\ g = [({| handlerFile := None; funcName := None; func := None;
                           entryRef := Some {| key := fst kv; value := snd kv |} |},
                        setOutput
                          (setPath (Path.join [p; Lodash.camelCase (fst kv)])
                             (outputOf serverless (withDefaults serverless options c0)))
                          (setEntry (EntryObject [(fst kv, ItemFile (snd kv))])
                             (withDefaults serverless options c0)))])
          entries groups)
  /\ Lodash.camelCase "handlers/func3/module2" = "handlersFunc3Module2".
Proof.
  intros Hind Hent Hload Hrun. split; [|reflexivity].
  assert (Hrm : keep = true
                \/ exists p, path (outputOf serverless
                                     (withDefaults serverless options c0)) = Some p).
  { destruct keep; [now left|right].
    destruct (path (outputOf serverless (withDefaults serverless options c0)))
      as [p|] eqn:Hp; [now exists p|].
    rewrite validate_stages, Hent, Hload, (configure_refused _ _ _ _ _ _ Hp) in Hrun.
    discriminate Hrun. }
  destruct (configure_individually env serverless options keep c0 entries w2 Hind Hrm)
    as (w3 & _ & Hrun3).
  rewrite validate_stages, Hent, Hload, Hrun3 in Hrun.
  destruct (entryConflicts c0 entries); [discriminate Hrun|].
  exact (fanOut_groups env serverless _ entries w3 w' Hrun).
Qed.

Lemma unmatched_entry_has_its_own_binding_witness :
  unmatched (Fixture.envOf Fixture.copiedFile)
    (Fixture.serviceOf Fixture.copiedFunction (Some (ConfigInline Fixture.testConfig)) true)
    ("handlers/func3/module2", "./handlers/func3/module2.(old)")
  /\ entryFunctions
       (this (snd (validate (Fixture.envOf Fixture.copiedFile)
                     (Fixture.serviceOf Fixture.copiedFunction
                        (Some (ConfigInline Fixture.testConfig)) true)
                     Fixture.noOptions false Fixture.fresh))) =
     Some [freshBinding ("handlers/func3/module2", "./handlers/func3/module2.(old)")]
  /\ Fixture.outputPaths
       (this (snd (validate (Fixture.envOf Fixture.copiedFile)
                     (Fixture.serviceOf Fixture.copiedFunction
                        (Some (ConfigInline Fixture.testConfig)) true)
                     Fixture.noOptions false Fixture.fresh))) =
     [Some "output/handlersFunc3Module2"].
Proof.
  assert (Hun : unmatched (Fixture.envOf Fixture.copiedFile)
                  (Fixture.serviceOf Fixture.copiedFunction
                     (Some (ConfigInline Fixture.testConfig)) true)
                  ("handlers/func3/module2", "./handlers/func3/module2.(old)")).
  { exists "handlers/func3/module2.(old)". split; [vm_compute; reflexivity|].
    intros name f file Hget Hfile. simpl in Hget.
    destruct (name =? "func3")%string; [|discriminate Hget].
    injection Hget as <-. vm_compute in Hfile. injection Hfile as <-.
    vm_compute. discriminate. }
  split; [exact Hun|].
  set (env := Fixture.envOf Fixture.copiedFile) in *.
  set (sls := Fixture.serviceOf Fixture.copiedFunction
                (Some (ConfigInline Fixture.testConfig)) true) in *.
  set (run := validate env sls Fixture.noOptions false Fixture.fresh).
  assert (Hent : resolveEntries env sls Fixture.noOptions (started sls Fixture.fresh) =
                 (Ok [("handlers/func3/module2", "./handlers/func3/module2.(old)")],
                  snd (resolveEntries env sls Fixture.noOptions (started sls Fixture.fresh))))
    by (vm_compute; reflexivity).
  assert (Hload : loadConfig env sls
                    (exposed sls Fixture.noOptions
                       [("handlers/func3/module2", "./handlers/func3/module2.(old)")]
                       (snd (resolveEntries env sls Fixture.noOptions
                               (started sls Fixture.fresh)))) =
                  (Ok (inl Fixture.testConfig),
                   exposed sls Fixture.noOptions
                     [("handlers/func3/module2", "./handlers/func3/module2.(old)")]
                     (snd (resolveEntries env sls Fixture.noOptions
                             (started sls Fixture.fresh)))))
    by reflexivity.
  assert (Hrun : run = (Ok Resolved, snd run)) by (vm_compute; reflexivity).
  destruct (proj1 (unmatched_entry_has_its_own_binding
                     env sls Fixture.noOptions false Fixture.fresh
                     _ _ Fixture.testConfig _ (snd run) eq_refl Hent Hload Hrun))
    as (groups & Hefs & Hcfg & HF).
  inversion HF as [|kv g l l' Hg HF' E1 E2]; subst.
  inversion HF'; subst.
  destruct (Hg Hun) as (p & Hp & ->).
  vm_compute in Hp. injection Hp as <-.
  split.
  - rewrite Hefs. reflexivity.
  - unfold Fixture.outputPaths. rewrite Hcfg. vm_compute. reflexivity.
Defined.

(** * Further properties of the resolver *)

(** ** The winner among the files found *)

(** The first of a stably sorted list stands in the list before every element
    with the same key and has the least key. *)
Lemma sortBy_first {A} (key : A -> nat) (l : list A) (x : A) (r : list A) :
  Lodash.sortBy key l = x :: r ->
  exists pre post,
    l = (pre ++ x :: post)%list
    /\ (forall g, In g pre -> key x < key g)
    /\ (forall g, In g post -> key x <= key g).
Proof.
  revert x r. induction l as [|a l IH]; simpl; intros x r H; [discriminate|].
  fold (Lodash.sortBy key l) in H.
  destruct (Lodash.sortBy key l) as [|y s] eqn:Hs.
  - destruct l as [|b l].
    + injection H as <- _. exists [], []. repeat split; simpl; intros; contradiction.
    + exfalso. assert (Hin : In b (Lodash.sortBy key (b :: l)))
        by (apply sortBy_In; now left).
      rewrite Hs in Hin. contradiction.
  - destruct (IH y s eq_refl) as (pre & post & -> & Hpre & Hpost).
    simpl in H. destruct (key a <=? key y)%nat eqn:Hle.
    + injection H as <- _. apply Nat.leb_le in Hle.
      exists [], (pre ++ y :: post)%list. repeat split; [simpl; intros; contradiction|].
      intros g Hg. apply in_app_or in Hg as [Hg|[<-|Hg]].
      * specialize (Hpre g Hg). lia.
      * exact Hle.
      * specialize (Hpost g Hg). lia.
    + injection H as <- _. apply Nat.leb_gt in Hle.
      exists (a :: pre), post. repeat split; [|exact Hpost].
      intros g [<-|Hg]; [exact Hle|now apply Hpre].
Qed.

Lemma filter_split {A} (p : A -> bool) (l : list A) (l1 : list A) (x : A) (l2 : list A) :
  filter p l = (l1 ++ x :: l2)%list ->
  exists a b, l = (a ++ x :: b)%list /\ filter p a = l1 /\ filter p b = l2 /\ p x = true.
Proof.
  revert l1. induction l as [|y l IH]; simpl; intros l1 H.
  - destruct l1; discriminate.
  - destruct (p y) eqn:Hy.
    + destruct l1 as [|z l1]; simpl in H.
      * injection H as -> H. exists [], l. repeat split; assumption.
      * injection H as -> H. destruct (IH l1 H) as (a & b & -> & Ha & Hb & Hx).
        exists (z :: a), b. simpl. rewrite Hy, Ha. repeat split; assumption.
    + destruct (IH l1 H) as (a & b & -> & Ha & Hb & Hx).
      exists (y :: a), b. simpl. rewrite Hy. repeat split; assumption.
Qed.

(** X1. Whenever [getEntryExtension] returns, the extension is the one of a
    file the listing service has found, the first of the sorted files.  When
    some file found has a preferred extension, that file is a preferred one of
    the least length, and the first such in the listing: the preferred files
    listed before it are longer, the ones listed after it are not shorter. *)
Theorem winner_is_first_shortest_preferred env serverless fileName w ext w' files :
  globbySync env (fileName ++ ".*") (globCwd env serverless) = files ->
  getEntryExtension env serverless fileName w = (Ok ext, w') ->
  exists f,
    Lodash.first (sortedFiles files) = Some f
    /\ In f files
    /\ ext = Path.extname f
    /\ ((exists g, In g files /\ preferred g = true) ->
        preferred f = true
        /\ exists pre post,
             files = (pre ++ f :: post)%list
             /\ (forall g, In g pre -> preferred g = true -> Lodash.size f < Lodash.size g)
             /\ (forall g, In g post -> preferred g = true -> Lodash.size f <= Lodash.size g)).
Proof.
  intros Hfiles Hrun. destruct files as [|x fs].
  - rewrite (getEntryExtension_missing _ _ _ _ Hfiles) in Hrun. discriminate.
  - destruct (getEntryExtension_found env serverless fileName w x fs Hfiles)
      as (f & Hf & Hrun').
    rewrite Hrun' in Hrun. injection Hrun as <- _.
    exists f. split; [exact Hf|].
    rewrite sortedFiles_first in Hf.
    destruct (Lodash.sortBy Lodash.size (filter preferred (x :: fs))) as [|y s] eqn:Hs.
    + simpl in Hf. injection Hf as <-.
      split; [now left|]. split; [reflexivity|].
      intros (g & Hg & Hp). exfalso.
      assert (Hin : In g (Lodash.sortBy Lodash.size (filter preferred (x :: fs)))).
      { apply sortBy_In. apply filter_In. now split. }
      rewrite Hs in Hin. contradiction.
    + injection Hf as <-.
      destruct (sortBy_first _ _ _ _ Hs) as (pre' & post' & Hsplit & Hpre & Hpost).
      destruct (filter_split _ _ _ _ _ Hsplit) as (pre & post & Hl & <- & <- & Hy).
      split; [|split; [reflexivity|]].
      * rewrite Hl. apply in_or_app. right. now left.
      * intros _. split; [exact Hy|]. exists pre, post.
        split; [exact Hl|]. split.
        -- intros g Hg Hp. apply Hpre. apply filter_In. now split.
        -- intros g Hg Hp. apply Hpost. apply filter_In. now split.
Qed.

Lemma winner_is_first_shortest_preferred_witness :
  exists f,
    Lodash.first (sortedFiles Fixture.mostProbable) = Some f
    /\ In f Fixture.mostProbable
    /\ ".ts" = Path.extname f
    /\ ((exists g, In g Fixture.mostProbable /\ preferred g = true) ->
        preferred f = true
        /\ exists pre post,
             Fixture.mostProbable = (pre ++ f :: post)%list
             /\ (forall g, In g pre -> preferred g = true -> Lodash.size f < Lodash.size g)
             /\ (forall g, In g post -> preferred g = true -> Lodash.size f <= Lodash.size g)).
Proof.
  apply (winner_is_first_shortest_preferred
           (Fixture.envOf (fun _ _ => Fixture.mostProbable))
           (Fixture.serviceOf Fixture.testFunctionsConfig None false)
           "module1" Fixture.fresh ".ts"
           (snd (getEntryExtension (Fixture.envOf (fun _ _ => Fixture.mostProbable))
                   (Fixture.serviceOf Fixture.testFunctionsConfig None false)
                   "module1" Fixture.fresh))).
  - reflexivity.
  - vm_compute. reflexivity.
Defined.

(** X2. When none of the files found has a preferred extension, the extension
    of the first file found is returned. *)
Theorem first_found_wins_without_preferred env serverless fileName w x fs :
  globbySync env (fileName ++ ".*") (globCwd env serverless) = x :: fs ->
  (forall g, In g (x :: fs) -> preferred g = false) ->
  fst (getEntryExtension env serverless fileName w) = Ok (Path.extname x)
  /\ Lodash.first (sortedFiles (x :: fs)) = Some x.
Proof.
  intros Hfiles Hnone.
  destruct (getEntryExtension_found env serverless fileName w x fs Hfiles)
    as (f & Hf & Hrun).
  rewrite Hrun. simpl fst.
  rewrite sortedFiles_first in Hf.
  assert (Hempty : filter preferred (x :: fs) = []).
  { destruct (filter preferred (x :: fs)) as [|g r] eqn:Hfl; [reflexivity|].
    assert (Hin : In g (filter preferred (x :: fs))) by (rewrite Hfl; now left).
    apply filter_In in Hin as [Hin Hp]. rewrite (Hnone g Hin) in Hp. discriminate. }
  rewrite Hempty in Hf. simpl in Hf. injection Hf as <-.
  split; [reflexivity|].
  rewrite sortedFiles_first, Hempty. reflexivity.
Qed.

Lemma first_found_wins_without_preferred_witness :
  fst (getEntryExtension (Fixture.envOf (fun _ _ => ["handler.py"; "handler.json"]))
         (Fixture.serviceOf Fixture.testFunctionsConfig None false)
         "handler" Fixture.fresh) = Ok ".py"
  /\ Lodash.first (sortedFiles ["handler.py"; "handler.json"]) = Some "handler.py".
Proof.
  apply (first_found_wins_without_preferred
           (Fixture.envOf (fun _ _ => ["handler.py"; "handler.json"]))
           (Fixture.serviceOf Fixture.testFunctionsConfig None false)
           "handler" Fixture.fresh "handler.py" ["handler.json"]).
  - reflexivity.
  - intros g [<-|[<-|[]]]; vm_compute; reflexivity.
Defined.

(** ** The warning for several files *)

Lemma uniqFrom_In (x : string) (l : list string) :
  forall seen, In x (Lodash.uniqFrom seen l) <-> In x l /\ ~ In x seen.
Proof.
  induction l as [|y l IH]; simpl; intros seen; [tauto|].
  destruct (Lodash.includes seen y) eqn:Hy.
  - apply includes_In in Hy. rewrite IH. split.
    + intros [H1 H2]. tauto.
    + intros [[<-|H1] H2]; [contradiction|tauto].
  - assert (Hn : ~ In y seen) by (rewrite <- includes_In; congruence).
    simpl. rewrite IH. simpl. split.
    + intros [<-|[H1 H2]]; [tauto|]. split; [tauto|]. intros H. apply H2. now right.
    + intros [[<-|H1] H2]; [now left|].
      destruct (string_dec y x) as [->|Hne]; [now left|].
      right. split; [exact H1|]. intros [E|H]; [contradiction|contradiction].
Qed.

Lemma uniqFrom_NoDup (l : list string) :
  forall seen, NoDup (Lodash.uniqFrom seen l).
Proof.
  induction l as [|y l IH]; simpl; intros seen; [constructor|].
  destruct (Lodash.includes seen y); [apply IH|].
  constructor; [|apply IH].
  rewrite uniqFrom_In. intros [_ H]. apply H. now left.
Qed.

Lemma uniq_In (x : string) (l : list string) : In x (Lodash.uniq l) <-> In x l.
Proof. unfold Lodash.uniq. rewrite uniqFrom_In. simpl. tauto. Qed.

Lemma sortedFiles_In (x : string) (files : list string) :
  In x (sortedFiles files) <-> In x files.
Proof.
  unfold sortedFiles. rewrite uniq_In, in_app_iff, sortBy_In, filter_In. tauto.
Qed.

Lemma sortedFiles_NoDup (files : list string) : NoDup (sortedFiles files).
Proof. apply uniqFrom_NoDup. Qed.

(** The sorted files are more than one exactly when two different files were
    found. *)
Lemma sortedFiles_several (x : string) (fs : list string) :
  (1 <? List.length (sortedFiles (x :: fs)))%nat = true <-> exists g, In g fs /\ g <> x.
Proof.
  pose proof (sortedFiles_NoDup (x :: fs)) as Hnd.
  pose proof (fun y => sortedFiles_In y (x :: fs)) as Hin.
  destruct (sortedFiles (x :: fs)) as [|a [|b r]]; simpl.
  - split; [discriminate|]. intros _. exfalso. apply (proj2 (Hin x)). now left.
  - split; [discriminate|]. intros (g & Hg & Hne). exfalso.
    assert (Hx : a = x). { destruct (proj2 (Hin x)) as [E|[]]; [now left|exact E]. }
    assert (Hg' : a = g).
    { destruct (proj2 (Hin g)) as [E|[]]; [right; exact Hg|exact E]. }
    congruence.
  - split; [|reflexivity]. intros _.
    assert (Hab : a <> b).
    { inversion Hnd as [|? ? Hn _]. intros ->. apply Hn. now left. }
    assert (Ha : In a (x :: fs)) by (apply Hin; now left).
    assert (Hb : In b (x :: fs)) by (apply Hin; right; now left).
    destruct Ha as [Ha|Ha]; destruct Hb as [Hb|Hb].
    + congruence.
    + exists b. split; [exact Hb|congruence].
    + exists a. split; [exact Ha|congruence].
    + destruct (string_dec a x) as [->|Hne].
      * exists b. split; [exact Hb|congruence].
      * exists a. split; [exact Ha|exact Hne].
Qed.

(** X3. The warning of [getEntryExtension] is logged exactly when two
    different files were found.  When every file found is the first one (one
    file, or one file listed several times) the extension of that file is
    returned and nothing is logged; otherwise the one warning names the
    winner. *)
Theorem warning_for_different_files env serverless fileName w x fs :
  globbySync env (fileName ++ ".*") (globCwd env serverless) = x :: fs ->
  ((forall g, In g fs -> g = x) ->
   getEntryExtension env serverless fileName w =
   (Ok (Path.extname x), setGlobCalls (fun l => (l ++ [(fileName ++ ".*")%string])%list) w))
  /\ ((exists g, In g fs /\ g <> x) ->
      exists winner,
        Lodash.first (sortedFiles (x :: fs)) = Some winner
        /\ getEntryExtension env serverless fileName w =
           (Ok (Path.extname winner),
            setCliLog (fun l => (l ++ [ambiguityWarning fileName winner])%list)
              (setGlobCalls (fun l => (l ++ [(fileName ++ ".*")%string])%list) w))).
Proof.
  intros Hfiles.
  destruct (getEntryExtension_found env serverless fileName w x fs Hfiles)
    as (f & Hf & Hrun).
  split.
  - intros Hsame.
    assert (Hone : (1 <? List.length (sortedFiles (x :: fs)))%nat = false).
    { destruct (1 <? _)%nat eqn:E; [|reflexivity].
      apply sortedFiles_several in E as (g & Hg & Hne). now specialize (Hsame g Hg). }
    assert (Hfx : f = x).
    { assert (Hin : In f (x :: fs)).
      { apply sortedFiles_In. destruct (sortedFiles (x :: fs)); [discriminate|].
        injection Hf as <-. now left. }
      destruct Hin as [E|Hin]; [now symmetry|now apply Hsame]. }
    rewrite Hrun, Hone, Hfx. reflexivity.
  - intros Hdiff. apply sortedFiles_several in Hdiff.
    exists f. split; [exact Hf|]. rewrite Hrun, Hdiff. reflexivity.
Qed.

Lemma warning_for_different_files_witness :
  getEntryExtension (Fixture.envOf (fun _ _ => ["module1.js"; "module1.js"]))
    (Fixture.serviceOf Fixture.testFunctionsConfig None false) "module1" Fixture.fresh =
  (Ok ".js", setGlobCalls (fun l => (l ++ ["module1.*"])%list) Fixture.fresh)
  /\ exists winner,
       Lodash.first (sortedFiles ["module1.ts"; "module1.js"]) = Some winner
       /\ getEntryExtension (Fixture.envOf (fun _ _ => ["module1.ts"; "module1.js"]))
            (Fixture.serviceOf Fixture.testFunctionsConfig None false)
            "module1" Fixture.fresh =
          (Ok (Path.extname winner),
           setCliLog (fun l => (l ++ [ambiguityWarning "module1" winner])%list)
             (setGlobCalls (fun l => (l ++ ["module1.*"])%list) Fixture.fresh)).
Proof.
  split.
  - apply (proj1 (warning_for_different_files
                    (Fixture.envOf (fun _ _ => ["module1.js"; "module1.js"]))
                    (Fixture.serviceOf Fixture.testFunctionsConfig None false)
                    "module1" Fixture.fresh "module1.js" ["module1.js"] eq_refl)).
    intros g [<-|[]]. reflexivity.
  - apply (proj2 (warning_for_different_files
                    (Fixture.envOf (fun _ _ => ["module1.ts"; "module1.js"]))
                    (Fixture.serviceOf Fixture.testFunctionsConfig None false)
                    "module1" Fixture.fresh "module1.ts" ["module1.js"] eq_refl)).
    exists "module1.js". split; [now left|discriminate].
Defined.

(** ** The handler parser, in general *)

Lemma takeWhile_dropWhile {A} (p : A -> bool) (l : list A) :
  (takeWhile p l ++ dropWhile p l)%list = l.
Proof.
  induction l as [|x l IH]; simpl; [reflexivity|].
  destruct (p x); simpl; [now rewrite IH|reflexivity].
Qed.

Lemma dropWhile_head {A} (p : A -> bool) (l : list A) (x : A) (r : list A) :
  dropWhile p l = x :: r -> p x = false.
Proof.
  induction l as [|y l IH]; simpl; [discriminate|].
  destruct (p y) eqn:Hy; [exact IH|]. intros H. injection H as <- _. exact Hy.
Qed.

Lemma forallb_and {A} (p q : A -> bool) (l : list A) :
  forallb (fun c => p c && q c) l = forallb p l && forallb q l.
Proof.
  induction l as [|x l IH]; simpl; [reflexivity|].
  rewrite IH. destruct (p x), (q x), (forallb p l), (forallb q l); reflexivity.
Qed.

(** X4. [getHandlerFile] returns [b] exactly when the handler is some text
    that is empty or ends with a line terminator, then [b], a dot and a
    suffix, where [b] has no line terminator and the suffix has neither a dot
    nor a line terminator: the handler file is what stands between the last
    line terminator and the last dot of the handler, and there is none when no
    dot follows the last line terminator. *)
Theorem handler_file_of_last_line (handler b : string) :
  getHandlerFile handler = Some b <->
  exists pre suffix,
    handler = pre ++ b ++ "." ++ suffix
    /\ endsLine pre = true
    /\ forallb (fun c => negb (Js.isLineTerminator c)) (Js.chars b) = true
    /\ forallb (fun c => negb (Path.isDot c) && negb (Js.isLineTerminator c))
         (Js.chars suffix) = true.
Proof.
  unfold getHandlerFile. split.
  - set (notLT := fun c => negb (Js.isLineTerminator c)).
    set (notDot := fun c => negb (Path.isDot c)).
    pose proof (takeWhile_dropWhile notLT (rev (Js.chars handler))) as Hline.
    pose proof (forallb_takeWhile_self notLT (rev (Js.chars handler))) as Hall.
    pose proof (takeWhile_dropWhile notDot (takeWhile notLT (rev (Js.chars handler))))
      as Hdot.
    pose proof (forallb_takeWhile_self notDot (takeWhile notLT (rev (Js.chars handler))))
      as Hsuf.
    destruct (dropWhile notDot (takeWhile notLT (rev (Js.chars handler))))
      as [|d rstem] eqn:Hd; [discriminate|].
    intros H. injection H as <-.
    assert (Hisdot : d = Path.dot).
    { apply dropWhile_head in Hd. unfold notDot, Path.isDot in Hd.
      apply negb_false_iff in Hd. now apply Ascii.eqb_eq in Hd. }
    subst d.
    set (rsuf := takeWhile notDot (takeWhile notLT (rev (Js.chars handler)))) in *.
    set (rest := dropWhile notLT (rev (Js.chars handler))) in *.
    rewrite <- Hdot in Hline, Hall.
    exists (Js.str (rev rest)), (Js.str (rev rsuf)). split; [|split; [|split]].
    + rewrite <- (str_chars handler), <- (rev_involutive (Js.chars handler)), <- Hline.
      rewrite !rev_app_distr. simpl rev. rewrite <- !app_assoc. simpl app.
      rewrite !str_app. reflexivity.
    + unfold endsLine. rewrite chars_str, rev_involutive.
      destruct rest as [|c rest'] eqn:Hrest; [reflexivity|].
      apply dropWhile_head in Hrest. unfold notLT in Hrest.
      now apply negb_false_iff in Hrest.
    + rewrite chars_str, forallb_rev. rewrite forallb_app in Hall.
      apply andb_true_iff in Hall as [_ Hall]. simpl in Hall. exact Hall.
    + rewrite chars_str, forallb_rev, forallb_and. rewrite forallb_app in Hall.
      apply andb_true_iff in Hall as [Hall _].
      fold notDot notLT. now rewrite Hsuf, Hall.
  - intros (pre & suffix & -> & Hpre & Hb & Hsuf).
    rewrite forallb_and in Hsuf. apply andb_true_iff in Hsuf as [Hsd Hsl].
    rewrite !chars_app. change (Js.chars ".") with [Path.dot].
    rewrite !rev_app_distr. simpl rev. rewrite <- !app_assoc. simpl app.
    assert (Hline : takeWhile (fun c => negb (Js.isLineTerminator c))
                      (rev (Js.chars suffix) ++ Path.dot :: rev (Js.chars b)
                       ++ rev (Js.chars pre))
                    = (rev (Js.chars suffix) ++ Path.dot :: rev (Js.chars b))%list).
    { change (rev (Js.chars suffix) ++ Path.dot :: rev (Js.chars b) ++ rev (Js.chars pre))%list
        with (rev (Js.chars suffix) ++ (Path.dot :: rev (Js.chars b)) ++ rev (Js.chars pre))%list.
      rewrite app_assoc.
      assert (Hall : forallb (fun c => negb (Js.isLineTerminator c))
                       (rev (Js.chars suffix) ++ Path.dot :: rev (Js.chars b)) = true).
      { rewrite forallb_app, forallb_rev, Hsl. simpl. now rewrite forallb_rev. }
      unfold endsLine in Hpre. destruct (rev (Js.chars pre)) as [|c r].
      - rewrite app_nil_r. now apply takeWhile_all.
      - apply takeWhile_app_stop; [exact Hall|]. now rewrite Hpre. }
    rewrite Hline.
    rewrite dropWhile_app_stop; [|now rewrite forallb_rev|reflexivity].
    now rewrite rev_involutive, str_chars.
Qed.

Lemma handler_file_of_last_line_witness :
  getHandlerFile "handlers/func3/module2.func3handler" = Some "handlers/func3/module2".
Proof.
  apply (proj2 (handler_file_of_last_line "handlers/func3/module2.func3handler"
                  "handlers/func3/module2")).
  exists "", "func3handler". repeat split.
Defined.

(** ** Assignment to a property *)

Lemma keys_replace {V} (k : string) (v : V) (o : Obj.t V) :
  Obj.keys (Obj.replace k v o) = Obj.keys o.
Proof.
  induction o as [|[k' v'] o IH]; simpl; [reflexivity|].
  destruct (k =? k')%string; simpl; [reflexivity|now rewrite IH].
Qed.

Lemma In_replace {V} (k : string) (v : V) (o : Obj.t V) (kv : string * V) :
  In kv (Obj.replace k v o) -> kv = (k, v) \/ In kv o.
Proof.
  induction o as [|[k' v'] o IH]; simpl; [tauto|].
  destruct (String.eqb_spec k k') as [->|Hne]; simpl.
  - intros [<-|H]; [now left|right; now right].
  - intros [<-|H]; [right; now left|]. destruct (IH H); [now left|right; now right].
Qed.

Lemma insertIndex_Permutation {V} (n : N) (k : string) (v : V) (o : Obj.t V) :
  Permutation (Obj.insertIndex n k v o) ((k, v) :: o).
Proof.
  induction o as [|[k' v'] o IH]; simpl; [reflexivity|].
  destruct (Js.arrayIndex k') as [n'|]; [|reflexivity].
  destruct (n' <? n)%N; [|reflexivity].
  rewrite IH. apply perm_swap.
Qed.

(** An assignment adds the property or overwrites it, and touches no other. *)
Lemma In_set {V} (k : string) (v : V) (o : Obj.t V) (kv : string * V) :
  In kv (Obj.set k v o) -> kv = (k, v) \/ In kv o.
Proof.
  unfold Obj.set. destruct (Obj.has k o).
  - apply In_replace.
  - destruct (Js.arrayIndex k) as [n|].
    + intros H. apply (Permutation_in _ (insertIndex_Permutation n k v o)) in H.
      destruct H as [<-|H]; [now left|now right].
    + intros H. apply in_app_or in H as [H|[<-|[]]]; [now right|now left].
Qed.

(** The keys of an object stay distinct under assignment. *)
Lemma NoDup_set {V} (k : string) (v : V) (o : Obj.t V) :
  NoDup (Obj.keys o) -> NoDup (Obj.keys (Obj.set k v o)).
Proof.
  intros Hnd. unfold Obj.set. destruct (Obj.has k o) eqn:Hhas.
  - now rewrite keys_replace.
  - apply has_false_iff in Hhas.
    assert (Hnew : NoDup (k :: Obj.keys o)) by now constructor.
    destruct (Js.arrayIndex k) as [n|].
    + apply (Permutation_NoDup (l := k :: Obj.keys o)); [|exact Hnew].
      symmetry. unfold Obj.keys.
      change (k :: map fst o) with (map fst ((k, v) :: o)).
      apply Permutation_map. apply insertIndex_Permutation.
    + unfold Obj.keys. rewrite map_app. simpl.
      apply (Permutation_NoDup (l := k :: Obj.keys o)); [|exact Hnew].
      apply Permutation_cons_append.
Qed.

(** ** What the resolution of an entry does *)

(** The lookup of a function returns a declared function, or for a name
    that every object inherits the property of that name, which has no
    handler; it changes nothing. *)
Lemma getFunction_ok serverless name w f w' :
  getFunction serverless name w = (Ok f, w') ->
  w' = w
  /\ (Obj.get name (functions (service serverless)) = Some f
      \/ (Obj.get name (functions (service serverless)) = None
          /\ Lodash.includes objectPrototype name = true /\ f = inherited)).
Proof.
  unfold getFunction.
  destruct (Obj.get name (functions (service serverless))) as [f0|].
  - unfold ret. intros H. injection H as <- <-. split; [reflexivity|now left].
  - destruct (Lodash.includes objectPrototype name); [|discriminate].
    unfold ret. intros H. injection H as <- <-. split; [reflexivity|right; auto].
Qed.

Lemma getHandlerFile_inherited : getHandlerFile (handler inherited) = None.
Proof. reflexivity. Qed.

(** A resolution that returns has found the function; it has called the
    listing service for the handler file when there is one, has touched
    neither [lib] nor the plugin and has removed nothing; and the entries
    are as before, for a function without handler file, or have the entry
    of the function, a declared one, assigned. *)
Lemma resolveEntry_ok env serverless entries name w entries' w' :
  resolveEntry env serverless entries name w = (Ok entries', w') ->
  exists f,
    getFunction serverless name w = (Ok f, w)
    /\ globCalls w' = (globCalls w ++ patternsOf f)%list
    /\ removeCalls w' = removeCalls w /\ lib w' = lib w /\ this w' = this w
    /\ ((Js.truthy_opt (getHandlerFile (handler f)) = false /\ entries' = entries)
        \/ exists b ext,
             Obj.get name (functions (service serverless)) = Some f
             /\ getHandlerFile (handler f) = Some b /\ Js.truthy b = true
             /\ extensionOf (globbySync env (b ++ ".*") (globCwd env serverless)) = Some ext
             /\ entries' = Obj.set b ("./" ++ b ++ ext) entries).
Proof.
  unfold resolveEntry, bind.
  destruct (getFunction serverless name w) as [[f|e] w0] eqn:Hf; [|discriminate].
  destruct (getFunction_ok _ _ _ _ _ Hf) as [-> Hown].
  intros H. exists f. split; [reflexivity|].
  destruct (Js.truthy_opt (getHandlerFile (handler f))) eqn:Ht.
  - destruct (getHandlerFile (handler f)) as [b|] eqn:Hb; [|discriminate].
    assert (Hget : Obj.get name (functions (service serverless)) = Some f).
    { destruct Hown as [Hown|(_ & _ & ->)]; [exact Hown|].
      rewrite getHandlerFile_inherited in Hb. discriminate Hb. }
    cbn [Js.truthy_opt] in Ht.
    unfold getEntryForFunction in H. cbv zeta in H. rewrite Hb in H.
    cbn [Js.truthy_opt Js.show_opt] in H. rewrite Ht in H. cbn [negb] in H.
    unfold bind in H.
    destruct (globbySync env (b ++ ".*") (globCwd env serverless)) as [|x fs] eqn:Hg.
    + rewrite (getEntryExtension_missing _ _ _ _ Hg) in H. discriminate.
    + destruct (getEntryExtension_found env serverless b w x fs Hg) as (winner & Hw & Hrun).
      rewrite Hrun in H. unfold ret in H. injection H as <- <-.
      unfold patternsOf. rewrite Hb, Ht.
      split; [|split; [|split; [|split]]];
        try (destruct (1 <? _)%nat; reflexivity).
      right. exists b, (Path.extname winner). repeat split; try assumption.
      unfold extensionOf. now rewrite Hg, Hw.
  - rewrite (getEntryForFunction_skipped env serverless name f w Ht) in H.
    unfold ret in H. injection H as <- <-.
    assert (Hp : patternsOf f = []).
    { unfold patternsOf. destruct (getHandlerFile (handler f)) as [b|]; [|reflexivity].
      cbn [Js.truthy_opt] in Ht. now rewrite Ht. }
    rewrite Hp, app_nil_r.
    split; [|split; [|split; [|split]]];
      try (destruct (providerIsGoogle serverless); reflexivity).
    left. split; reflexivity.
Qed.

Lemma getAllFunctions_get serverless name :
  In name (getAllFunctions serverless) ->
  exists f, Obj.get name (functions (service serverless)) = Some f.
Proof.
  unfold getAllFunctions. intros H.
  destruct (Obj.get name (functions (service serverless))) as [f|] eqn:Hg; [eauto|].
  exfalso. assert (Hh : Obj.has name (functions (service serverless)) = false)
    by (unfold Obj.has; now rewrite Hg).
  apply has_false_iff in Hh. contradiction.
Qed.

(** X5. The entries that the resolution returns have distinct keys, and every
    one of them is the entry of a declared function: its key is the handler
    file of the function, not empty, and its value is the key between [./]
    and the extension of the winner among the files found for the key. *)
Theorem entries_are_resolved_from_handlers env serverless options w entries w' :
  resolveEntries env serverless options w = (Ok entries, w') ->
  NoDup (Obj.keys entries)
  /\ Forall (resolvedEntry env serverless) entries
  /\ List.length entries <= List.length (getAllFunctions serverless).
Proof.
  assert (Hstep : forall entries name w entries' w',
             resolveEntry env serverless entries name w = (Ok entries', w') ->
             NoDup (Obj.keys entries) /\ Forall (resolvedEntry env serverless) entries ->
             NoDup (Obj.keys entries') /\ Forall (resolvedEntry env serverless) entries'
             /\ List.length entries' <= S (List.length entries)).
  { clear. intros entries name w entries' w' H [Hnd Hall].
    destruct (resolveEntry_ok _ _ _ _ _ _ _ H)
      as (f & _ & _ & _ & _ & _ & [[_ ->]|(b & ext & Hget & Hb & Ht & He & ->)]).
    - repeat split; [assumption|assumption|lia].
    - split; [now apply NoDup_set|]. split.
      + apply Forall_forall. intros kv Hin. apply In_set in Hin as [->|Hin].
        * repeat split; [exact Ht|exists name, f; now split|exists ext; now split].
        * revert kv Hin. now apply Forall_forall.
      + unfold Obj.set. destruct (Obj.has b entries).
        * assert (E : List.length (Obj.replace b ("./" ++ b ++ ext) entries)
                      = List.length entries).
          { rewrite <- (length_map fst), <- (length_map fst entries).
            f_equal. apply keys_replace. }
          lia.
        * destruct (Js.arrayIndex b) as [n|].
          -- rewrite (Permutation_length (insertIndex_Permutation n b _ entries)).
             simpl. lia.
          -- rewrite length_app. simpl. lia. }
  unfold resolveEntries. destruct (Js.truthy_opt (function options)).
  - intros H. pose proof H as H'.
    apply Hstep in H as (Hnd & Hall & Hlen); [|split; constructor].
    split; [exact Hnd|]. split; [exact Hall|].
    destruct (resolveEntry_ok _ _ _ _ _ _ _ H')
      as (f & _ & _ & _ & _ & _ & [[_ ->]|(b & ext & Hget & _)]); [simpl; lia|].
    unfold getAllFunctions.
    destruct (functions (service serverless)); [discriminate|]. simpl in *. lia.
  - intros H.
    assert (HP : forall names entries w entries' w',
               NoDup (Obj.keys entries) /\ Forall (resolvedEntry env serverless) entries ->
               forEach names (resolveEntry env serverless) entries w = (Ok entries', w') ->
               NoDup (Obj.keys entries') /\ Forall (resolvedEntry env serverless) entries'
               /\ List.length entries' <= List.length names + List.length entries).
    { clear H. induction names as [|name names IH]; simpl; intros e0 w0 e1 w1 Hinv H.
      - unfold ret in H. injection H as <- <-. destruct Hinv. repeat split; auto.
      - unfold bind in H.
        destruct (resolveEntry env serverless e0 name w0) as [[e2|err] w2] eqn:Hr;
          [|discriminate].
        destruct (Hstep _ _ _ _ _ Hr Hinv) as (Hnd & Hall & Hlen).
        destruct (IH _ _ _ _ (conj Hnd Hall) H) as (Hnd' & Hall' & Hlen').
        repeat split; [assumption|assumption|lia]. }
    assert (Hnil : NoDup (Obj.keys (@nil (string * string)))
                   /\ Forall (resolvedEntry env serverless) [])
      by (split; constructor).
    destruct (HP _ _ _ _ _ Hnil H) as (Hnd & Hall & Hlen).
    simpl in Hlen. repeat split; [assumption|assumption|lia].
Qed.

Lemma entries_are_resolved_from_handlers_witness :
  NoDup (Obj.keys Fixture.expectedLibEntries)
  /\ Forall (resolvedEntry (Fixture.envOf Fixture.jsFiles)
               (Fixture.serviceOf Fixture.testFunctionsConfig None false))
       Fixture.expectedLibEntries
  /\ List.length Fixture.expectedLibEntries
     <= List.length (getAllFunctions (Fixture.serviceOf Fixture.testFunctionsConfig None false)).
Proof.
  apply (entries_are_resolved_from_handlers (Fixture.envOf Fixture.jsFiles)
           (Fixture.serviceOf Fixture.testFunctionsConfig None false)
           Fixture.noOptions Fixture.fresh Fixture.expectedLibEntries
           (snd (resolveEntries (Fixture.envOf Fixture.jsFiles)
                   (Fixture.serviceOf Fixture.testFunctionsConfig None false)
                   Fixture.noOptions Fixture.fresh))).
  vm_compute. reflexivity.
Defined.

(** ** The calls of the listing service *)

Lemma resolve_all_calls env serverless (todo : list (string * ServerlessFunction)) :
  forall entries w entries' w',
    (forall nf, In nf todo ->
                Obj.get (fst nf) (functions (service serverless)) = Some (snd nf)) ->
    forEach (map fst todo) (resolveEntry env serverless) entries w = (Ok entries', w') ->
    globCalls w' = (globCalls w ++ flat_map (fun nf => patternsOf (snd nf)) todo)%list
    /\ removeCalls w' = removeCalls w /\ lib w' = lib w /\ this w' = this w.
Proof.
  induction todo as [|nf todo IH]; simpl; intros entries w entries' w' Hget H.
  - unfold ret in H. injection H as _ <-. rewrite app_nil_r. repeat split.
  - unfold bind in H.
    destruct (resolveEntry env serverless entries (fst nf) w) as [[e1|err] w1] eqn:Hr;
      [|discriminate].
    destruct (resolveEntry_ok _ _ _ _ _ _ _ Hr) as (f & Hf & Hg & Hrm & Hlib & Hthis & _).
    rewrite (getFunction_found serverless (fst nf) (snd nf) w
               (Hget nf (or_introl eq_refl))) in Hf.
    injection Hf as <-.
    destruct (IH _ _ _ _ (fun nf' Hin => Hget nf' (or_intror Hin)) H)
      as (Hg' & Hrm' & Hlib' & Hthis').
    rewrite Hg', Hg, Hrm', Hrm, Hlib', Hlib, Hthis', Hthis, app_assoc.
    repeat split.
Qed.

(** X6. When no function is selected, an entry resolution that returns has
    called the listing service once for every declared function with a
    handler file, in the order of the functions, with the handler file
    followed by [.*] as pattern (a handler file that several functions share
    is listed once for each of them); it has removed nothing and has written
    neither [lib] nor the plugin. *)
Theorem one_listing_for_every_handler_file env serverless options w entries w' :
  Js.truthy_opt (function options) = false ->
  NoDup (Obj.keys (functions (service serverless))) ->
  resolveEntries env serverless options w = (Ok entries, w') ->
  globCalls w' =
  (globCalls w ++ flat_map (fun nf => patternsOf (snd nf)) (functions (service serverless)))%list
  /\ removeCalls w' = removeCalls w /\ lib w' = lib w /\ this w' = this w.
Proof.
  intros Hsel Hnd H. unfold resolveEntries in H. rewrite Hsel in H.
  apply (resolve_all_calls env serverless _ [] w entries w'); [|exact H].
  intros nf Hin. now apply functions_get.
Qed.

Lemma one_listing_for_every_handler_file_witness :
  globCalls (snd (resolveEntries (Fixture.envOf Fixture.jsFiles)
                    (Fixture.serviceOf
                       (("queue", {| handler := "receive"; artifact := None |})
                          :: ("copy", Fixture.fn "module1.other" "artifact-copy.zip")
                          :: Fixture.testFunctionsConfig) None false)
                    Fixture.noOptions Fixture.fresh)) =
  ["module1.*"; "module1.*"; "module2.*"; "handlers/func3/module2.*";
   "handlers/module2/func3/module2.*"].
Proof.
  refine (proj1 (one_listing_for_every_handler_file (Fixture.envOf Fixture.jsFiles)
                   (Fixture.serviceOf
                      (("queue", {| handler := "receive"; artifact := None |})
                         :: ("copy", Fixture.fn "module1.other" "artifact-copy.zip")
                         :: Fixture.testFunctionsConfig) None false)
                   Fixture.noOptions Fixture.fresh
                   Fixture.expectedLibEntries _ eq_refl _ _)).
  - apply distinct_NoDup. vm_compute. reflexivity.
  - vm_compute. reflexivity.
Defined.

(** ** A selected function *)

Lemma merge_into_empty (entry : Obj.t string) :
  entry = [] \/ (exists k v, entry = [(k, v)]) -> Obj.merge [] entry = entry.
Proof.
  intros [->|(k & v & ->)]; [reflexivity|].
  unfold Obj.merge. simpl. unfold Obj.set. simpl.
  destruct (Js.arrayIndex k); reflexivity.
Qed.

Lemma getEntryForFunction_shape env serverless name f w entry w' :
  getEntryForFunction env serverless name f w = (Ok entry, w') ->
  entry = [] \/ exists k v, entry = [(k, v)].
Proof.
  unfold getEntryForFunction. cbv zeta. destruct (negb _).
  - unfold bind, when. destruct (negb (providerIsGoogle serverless)); simpl;
      intros H; injection H as <- _; now left.
  - unfold bind. destruct (getEntryExtension _ _ _ _) as [[ext|e] w1]; [|discriminate].
    unfold ret. intros H. injection H as <- _. right. eauto.
Qed.

(** X7. With a function selected, the entry resolution is the resolution of
    the entry of that function alone: the other functions are not looked at,
    at most one entry is returned and the listing service is called at most
    once.  The framework looks the selected name up with [in], own and
    inherited properties alike.  A name that is no property of the functions
    at all makes [validate] throw the error of the framework, before
    anything but the configuration option is taken.  A name that is not
    declared but inherited by every object ([toString], [constructor], ...)
    is found: what is found has no handler, so the resolution returns no
    entry, calls no service and logs the warning with the handler
    [undefined], unless the provider is Google. *)
Theorem selected_function_is_resolved_alone env serverless options name :
  function options = Some name -> Js.truthy name = true ->
  (forall f w,
     Obj.get name (functions (service serverless)) = Some f ->
     resolveEntries env serverless options w = getEntryForFunction env serverless name f w
     /\ forall entries w',
          resolveEntries env serverless options w = (Ok entries, w') ->
          List.length entries <= 1
          /\ globCalls w' = (globCalls w ++ patternsOf f)%list)
  /\ (forall keep w,
        Obj.get name (functions (service serverless)) = None ->
        Lodash.includes objectPrototype name = false ->
        validate env serverless options keep w =
        (Throw (ServerlessError
                  ("Function " ++ dq ++ name ++ dq ++ " doesn't exist in this Service")),
         started serverless w))
  /\ (forall w,
        Obj.get name (functions (service serverless)) = None ->
        Lodash.includes objectPrototype name = true ->
        resolveEntries env serverless options w =
        (Ok [],
         if providerIsGoogle serverless then w
         else setCliLog (fun l => (l ++ [entryWarning name "undefined"])%list) w)).
Proof.
  intros Hsel Ht.
  assert (Hres : forall w, resolveEntries env serverless options w =
                           resolveEntry env serverless [] name w).
  { intros w. unfold resolveEntries. rewrite Hsel. cbn [Js.truthy_opt Js.show_opt].
    now rewrite Ht. }
  split; [|split].
  - intros f w Hget. split.
    + rewrite Hres. unfold resolveEntry, bind.
      rewrite (getFunction_found serverless name f w Hget).
      destruct (getEntryForFunction env serverless name f w) as [[entry|e] w1] eqn:He;
        [|reflexivity].
      unfold ret. now rewrite (merge_into_empty _ (getEntryForFunction_shape _ _ _ _ _ _ _ He)).
    + intros entries w' H. rewrite Hres in H.
      destruct (resolveEntry_ok _ _ _ _ _ _ _ H)
        as (f' & Hf' & Hg & _ & _ & _ & [[_ ->]|(b & ext & _ & _ & _ & _ & ->)]);
        rewrite (getFunction_found serverless name f w Hget) in Hf'; injection Hf' as <-.
      * split; [simpl; lia|exact Hg].
      * split; [|exact Hg]. unfold Obj.set. simpl.
        destruct (Js.arrayIndex b); simpl; lia.
  - intros keep w Hget Hno. rewrite validate_stages, Hres.
    unfold resolveEntry, bind, getFunction. now rewrite Hget, Hno.
  - intros w Hget Hin. rewrite Hres.
    unfold resolveEntry, bind, getFunction. rewrite Hget, Hin. unfold ret at 1.
    rewrite (getEntryForFunction_skipped env serverless name inherited w eq_refl).
    reflexivity.
Qed.

Lemma selected_function_is_resolved_alone_witness :
  resolveEntries (Fixture.envOf Fixture.module2Missing)
    (Fixture.serviceOf Fixture.testFunctionsConfig None false)
    {| function := Some "func1"; out := None; verbose := false; stage := None |}
    Fixture.fresh =
  getEntryForFunction (Fixture.envOf Fixture.module2Missing)
    (Fixture.serviceOf Fixture.testFunctionsConfig None false)
    "func1" (Fixture.fn "module1.func1handler" "artifact-func1.zip") Fixture.fresh
  /\ validate (Fixture.envOf Fixture.jsFiles)
       (Fixture.serviceOf Fixture.testFunctionsConfig None false)
       {| function := Some "test"; out := None; verbose := false; stage := None |}
       false Fixture.fresh =
     (Throw (ServerlessError ("Function " ++ dq ++ "test" ++ dq ++ " doesn't exist in this Service")),
      started (Fixture.serviceOf Fixture.testFunctionsConfig None false) Fixture.fresh)
  /\ resolveEntries (Fixture.envOf Fixture.jsFiles)
       (Fixture.serviceOf Fixture.testFunctionsConfig None false)
       {| function := Some "toString"; out := None; verbose := false; stage := None |}
       Fixture.fresh =
     (Ok [], setCliLog (fun l => (l ++ [entryWarning "toString" "undefined"])%list)
               Fixture.fresh).
Proof.
  split; [|split].
  - apply (proj1 (selected_function_is_resolved_alone
                    (Fixture.envOf Fixture.module2Missing)
                    (Fixture.serviceOf Fixture.testFunctionsConfig None false)
                    {| function := Some "func1"; out := None; verbose := false; stage := None |}
                    "func1" eq_refl eq_refl)).
    reflexivity.
  - apply (proj1 (proj2 (selected_function_is_resolved_alone
                    (Fixture.envOf Fixture.jsFiles)
                    (Fixture.serviceOf Fixture.testFunctionsConfig None false)
                    {| function := Some "test"; out := None; verbose := false; stage := None |}
                    "test" eq_refl eq_refl))); reflexivity.
  - apply (proj2 (proj2 (selected_function_is_resolved_alone
                    (Fixture.envOf Fixture.jsFiles)
                    (Fixture.serviceOf Fixture.testFunctionsConfig None false)
                    {| function := Some "toString"; out := None; verbose := false;
                       stage := None |}
                    "toString" eq_refl eq_refl))); reflexivity.
Defined.

(** ** How the fan-out can fail *)

Lemma mapM_throws {A B} (P : Error -> Prop) (f : A -> M B) (l : list A) :
  (forall a w e w', In a l -> f a w = (Throw e, w') -> P e) ->
  forall w e w', mapM f l w = (Throw e, w') -> P e.
Proof.
  induction l as [|a l IH]; simpl; intros Hf w e w' H; [discriminate|].
  unfold bind in H. destruct (f a w) as [[b|e1] w1] eqn:Hfa.
  - destruct (mapM f l w1) as [[bs|e2] w2] eqn:Hm; [discriminate|].
    injection H as <- _.
    apply (IH (fun a w e w' Hin => Hf a w e w' (or_intror Hin)) w1 e2 w2 Hm).
  - injection H as <- _. apply (Hf a w e1 w1); [now left|exact Hfa].
Qed.

Lemma forEach_throws {A S} (P : Error -> Prop) (f : S -> A -> M S) (l : list A) :
  (forall s a w e w', f s a w = (Throw e, w') -> P e) ->
  forall s w e w', forEach l f s w = (Throw e, w') -> P e.
Proof.
  intros Hf. induction l as [|a l IH]; simpl; intros s w e w' H; [discriminate|].
  unfold bind in H. destruct (f s a w) as [[s1|e1] w1] eqn:Hfa.
  - apply (IH s1 w1 e w' H).
  - injection H as <- _. apply (Hf s a w e1 w1 Hfa).
Qed.

(** The functions that are looked up are the declared ones, so the lookup
    throws for a missing handler file only. *)
Lemma allEntryFunctions_throws env serverless w e w' :
  allEntryFunctions env serverless w = (Throw e, w') -> e = TypeError.
Proof.
  unfold allEntryFunctions.
  apply (mapM_throws (fun e => e = TypeError)).
  intros name w0 e0 w0' Hin H.
  destruct (getAllFunctions_get serverless name Hin) as [f Hf].
  unfold bind in H. rewrite (getFunction_found serverless name f w0 Hf) in H.
  destruct (getHandlerFile (handler f)); [discriminate|].
  unfold throw in H. now injection H as <- _.
Qed.

Lemma fanOut_throws env serverless c entries w e :
  fst (fanOut env serverless c entries w) = Throw e ->
  e = TypeError \/ e = RegExpSyntaxError.
Proof.
  unfold fanOut, bind at 1.
  destruct (allEntryFunctions env serverless w) as [[all|e0] w0] eqn:Hall.
  - unfold bind at 1.
    destruct (forEach entries (bindEntry env) (all, []) w0) as [[bound|e1] w1] eqn:Hb.
    + unfold bind, modify.
      destruct (mapM _ _ _) as [[configs|e2] w2] eqn:Hm; [discriminate|].
      simpl. intros H. injection H as <-. left.
      revert Hm. apply (mapM_throws (fun e => e = TypeError)).
      intros b w3 e3 w3' _ H. unfold lift in H.
      unfold configFor in H. destruct (entryRef b); [|now injection H as <- _].
      destruct (path _); [discriminate|now injection H as <- _].
    + simpl. intros H. injection H as <-. right.
      revert Hb. apply (forEach_throws (fun e => e = RegExpSyntaxError)).
      intros [all' refs] [k v] w3 e3 w3' H. unfold bindEntry, bind, lift in H.
      destruct (stripExtension env _) as [file|e4] eqn:Hs.
      * destruct (matchingFrom _ _ _); discriminate.
      * injection H as <- _. unfold stripExtension in Hs.
        destruct (Js.chars (Path.extname _)) as [|d lit]; [discriminate|].
        destruct (_ && _).
        -- destruct (rev _); [discriminate|]. destruct (_ && _); discriminate.
        -- destruct (regExpReplace _ _ _); [discriminate|]. now injection Hs as <-.
  - simpl. intros H. injection H as <-. left.
    apply (allEntryFunctions_throws _ _ _ _ _ Hall).
Qed.

(** ** The removal of the output directory *)

(** X8. Once the entries are resolved and the configuration is loaded, with
    an output path [p] after the defaults and the option of the output
    directory: [validate] has removed the directory [p] exactly once, or not
    at all when the output directory is kept, and has noted [p] as the output
    path of the plugin, whatever it does afterwards (it resolves, it is
    rejected for a conflicting entry, or the fan-out throws).  The directory
    removed is the output path as configured, before [service] or the name of
    a function is joined to it. *)
Theorem output_directory_is_removed_once env serverless options keep w entries w1 c0 w2 p :
  resolveEntries env serverless options (started serverless w) = (Ok entries, w1) ->
  loadConfig env serverless (exposed serverless options entries w1) = (Ok (inl c0), w2) ->
  path (outputOf serverless (withDefaults serverless options c0)) = Some p ->
  removeCalls (snd (validate env serverless options keep w)) =
  (removeCalls w ++ (if keep then [] else [Some p]))%list
  /\ webpackOutputPath (this (snd (validate env serverless options keep w))) = Some (Some p).
Proof.
  intros Hent Hload Hp.
  assert (Hrm : removeCalls w2 = removeCalls w).
  { pose proof (leaves_loadConfig removeCalls env serverless
                  (fun _ _ => eq_refl) (fun _ _ => eq_refl)
                  (exposed serverless options entries w1)) as H2.
    pose proof (leaves_resolveEntries removeCalls env serverless options
                  (fun _ _ => eq_refl) (fun _ _ => eq_refl) (started serverless w)) as H1.
    rewrite Hload in H2. rewrite Hent in H1. simpl in H1, H2. congruence. }
  rewrite validate_stages, Hent, Hload, configure_run by (right; now exists p).
  assert (Hprm : removeCalls (individually options (prepared serverless options keep c0 w2))
                 = (removeCalls w ++ (if keep then [] else [Some p]))%list
                 /\ removeCalls (prepared serverless options keep c0 w2)
                    = (removeCalls w ++ (if keep then [] else [Some p]))%list).
  { unfold individually, prepared. cbv zeta. rewrite Hp, <- Hrm.
    destruct keep, (verbose options);
      cbn [removeCalls setThis setCliLog setRemoveCalls];
      rewrite removeCalls_written, ?app_nil_r; split; reflexivity. }
  assert (Hout : webpackOutputPath
                   (this (individually options (prepared serverless options keep c0 w2)))
                 = Some (Some p)
                 /\ webpackOutputPath (this (prepared serverless options keep c0 w2))
                    = Some (Some p)).
  { unfold individually, prepared. cbv zeta. rewrite Hp.
    destruct keep, (verbose options); simpl; split; reflexivity. }
  destruct Hprm as [Hrm1 Hrm2], Hout as [Hout1 Hout2].
  destruct (packageIndividually (service serverless)).
  - destruct (entryConflicts _ _); [simpl; now split|].
    rewrite (leaves_fanOut removeCalls env serverless _ entries
               (fun _ _ => eq_refl) (fun _ _ => eq_refl)).
    rewrite (leaves_fanOut (fun w => webpackOutputPath (this w)) env serverless _ entries
               (fun _ _ => eq_refl) (fun _ _ => eq_refl)).
    now split.
  - rewrite Hp. cbn [snd]. rewrite removeCalls_written, this_written. now split.
Qed.

Lemma output_directory_is_removed_once_witness :
  removeCalls (snd (validate (Fixture.envOf Fixture.jsFiles)
                      (Fixture.serviceOf Fixture.testFunctionsConfig
                         (Some (ConfigInline Fixture.customisedEntry)) true)
                      Fixture.noOptions false Fixture.fresh)) = [Some "output"]
  /\ webpackOutputPath
       (this (snd (validate (Fixture.envOf Fixture.jsFiles)
                     (Fixture.serviceOf Fixture.testFunctionsConfig
                        (Some (ConfigInline Fixture.customisedEntry)) true)
                     Fixture.noOptions false Fixture.fresh))) = Some (Some "output").
Proof.
  apply (output_directory_is_removed_once (Fixture.envOf Fixture.jsFiles)
           (Fixture.serviceOf Fixture.testFunctionsConfig
              (Some (ConfigInline Fixture.customisedEntry)) true)
           Fixture.noOptions false Fixture.fresh Fixture.expectedLibEntries
           (snd (resolveEntries (Fixture.envOf Fixture.jsFiles)
                   (Fixture.serviceOf Fixture.testFunctionsConfig
                      (Some (ConfigInline Fixture.customisedEntry)) true)
                   Fixture.noOptions
                   (started (Fixture.serviceOf Fixture.testFunctionsConfig
                               (Some (ConfigInline Fixture.customisedEntry)) true)
                      Fixture.fresh)))
           Fixture.customisedEntry
           (exposed (Fixture.serviceOf Fixture.testFunctionsConfig
                       (Some (ConfigInline Fixture.customisedEntry)) true)
              Fixture.noOptions Fixture.expectedLibEntries
              (snd (resolveEntries (Fixture.envOf Fixture.jsFiles)
                      (Fixture.serviceOf Fixture.testFunctionsConfig
                         (Some (ConfigInline Fixture.customisedEntry)) true)
                      Fixture.noOptions
                      (started (Fixture.serviceOf Fixture.testFunctionsConfig
                                  (Some (ConfigInline Fixture.customisedEntry)) true)
                         Fixture.fresh))))
           "output").
  - vm_compute. reflexivity.
  - reflexivity.
  - reflexivity.
Defined.

(** ** The failures of [validate] *)

Lemma resolveEntry_throws env serverless entries name w e w' :
  resolveEntry env serverless entries name w = (Throw e, w') ->
  (Obj.get name (functions (service serverless)) = None
   /\ e = ServerlessError (functionDoesNotExist name))
  \/ exists b, e = ServerlessError (noMatchingHandler b).
Proof.
  unfold resolveEntry, bind, getFunction.
  destruct (Obj.get name (functions (service serverless))) as [f|].
  - unfold ret at 1. intros H. right.
    destruct (getEntryForFunction env serverless name f w) as [[entry|e1] w1] eqn:He;
      [discriminate|].
    injection H as <- _.
    unfold getEntryForFunction in He. cbv zeta in He.
    destruct (negb (Js.truthy_opt (getHandlerFile (handler f)))).
    + unfold bind, when in He. destruct (negb (providerIsGoogle serverless)); discriminate.
    + unfold bind in He.
      destruct (globbySync env (Js.show_opt (getHandlerFile (handler f)) ++ ".*")
                  (globCwd env serverless)) as [|x fs] eqn:Hg.
      * rewrite (getEntryExtension_missing _ _ _ _ Hg) in He. injection He as <- _.
        eexists. reflexivity.
      * destruct (getEntryExtension_found env serverless _ w x fs Hg) as (winner & _ & Hrun).
        rewrite Hrun in He. discriminate.
  - destruct (Lodash.includes objectPrototype name).
    + unfold ret at 1.
      rewrite (getEntryForFunction_skipped env serverless name inherited w eq_refl).
      discriminate.
    + unfold throw. intros H. injection H as <- _. left. now split.
Qed.

Lemma resolveEntries_throws env serverless options w e w' :
  resolveEntries env serverless options w = (Throw e, w') ->
  (exists name, function options = Some name
                /\ e = ServerlessError (functionDoesNotExist name))
  \/ exists b, e = ServerlessError (noMatchingHandler b).
Proof.
  unfold resolveEntries. destruct (function options) as [name|] eqn:Hsel;
    cbn [Js.truthy_opt Js.show_opt].
  - destruct (Js.truthy name).
    + intros H. apply resolveEntry_throws in H as [[_ ->]|H]; [left; eauto|now right].
    + intros H. right. revert H.
      assert (Hall : forall names, Forall (fun n => In n (getAllFunctions serverless)) names ->
                forall entries w e w',
                  forEach names (resolveEntry env serverless) entries w = (Throw e, w') ->
                  exists b, e = ServerlessError (noMatchingHandler b)).
      { induction names as [|n names IH]; simpl; intros HF entries w0 e0 w0' H;
          [discriminate|].
        inversion HF as [|? ? Hn HF']; subst. unfold bind in H.
        destruct (resolveEntry env serverless entries n w0) as [[e1|err] w1] eqn:Hr.
        - apply (IH HF' _ _ _ _ H).
        - injection H as <- _. apply resolveEntry_throws in Hr as [[Hnone _]|Hr]; [|exact Hr].
          destruct (getAllFunctions_get serverless n Hn) as [f Hf]. congruence. }
      apply Hall. apply Forall_forall. trivial.
  - intros H. right. revert H.
    assert (Hall : forall names, Forall (fun n => In n (getAllFunctions serverless)) names ->
              forall entries w e w',
                forEach names (resolveEntry env serverless) entries w = (Throw e, w') ->
                exists b, e = ServerlessError (noMatchingHandler b)).
    { induction names as [|n names IH]; simpl; intros HF entries w0 e0 w0' H;
        [discriminate|].
      inversion HF as [|? ? Hn HF']; subst. unfold bind in H.
      destruct (resolveEntry env serverless entries n w0) as [[e1|err] w1] eqn:Hr.
      - apply (IH HF' _ _ _ _ H).
      - injection H as <- _. apply resolveEntry_throws in Hr as [[Hnone _]|Hr]; [|exact Hr].
        destruct (getAllFunctions_get serverless n Hn) as [f Hf]. congruence. }
    apply Hall. apply Forall_forall. trivial.
Qed.

Lemma loadConfig_outcomes env serverless w :
  (exists c, fst (loadConfig env serverless w) = Ok (inl c))
  \/ (exists cause, fst (loadConfig env serverless w) = Ok (inr (LoadError cause)))
  \/ (exists file, fst (loadConfig env serverless w)
                   = Throw (ServerlessError (configurationNotFound file))).
Proof.
  unfold loadConfig. destruct (configSource serverless) as [file|c].
  - destruct (negb _).
    + right. right. eexists. reflexivity.
    + destruct (requireConfig _ _ _) as [c|err]; [left|right; left]; eexists; reflexivity.
  - left. eexists. reflexivity.
Qed.

(** [configure] resolves, is rejected for a conflicting entry, or throws
    the error of a value that is missing, of a pattern that is malformed or
    of the removal of a missing path. *)
Lemma configure_outcomes env serverless options keep c0 entries w :
  fst (configure env serverless options keep c0 entries w) = Ok Resolved
  \/ (fst (configure env serverless options keep c0 entries w)
      = Ok (Rejected entryMustBeResolved)
      /\ packageIndividually (service serverless) = true)
  \/ fst (configure env serverless options keep c0 entries w) = Throw TypeError
  \/ fst (configure env serverless options keep c0 entries w) = Throw RegExpSyntaxError
  \/ fst (configure env serverless options keep c0 entries w)
     = Throw (AssertionError "rimraf: missing path").
Proof.
  assert (Hrun : keep = true
                 \/ (exists p, path (outputOf serverless
                                       (withDefaults serverless options c0)) = Some p) ->
                 fst (configure env serverless options keep c0 entries w) = Ok Resolved
                 \/ (fst (configure env serverless options keep c0 entries w)
                     = Ok (Rejected entryMustBeResolved)
                     /\ packageIndividually (service serverless) = true)
                 \/ fst (configure env serverless options keep c0 entries w) = Throw TypeError
                 \/ fst (configure env serverless options keep c0 entries w)
                    = Throw RegExpSyntaxError).
  { intros Hrm. rewrite configure_run by exact Hrm.
    destruct (packageIndividually (service serverless)).
    - destruct (entryConflicts _ _); [right; left; now split|].
      destruct (fanOut_never_rejects env serverless (withDefaults serverless options c0)
                  entries (individually options (prepared serverless options keep c0 w)))
        as [H|[e H]]; [now left|].
      destruct (fanOut_throws _ _ _ _ _ _ H) as [-> | ->]; rewrite H; tauto.
    - destruct (path _); simpl; tauto. }
  destruct keep; [specialize (Hrun (or_introl eq_refl)); tauto|].
  destruct (path (outputOf serverless (withDefaults serverless options c0))) as [p|] eqn:Hp.
  - specialize (Hrun (or_intror (ex_intro _ p eq_refl))). tauto.
  - rewrite (configure_refused _ _ _ _ _ _ Hp). simpl. tauto.
Qed.

(** X9. The failures of [validate].  The promise is rejected only with the
    error of the loader of the configuration file or, with individual
    packaging, with the error of a conflicting entry.  An error of the
    framework that [validate] throws is the error of a handler file without
    candidate, of a selected function that is not declared, or of a
    configuration file that is missing. *)
Theorem failures_of_validate env serverless options keep w :
  (forall e,
     fst (validate env serverless options keep w) = Ok (Rejected e) ->
     (exists cause, e = LoadError cause)
     \/ (e = entryMustBeResolved /\ packageIndividually (service serverless) = true))
  /\ (forall m,
        fst (validate env serverless options keep w) = Throw (ServerlessError m) ->
        (exists b, m = noMatchingHandler b)
        \/ (exists name, function options = Some name /\ m = functionDoesNotExist name)
        \/ (exists file, m = configurationNotFound file)).
Proof.
  rewrite validate_stages.
  destruct (resolveEntries env serverless options (started serverless w))
    as [[entries|e0] w1] eqn:Hent.
  - pose proof (loadConfig_outcomes env serverless (exposed serverless options entries w1))
      as Hload.
    destruct (loadConfig env serverless (exposed serverless options entries w1))
      as [[[c|err]|e1] w2]; simpl in Hload.
    + pose proof (configure_outcomes env serverless options keep c entries w2) as Hc.
      split; intros e H; rewrite H in Hc.
      * destruct Hc as [Hc|[[Hc Hi]|[Hc|[Hc|Hc]]]]; try discriminate.
        injection Hc as ->. right. now split.
      * destruct Hc as [Hc|[[Hc Hi]|[Hc|[Hc|Hc]]]]; discriminate.
    + split; intros e H; simpl in H; [|discriminate]. injection H as <-.
      destruct Hload as [[c H]|[[cause H]|[file H]]]; try discriminate.
      injection H as ->. left. eauto.
    + split; intros e H; simpl in H; [discriminate|]. injection H as ->.
      destruct Hload as [[c H]|[[cause H]|[file H]]]; try discriminate.
      injection H as ->. right. right. eauto.
  - split; intros e H; simpl in H; [discriminate|]. injection H as ->.
    destruct (resolveEntries_throws _ _ _ _ _ _ Hent) as [(name & Hn & H)|(b & H)];
      injection H as ->; [right; left|left]; eauto.
Qed.

Lemma failures_of_validate_witness :
  (exists b, "The webpack plugin could not find the configuration file at: testpath/webpack.config.js"
             = noMatchingHandler b)
  \/ (exists name,
        function Fixture.noOptions = Some name
        /\ "The webpack plugin could not find the configuration file at: testpath/webpack.config.js"
           = functionDoesNotExist name)
  \/ (exists file,
        "The webpack plugin could not find the configuration file at: testpath/webpack.config.js"
        = configurationNotFound file).
Proof.
  apply (proj2 (failures_of_validate Fixture.missingFile
                  (Fixture.serviceOf Fixture.testFunctionsConfig None false)
                  Fixture.noOptions false Fixture.fresh)).
  vm_compute. reflexivity.
Defined.

(** X10. When [validate] throws the error of the framework (a handler file
    without candidate, a selected function that is not declared, a
    configuration file that is missing), or is rejected with the error of the
    loader, the output directory has not been removed, and neither the
    output path nor the flag of individual packaging nor the functions of
    the entries have been written to the plugin. *)
Theorem early_failures_remove_nothing env serverless options keep w :
  (exists m, fst (validate env serverless options keep w) = Throw (ServerlessError m))
  \/ (exists cause,
        fst (validate env serverless options keep w) = Ok (Rejected (LoadError cause))) ->
  removeCalls (snd (validate env serverless options keep w)) = removeCalls w
  /\ multiCompile (this (snd (validate env serverless options keep w))) = multiCompile (this w)
  /\ entryFunctions (this (snd (validate env serverless options keep w)))
     = entryFunctions (this w)
  /\ webpackOutputPath (this (snd (validate env serverless options keep w)))
     = webpackOutputPath (this w).
Proof.
  intros Hfail.
  assert (Hgoal : afterLoad (snd (validate env serverless options keep w)) = afterLoad w).
  { rewrite validate_stages in *.
    pose proof (leaves_resolveEntries afterLoad env serverless options
                  (fun _ _ => eq_refl) (fun _ _ => eq_refl) (started serverless w)) as H1.
    destruct (resolveEntries env serverless options (started serverless w))
      as [[entries|e0] w1]; simpl in H1; [|exact H1].
    pose proof (leaves_loadConfig afterLoad env serverless
                  (fun _ _ => eq_refl) (fun _ _ => eq_refl)
                  (exposed serverless options entries w1)) as H2.
    destruct (loadConfig env serverless (exposed serverless options entries w1))
      as [[[c|err]|e1] w2]; simpl in H2;
      try (simpl; rewrite H2; exact H1).
    exfalso.
    destruct (configure_outcomes env serverless options keep c entries w2)
      as [Hc|[[Hc _]|[Hc|[Hc|Hc]]]];
      destruct Hfail as [[m Hf]|[cause Hf]]; rewrite Hc in Hf; discriminate. }
  unfold afterLoad in Hgoal. injection Hgoal; intros. repeat split; assumption.
Qed.

Lemma early_failures_remove_nothing_witness :
  removeCalls (snd (validate Fixture.missingFile
                      (Fixture.serviceOf Fixture.testFunctionsConfig None true)
                      Fixture.noOptions false Fixture.fresh)) = []
  /\ multiCompile (this (snd (validate Fixture.missingFile
                                (Fixture.serviceOf Fixture.testFunctionsConfig None true)
                                Fixture.noOptions false Fixture.fresh))) = None
  /\ entryFunctions (this (snd (validate Fixture.missingFile
                                  (Fixture.serviceOf Fixture.testFunctionsConfig None true)
                                  Fixture.noOptions false Fixture.fresh))) = None
  /\ webpackOutputPath (this (snd (validate Fixture.missingFile
                                     (Fixture.serviceOf Fixture.testFunctionsConfig None true)
                                     Fixture.noOptions false Fixture.fresh))) = None.
Proof.
  apply (early_failures_remove_nothing Fixture.missingFile
           (Fixture.serviceOf Fixture.testFunctionsConfig None true)
           Fixture.noOptions false Fixture.fresh).
  left. eexists. vm_compute. reflexivity.
Defined.

(** ** The messages of the second half *)

(** X11. Once the entries are resolved and the configuration is loaded, with
    an output path [p] after the defaults: [validate] logs nothing more
    unless the option [verbose] is set, and with it the message of the
    removal of [p], unless the output directory is kept, and then the message
    of individual packaging, when the service asks for it.  Neither the
    fan-out nor a rejection logs anything. *)
Theorem messages_after_the_configuration env serverless options keep w entries w1 c0 w2 p :
  resolveEntries env serverless options (started serverless w) = (Ok entries, w1) ->
  loadConfig env serverless (exposed serverless options entries w1) = (Ok (inl c0), w2) ->
  path (outputOf serverless (withDefaults serverless options c0)) = Some p ->
  cliLog (snd (validate env serverless options keep w)) =
  (cliLog w2
   ++ if verbose options
      then (if keep then [] else [("Removing " ++ p)%string])
           ++ (if packageIndividually (service serverless)
               then ["Using multi-compile (individual packaging)"] else [])
      else [])%list.
Proof.
  intros Hent Hload Hp.
  rewrite validate_stages, Hent, Hload, configure_run by (right; now exists p).
  assert (Hprep : cliLog (prepared serverless options keep c0 w2) =
                  (cliLog w2 ++ if verbose options
                                then (if keep then [] else [("Removing " ++ p)%string])
                                else [])%list).
  { unfold prepared. cbv zeta. rewrite Hp.
    destruct keep, (verbose options);
      cbn [cliLog setThis setCliLog setRemoveCalls Js.show_opt];
      rewrite cliLog_written, ?app_nil_r; reflexivity. }
  assert (Hind : cliLog (individually options (prepared serverless options keep c0 w2)) =
                 (cliLog w2 ++ if verbose options
                               then (if keep then [] else [("Removing " ++ p)%string])
                                    ++ ["Using multi-compile (individual packaging)"]
                               else [])%list).
  { unfold individually. destruct (verbose options);
      cbn [cliLog setThis setCliLog]; rewrite Hprep.
    - now rewrite <- app_assoc.
    - reflexivity. }
  destruct (packageIndividually (service serverless)).
  - destruct (entryConflicts _ _); [exact Hind|].
    rewrite (leaves_fanOut cliLog env serverless _ entries
               (fun _ _ => eq_refl) (fun _ _ => eq_refl)).
    exact Hind.
  - rewrite Hp. cbn [snd]. rewrite cliLog_written, Hprep.
    destruct (verbose options); [|reflexivity].
    now rewrite app_nil_r.
Qed.

Lemma messages_after_the_configuration_witness :
  cliLog (snd (validate (Fixture.envOf Fixture.jsFiles)
                 (Fixture.serviceOf Fixture.testFunctionsConfig
                    (Some (ConfigInline Fixture.testConfig)) true)
                 {| function := None; out := None; verbose := true; stage := None |}
                 false Fixture.fresh)) =
  ["Removing output"; "Using multi-compile (individual packaging)"].
Proof.
  apply (messages_after_the_configuration (Fixture.envOf Fixture.jsFiles)
           (Fixture.serviceOf Fixture.testFunctionsConfig
              (Some (ConfigInline Fixture.testConfig)) true)
           {| function := None; out := None; verbose := true; stage := None |}
           false Fixture.fresh Fixture.expectedLibEntries
           (snd (resolveEntries (Fixture.envOf Fixture.jsFiles)
                   (Fixture.serviceOf Fixture.testFunctionsConfig
                      (Some (ConfigInline Fixture.testConfig)) true)
                   {| function := None; out := None; verbose := true; stage := None |}
                   (started (Fixture.serviceOf Fixture.testFunctionsConfig
                               (Some (ConfigInline Fixture.testConfig)) true)
                      Fixture.fresh)))
           Fixture.testConfig
           (exposed (Fixture.serviceOf Fixture.testFunctionsConfig
                       (Some (ConfigInline Fixture.testConfig)) true)
              {| function := None; out := None; verbose := true; stage := None |}
              Fixture.expectedLibEntries
              (snd (resolveEntries (Fixture.envOf Fixture.jsFiles)
                      (Fixture.serviceOf Fixture.testFunctionsConfig
                         (Some (ConfigInline Fixture.testConfig)) true)
                      {| function := None; out := None; verbose := true; stage := None |}
                      (started (Fixture.serviceOf Fixture.testFunctionsConfig
                                  (Some (ConfigInline Fixture.testConfig)) true)
                         Fixture.fresh))))
           "output").
  - vm_compute. reflexivity.
  - reflexivity.
  - reflexivity.
Defined.

(** ** Individual packaging and functions without handler file *)

Lemma get_In_keys {V} (k : string) (v : V) (o : Obj.t V) :
  Obj.get k o = Some v -> In k (Obj.keys o).
Proof.
  intros H. destruct (in_dec string_dec k (Obj.keys o)) as [Hin|Hn]; [exact Hin|].
  apply has_false_iff in Hn. unfold Obj.has in Hn. rewrite H in Hn. discriminate.
Qed.

(** X12. With individual packaging, a declared function whose handler has no
    handler file makes [validate] throw a type error once the configuration
    is loaded and its entry is accepted: the function was passed over by the
    entry resolution, with a warning or, for the provider Google, without,
    but the lookup of the functions of the entries takes the relative path
    of the handler file of every declared function. *)
Theorem individual_packaging_needs_handler_files
        env serverless options keep w entries w1 c0 w2 p name f :
  packageIndividually (service serverless) = true ->
  resolveEntries env serverless options (started serverless w) = (Ok entries, w1) ->
  loadConfig env serverless (exposed serverless options entries w1) = (Ok (inl c0), w2) ->
  path (outputOf serverless (withDefaults serverless options c0)) = Some p ->
  entryConflicts (withDefaults serverless options c0) entries = false ->
  Obj.get name (functions (service serverless)) = Some f ->
  getHandlerFile (handler f) = None ->
  fst (validate env serverless options keep w) = Throw TypeError.
Proof.
  intros Hind Hent Hload Hp Hconf Hget Hnone.
  rewrite validate_stages, Hent, Hload, configure_run, Hind, Hconf
    by (right; now exists p).
  unfold fanOut, bind at 1.
  destruct (allEntryFunctions env serverless _) as [[all|e] w3] eqn:Hall.
  - exfalso. unfold allEntryFunctions in Hall. apply mapM_inv in Hall.
    destruct (Forall2_In_left _ _ _ name Hall) as (b & wa & wb & Hb).
    + unfold getAllFunctions. now apply get_In_keys with f.
    + unfold bind in Hb. rewrite (getFunction_found serverless name f wa Hget) in Hb.
      rewrite Hnone in Hb. discriminate.
  - simpl. now rewrite (allEntryFunctions_throws _ _ _ _ _ Hall).
Qed.

Lemma individual_packaging_needs_handler_files_witness :
  fst (validate (Fixture.envOf Fixture.jsFiles)
         {| servicePath := "testpath";
            service := {| functions := [("func1", {| handler := "func1"; artifact := None |})];
                          providerName := Some "google";
                          customWebpack := Some (ConfigInline Fixture.testConfig);
                          packageIndividually := true |} |}
         Fixture.noOptions false Fixture.fresh) = Throw TypeError.
Proof.
  eapply (individual_packaging_needs_handler_files (Fixture.envOf Fixture.jsFiles)
           {| servicePath := "testpath";
              service := {| functions := [("func1", {| handler := "func1"; artifact := None |})];
                            providerName := Some "google";
                            customWebpack := Some (ConfigInline Fixture.testConfig);
                            packageIndividually := true |} |}
           Fixture.noOptions false Fixture.fresh [] _ Fixture.testConfig _ "output" "func1"
           {| handler := "func1"; artifact := None |});
    reflexivity.
Defined.

(** ** Functions that share a handler file *)

Lemma includes_app (l1 l2 : list string) (x : string) :
  Lodash.includes (l1 ++ l2) x = Lodash.includes l1 x || Lodash.includes l2 x.
Proof. unfold Lodash.includes. apply existsb_app. Qed.

Lemma includes_cons (y : string) (l : list string) (x : string) :
  Lodash.includes (y :: l) x = (x =? y)%string || Lodash.includes l x.
Proof. reflexivity. Qed.

Lemma uniqFrom_snoc (l : list string) (x : string) :
  forall seen,
    Lodash.uniqFrom seen (l ++ [x]) =
    (Lodash.uniqFrom seen l
     ++ if Lodash.includes seen x || Lodash.includes l x then [] else [x])%list.
Proof.
  induction l as [|y l IH]; intros seen; cbn [app Lodash.uniqFrom].
  - change (Lodash.includes [] x) with false. rewrite orb_false_r.
    destruct (Lodash.includes seen x); reflexivity.
  - destruct (Lodash.includes seen y) eqn:Hy.
    + rewrite IH, includes_cons.
      destruct (String.eqb_spec x y) as [->|Hne].
      * rewrite Hy. reflexivity.
      * reflexivity.
    + rewrite IH, !includes_cons. cbn [app].
      destruct (x =? y)%string, (Lodash.includes seen x); reflexivity.
Qed.

Lemma includes_uniq (l : list string) (x : string) :
  Lodash.includes (Lodash.uniq l) x = Lodash.includes l x.
Proof.
  destruct (Lodash.includes l x) eqn:H.
  - apply (proj2 (includes_In _ _)). apply (proj2 (uniq_In x l)).
    now apply (proj1 (includes_In _ _)).
  - destruct (Lodash.includes (Lodash.uniq l) x) eqn:H'; [|reflexivity].
    apply (proj1 (includes_In _ _)) in H'. apply (proj1 (uniq_In x l)) in H'.
    apply (proj2 (includes_In l x)) in H'.
    congruence.
Qed.

Lemma uniq_snoc (l : list string) (x : string) :
  Lodash.uniq (l ++ [x]) =
  if Lodash.includes (Lodash.uniq l) x then Lodash.uniq l else (Lodash.uniq l ++ [x])%list.
Proof.
  unfold Lodash.uniq at 1. rewrite uniqFrom_snoc, includes_uniq. simpl.
  destruct (Lodash.includes l x); [apply app_nil_r|reflexivity].
Qed.

Lemma get_entryOfBase env serverless (U : list string) (b : string) :
  Obj.get b (map (entryOfBase env serverless) U) =
  if Lodash.includes U b then Some (snd (entryOfBase env serverless b)) else None.
Proof.
  induction U as [|k U IH]; [reflexivity|].
  cbn [map Obj.get]. rewrite includes_cons. cbn [fst entryOfBase].
  destruct (String.eqb_spec b k) as [->|Hne]; [reflexivity|exact IH].
Qed.

Lemma replace_entryOfBase env serverless (U : list string) (b : string) :
  Obj.replace b (snd (entryOfBase env serverless b)) (map (entryOfBase env serverless) U) =
  map (entryOfBase env serverless) U.
Proof.
  induction U as [|k U IH]; [reflexivity|].
  cbn [map Obj.replace]. cbn [fst entryOfBase].
  destruct (String.eqb_spec b k) as [->|Hne]; [reflexivity|].
  unfold entryOfBase at 3. now rewrite IH.
Qed.

(** The entry of a handler file is put after the entries there are, unless
    the handler file has its entry. *)
Lemma set_entryOfBase env serverless (U : list string) (b : string) :
  Js.arrayIndex b = None ->
  Obj.set b (snd (entryOfBase env serverless b)) (map (entryOfBase env serverless) U) =
  map (entryOfBase env serverless) (if Lodash.includes U b then U else (U ++ [b])%list).
Proof.
  intros Hi. unfold Obj.set, Obj.has. rewrite get_entryOfBase.
  destruct (Lodash.includes U b).
  - apply replace_entryOfBase.
  - rewrite Hi, map_app. reflexivity.
Qed.

Lemma resolveEntries_grouped_from env serverless (todo : list (string * ServerlessFunction)) :
  forall done w,
    (forall nf, In nf todo ->
                Obj.get (fst nf) (functions (service serverless)) = Some (snd nf)) ->
    forallb (wellResolved env serverless) todo = true ->
    exists w',
      forEach (map fst todo) (resolveEntry env serverless)
        (map (entryOfBase env serverless) (handlerFiles done)) w =
      (Ok (map (entryOfBase env serverless) (handlerFiles (done ++ todo)%list)), w').
Proof.
  induction todo as [|nf todo IH]; intros done w Hget Hwr.
  - simpl. rewrite app_nil_r. eexists. reflexivity.
  - simpl in Hwr. apply andb_true_iff in Hwr as [Hnf Hwr].
    cbn [map forEach]. unfold bind at 1.
    destruct (resolveEntry_ordinary env serverless
                (map (entryOfBase env serverless) (handlerFiles done)) nf w
                (Hget nf (or_introl eq_refl)) Hnf) as (w1 & Hrun).
    rewrite Hrun.
    destruct (wellResolved_spec env serverless nf Hnf) as (_ & _ & _ & Hidx & _).
    change (fst (entryFor env serverless (snd nf))) with (basePath (snd nf)).
    change (snd (entryFor env serverless (snd nf)))
      with (snd (entryOfBase env serverless (basePath (snd nf)))).
    rewrite (set_entryOfBase env serverless _ _ Hidx).
    replace (if Lodash.includes (handlerFiles done) (basePath (snd nf))
             then handlerFiles done
             else (handlerFiles done ++ [basePath (snd nf)])%list)
      with (handlerFiles (done ++ [nf])%list).
    + destruct (IH (done ++ [nf])%list w1 (fun nf' Hin => Hget nf' (or_intror Hin)) Hwr)
        as (w' & Hrest).
      rewrite Hrest, <- app_assoc. eexists. reflexivity.
    + unfold handlerFiles. rewrite map_app. simpl. apply uniq_snoc.
Qed.

(** *** The positions that match *)

Lemma matchingFrom_cons (s : nat) (b : string) (x : EntryFunction) (l : list EntryFunction) :
  matchingFrom s b (x :: l) =
  ((if hasFile b x then [s] else []) ++ matchingFrom (S s) b l)%list.
Proof.
  unfold hasFile. simpl. destruct (handlerFile x) as [h|]; [|reflexivity].
  destruct (h =? b)%string; reflexivity.
Qed.

Lemma In_matchingFrom (b : string) (l : list EntryFunction) :
  forall s i,
    In i (matchingFrom s b l) <->
    s <= i /\ exists x, nth_error l (i - s) = Some x /\ hasFile b x = true.
Proof.
  induction l as [|x l IH]; intros s i.
  - simpl. split; [contradiction|]. intros (_ & y & H & _).
    destruct (i - s); discriminate.
  - rewrite matchingFrom_cons, in_app_iff, IH. split.
    + intros [H|(Hle & y & Hy & Hb)].
      * destruct (hasFile b x) eqn:Hx; [|contradiction].
        destruct H as [<-|[]]. split; [lia|]. exists x. rewrite Nat.sub_diag. now split.
      * split; [lia|]. exists y. replace (i - s) with (S (i - S s)) by lia. now split.
    + intros (Hle & y & Hy & Hb).
      destruct (Nat.eq_dec i s) as [->|Hne].
      * left. rewrite Nat.sub_diag in Hy. injection Hy as ->. rewrite Hb. now left.
      * right. split; [lia|]. exists y.
        replace (i - s) with (S (i - S s)) in Hy by lia. now split.
Qed.

Lemma map_combine_seq {A B} (f : nat * A -> B) (g : A -> B) (l : list A) :
  forall s,
    (forall i x, nth_error l i = Some x -> f (s + i, x) = g x) ->
    map f (combine (seq s (List.length l)) l) = map g l.
Proof.
  induction l as [|x l IH]; intros s H; simpl; [reflexivity|].
  f_equal.
  - rewrite <- (H 0 x eq_refl). now rewrite Nat.add_0_r.
  - apply IH. intros i y Hy. rewrite <- (H (S i) y Hy). f_equal. f_equal. lia.
Qed.

(** The entry is assigned to the elements with the handler file. *)
Lemma assignEntry_matching (b : string) (e : EntryRef) (all : list EntryFunction) :
  assignEntry (matchingFrom 0 b all) e all =
  map (fun x => if hasFile b x then withEntryRef e x else x) all.
Proof.
  unfold assignEntry. apply map_combine_seq. intros i x Hx. cbn [Nat.add fst snd].
  assert (E : existsb (Nat.eqb i) (matchingFrom 0 b all) = hasFile b x).
  { destruct (hasFile b x) eqn:Hb.
    - apply existsb_exists. exists i. split; [|apply Nat.eqb_refl].
      apply In_matchingFrom. split; [lia|]. exists x. rewrite Nat.sub_0_r. now split.
    - destruct (existsb _ _) eqn:Hex; [|reflexivity].
      apply existsb_exists in Hex as (j & Hj & Hij). apply Nat.eqb_eq in Hij. subst j.
      apply In_matchingFrom in Hj as (_ & y & Hy & Hyb).
      rewrite Nat.sub_0_r, Hx in Hy. injection Hy as <-. congruence. }
  now rewrite E.
Qed.

(** The elements at the positions that match are the elements with the
    handler file. *)
Lemma nth_matchingFrom (b : string) (d : EntryFunction) (l : list EntryFunction) :
  forall pre,
    map (fun i => nth i (pre ++ l) d) (matchingFrom (List.length pre) b l) =
    filter (hasFile b) l.
Proof.
  induction l as [|x l IH]; intros pre; [reflexivity|].
  rewrite matchingFrom_cons, map_app. cbn [filter].
  specialize (IH (pre ++ [x])%list). rewrite <- app_assoc in IH. cbn [app] in IH.
  rewrite length_app in IH. cbn [List.length] in IH. rewrite Nat.add_1_r in IH.
  rewrite IH. destruct (hasFile b x); [|reflexivity].
  cbn [map app]. now rewrite nth_middle.
Qed.

Lemma deref_matching (b : string) (all all' : list EntryFunction) :
  map handlerFile all = map handlerFile all' ->
  map (deref all') (map Shared (matchingFrom 0 b all)) = filter (hasFile b) all'.
Proof.
  intros H. rewrite (matchingFrom_handlerFiles b all all' H 0), map_map.
  apply (nth_matchingFrom b _ all' []).
Qed.

(** *** The binding of entries that functions share *)

Lemma handlerFile_boundFor env serverless (D : list string) nf :
  handlerFile (boundFor env serverless D nf) = Some (basePath (snd nf)).
Proof. unfold boundFor. destruct (Lodash.includes _ _); reflexivity. Qed.

Lemma hasFile_boundFor env serverless (D : list string) (b : string) nf :
  hasFile b (boundFor env serverless D nf) = (basePath (snd nf) =? b)%string.
Proof. unfold hasFile. now rewrite handlerFile_boundFor. Qed.

Lemma handlerFiles_boundFor env serverless (D D' : list string) fs :
  map handlerFile (map (boundFor env serverless D) fs) =
  map handlerFile (map (boundFor env serverless D') fs).
Proof.
  rewrite !map_map. apply map_ext. intros nf. now rewrite !handlerFile_boundFor.
Qed.

Lemma boundFor_nil env serverless fs :
  map (boundFor env serverless []) fs = map unboundFor fs.
Proof. apply map_ext. reflexivity. Qed.

(** The element of a function gets the entry of its handler file, whether it
    had one or not. *)
Lemma boundFor_step env serverless (D : list string) (b : string) nf :
  (if hasFile b (boundFor env serverless D nf)
   then withEntryRef {| key := b; value := snd (entryOfBase env serverless b) |}
          (boundFor env serverless D nf)
   else boundFor env serverless D nf) =
  boundFor env serverless (D ++ [b]) nf.
Proof.
  rewrite hasFile_boundFor. unfold boundFor at 3.
  rewrite includes_app, includes_cons. change (Lodash.includes [] _) with false.
  rewrite orb_false_r.
  destruct (String.eqb_spec (basePath (snd nf)) b) as [<-|Hne].
  - rewrite orb_true_r. unfold boundFor.
    destruct (Lodash.includes D (basePath (snd nf))); reflexivity.
  - rewrite orb_false_r. reflexivity.
Qed.

Lemma bindEntry_shared env serverless fs (D : list string) refs w x :
  In x fs -> wellResolved env serverless x = true ->
  bindEntry env (map (boundFor env serverless D) fs, refs)
    (entryOfBase env serverless (basePath (snd x))) w =
  (Ok (map (boundFor env serverless (D ++ [basePath (snd x)])) fs,
       (refs ++ map Shared (matchingFrom 0 (basePath (snd x)) (map unboundFor fs)))%list),
   w).
Proof.
  intros Hin Hx.
  destruct (wellResolved_spec env serverless x Hx)
    as (_ & _ & Hp & _ & winner & _ & He & Hlit).
  set (b := basePath (snd x)) in *.
  assert (Hstrip : stripExtension env
                     (Path.relativeFromCwd (processCwd env)
                        (snd (entryOfBase env serverless b))) = Ok b).
  { change (snd (entryOfBase env serverless b))
      with ("./" ++ b ++ extensionFor env serverless (snd x)).
    rewrite He. apply (entry_file_of_proper env b winner Hp Hlit). }
  unfold bindEntry.
  change (entryOfBase env serverless b) with (b, snd (entryOfBase env serverless b)).
  cbv beta iota. unfold bind, lift. rewrite Hstrip.
  replace (matchingFrom 0 b (map (boundFor env serverless D) fs))
    with (matchingFrom 0 b (map unboundFor fs))
    by (rewrite <- (boundFor_nil env serverless);
        apply (matchingFrom_handlerFiles b _ _
                 (handlerFiles_boundFor env serverless [] D fs) 0)).
  destruct (matchingFrom 0 b (map unboundFor fs)) as [|h t] eqn:Hhits.
  - exfalso. destruct (In_nth_error _ _ Hin) as [i Hi].
    assert (Hi' : In i (matchingFrom 0 b (map unboundFor fs))).
    { apply In_matchingFrom. split; [lia|]. exists (unboundFor x).
      rewrite Nat.sub_0_r. split; [now apply map_nth_error|].
      unfold hasFile, unboundFor. simpl. apply String.eqb_refl. }
    rewrite Hhits in Hi'. contradiction.
  - unfold ret. rewrite <- Hhits.
    replace (matchingFrom 0 b (map unboundFor fs))
      with (matchingFrom 0 b (map (boundFor env serverless D) fs)) at 1
      by (rewrite <- (boundFor_nil env serverless); symmetry;
          apply (matchingFrom_handlerFiles b _ _
                   (handlerFiles_boundFor env serverless [] D fs) 0)).
    rewrite assignEntry_matching, map_map.
    do 3 f_equal. apply map_ext. intros nf. apply boundFor_step.
Qed.

Lemma bindEntries_shared env serverless fs (U : list string) :
  forall D refs w,
    (forall b, In b U ->
               exists x, In x fs /\ wellResolved env serverless x = true
                         /\ basePath (snd x) = b) ->
    forEach (map (entryOfBase env serverless) U) (bindEntry env)
      (map (boundFor env serverless D) fs, refs) w =
    (Ok (map (boundFor env serverless (D ++ U)) fs,
         (refs ++ flat_map (fun b => map Shared (matchingFrom 0 b (map unboundFor fs))) U)%list),
     w).
Proof.
  induction U as [|b U IH]; intros D refs w HU.
  - simpl. now rewrite !app_nil_r.
  - cbn [map forEach flat_map]. unfold bind at 1.
    destruct (HU b (or_introl eq_refl)) as (x & Hin & Hx & <-).
    rewrite (bindEntry_shared env serverless fs D refs w x Hin Hx).
    rewrite IH by (intros b' Hb'; apply HU; now right).
    now rewrite <- !app_assoc.
Qed.

Lemma map_flat_map {A B C} (f : B -> C) (g : A -> list B) (l : list A) :
  map f (flat_map g l) = flat_map (fun a => map f (g a)) l.
Proof.
  induction l as [|a l IH]; simpl; [reflexivity|]. now rewrite map_app, IH.
Qed.

Lemma filter_map_comm {A B} (p : B -> bool) (f : A -> B) (l : list A) :
  filter p (map f l) = map f (filter (fun a => p (f a)) l).
Proof.
  induction l as [|a l IH]; simpl; [reflexivity|].
  destruct (p (f a)); simpl; now rewrite IH.
Qed.

Lemma handlerFiles_In fs (nf : string * ServerlessFunction) :
  In nf fs -> In (basePath (snd nf)) (handlerFiles fs).
Proof.
  intros H. unfold handlerFiles. apply (proj2 (uniq_In _ _)).
  apply in_map_iff. now exists nf.
Qed.

(** The fan-out for functions of the ordinary kind, whether they share
    handler files or not: the elements of [entryFunctions] and the
    configurations are those of the functions, by handler file. *)
Lemma fanOut_grouped env serverless c p w :
  NoDup (Obj.keys (functions (service serverless))) ->
  forallb (wellResolved env serverless) (functions (service serverless)) = true ->
  path (outputOf serverless c) = Some p ->
  fanOut env serverless c
    (map (entryOfBase env serverless) (handlerFiles (functions (service serverless)))) w =
  (Ok Resolved,
   setThis (withWebpackConfig
              (WebpackMulti (map (configOf env serverless c p)
                               (grouped (functions (service serverless))))))
     (setThis (withEntryFunctions
                 (map (bindingFor env serverless)
                    (grouped (functions (service serverless))))) w)).
Proof.
  intros Hnd Hwr Hp. set (fs := functions (service serverless)) in *.
  unfold fanOut, bind at 1.
  rewrite (allEntryFunctions_ordinary env serverless w Hnd Hwr). fold fs.
  rewrite <- (boundFor_nil env serverless fs). unfold bind at 1.
  rewrite (bindEntries_shared env serverless fs (handlerFiles fs) [] [] w).
  - cbn [fst snd app].
    assert (Hall : map (boundFor env serverless (handlerFiles fs)) fs
                   = map (bindingFor env serverless) fs).
    { apply map_ext_in. intros nf Hin. unfold boundFor.
      now rewrite (proj2 (includes_In _ _) (handlerFiles_In fs nf Hin)). }
    rewrite Hall.
    assert (Hfuncs : map (deref (map (bindingFor env serverless) fs))
                       (flat_map (fun b => map Shared
                                             (matchingFrom 0 b (map unboundFor fs)))
                          (handlerFiles fs))
                     = map (bindingFor env serverless) (grouped fs)).
    { rewrite map_flat_map. unfold grouped. rewrite map_flat_map.
      apply flat_map_ext. intros b.
      rewrite deref_matching.
      - rewrite filter_map_comm. unfold sharing. f_equal.
      - rewrite !map_map. apply map_ext. reflexivity. }
    rewrite Hfuncs. unfold bind, modify.
    rewrite (mapM_map_ret (fun b => lift (configFor serverless c b))
               (bindingFor env serverless) (configOf env serverless c p)).
    + reflexivity.
    + intros nf Hnf. unfold lift.
      rewrite (configFor_ordinary env serverless c p nf); [reflexivity| |exact Hp].
      rewrite forallb_forall in Hwr. apply Hwr.
      unfold grouped in Hnf. apply in_flat_map in Hnf as (b & _ & Hb).
      unfold sharing in Hb. now apply filter_In in Hb as [Hb _].
  - intros b Hb. unfold handlerFiles in Hb. apply (proj1 (uniq_In _ _)) in Hb.
    apply in_map_iff in Hb as (x & Hx & Hin). exists x.
    rewrite forallb_forall in Hwr. repeat split; [exact Hin|now apply Hwr|exact Hx].
Qed.

Lemma flat_map_ext_on {A B} (f g : A -> list B) (l : list A) :
  (forall a, In a l -> f a = g a) -> flat_map f l = flat_map g l.
Proof.
  induction l as [|a l IH]; simpl; intros H; [reflexivity|].
  rewrite (H a (or_introl eq_refl)), IH; [reflexivity|]. intros b Hb. apply H. now right.
Qed.

(** Every function is in the group of its handler file, and in no other. *)
Lemma grouped_Permutation_from (U : list string) (fs : Obj.t ServerlessFunction) :
  NoDup U ->
  (forall nf, In nf fs -> In (basePath (snd nf)) U) ->
  Permutation (flat_map (fun b => sharing b fs) U) fs.
Proof.
  intros Hnd. induction fs as [|x fs IH]; intros Hall.
  - clear. induction U as [|b U IH]; simpl; [constructor|exact IH].
  - destruct (in_split _ _ (Hall x (or_introl eq_refl))) as (U1 & U2 & ->).
    assert (Hx1 : ~ In (basePath (snd x)) U1 /\ ~ In (basePath (snd x)) U2).
    { apply NoDup_remove_2 in Hnd. split; intros H; apply Hnd; apply in_or_app; tauto. }
    destruct Hx1 as [Hx1 Hx2].
    assert (Hother : forall V, ~ In (basePath (snd x)) V ->
                       flat_map (fun b => sharing b (x :: fs)) V
                       = flat_map (fun b => sharing b fs) V).
    { intros V HV. apply flat_map_ext_on. intros b Hb. unfold sharing. cbn [filter].
      destruct (String.eqb_spec (basePath (snd x)) b) as [E|Hne]; [|reflexivity].
      exfalso. apply HV. now rewrite E. }
    specialize (IH (fun nf Hin => Hall nf (or_intror Hin))).
    rewrite flat_map_app in *. cbn [flat_map] in *.
    rewrite (Hother U1 Hx1), (Hother U2 Hx2).
    unfold sharing at 2. cbn [filter]. rewrite String.eqb_refl.
    fold (sharing (basePath (snd x)) fs). cbn [app].
    apply Permutation_sym. apply Permutation_cons_app. now apply Permutation_sym.
Qed.

Lemma grouped_Permutation (fs : Obj.t ServerlessFunction) : Permutation (grouped fs) fs.
Proof.
  apply grouped_Permutation_from.
  - apply uniqFrom_NoDup.
  - apply handlerFiles_In.
Qed.

(** X13. Individual packaging for functions of the ordinary kind that may
    share handler files (no function selected, names pairwise distinct, a
    configuration that loads, declares no conflicting entry and has an output
    path [p] after the defaults): [validate] resolves; the entries are one
    for every handler file, in the order in which the functions come to the
    handler files; and there is one configuration for every function, the
    configurations of the functions of a handler file standing together,
    handler file after handler file as the entries are.  The configuration of
    a function has the entry of its handler file alone and the output path
    [p] joined with the name of the function. *)
Theorem functions_sharing_a_handler_file env serverless options keep w c0 p :
  packageIndividually (service serverless) = true ->
  Js.truthy_opt (function options) = false ->
  NoDup (Obj.keys (functions (service serverless))) ->
  forallb (wellResolved env serverless) (functions (service serverless)) = true ->
  loadedConfig env serverless options
    (map (entryOfBase env serverless) (handlerFiles (functions (service serverless))))
  = Some c0 ->
  entryConflicts c0
    (map (entryOfBase env serverless) (handlerFiles (functions (service serverless))))
  = false ->
  path (outputOf serverless (withDefaults serverless options c0)) = Some p ->
  exists w',
    validate env serverless options keep w = (Ok Resolved, w')
    /\ libEntries (lib w') =
       Some (map (entryOfBase env serverless) (handlerFiles (functions (service serverless))))
    /\ entryFunctions (this w') =
       Some (map (bindingFor env serverless) (grouped (functions (service serverless))))
    /\ webpackConfig (this w') =
       Some (WebpackMulti
               (map (configOf env serverless (withDefaults serverless options c0) p)
                  (grouped (functions (service serverless)))))
    /\ Permutation (grouped (functions (service serverless)))
         (functions (service serverless)).
Proof.
  intros Hind Hsel Hnd Hwr Hload Hconf Hp.
  set (fs := functions (service serverless)) in *.
  set (entries := map (entryOfBase env serverless) (handlerFiles fs)) in *.
  assert (Hent : exists w1, resolveEntries env serverless options (started serverless w)
                            = (Ok entries, w1)).
  { unfold resolveEntries. rewrite Hsel.
    destruct (resolveEntries_grouped_from env serverless fs [] (started serverless w))
      as (w1 & H1).
    - intros nf Hin. now apply functions_get.
    - exact Hwr.
    - exists w1. exact H1. }
  destruct Hent as (w1 & Hent).
  destruct (loadConfig_loaded env serverless options entries c0
              (exposed serverless options entries w1) Hload eq_refl) as (w2 & Hrun2).
  destruct (configure_individually env serverless options keep c0 entries w2 Hind
              (or_intror (ex_intro _ p Hp)))
    as (w3 & [_ Hlib3] & Hrun3).
  rewrite Hconf in Hrun3. unfold entries, fs in Hrun3.
  rewrite (fanOut_grouped env serverless _ p w3 Hnd Hwr Hp) in Hrun3.
  fold fs in Hrun3.
  eexists. split; [rewrite validate_stages, Hent, Hrun2; exact Hrun3|].
  split; [|split; [reflexivity|split; [reflexivity|apply grouped_Permutation]]].
  cbn [lib setThis]. rewrite Hlib3.
  pose proof (keepsLib_loadConfig env serverless (exposed serverless options entries w1))
    as Hk.
  rewrite Hrun2 in Hk. simpl in Hk. now rewrite Hk.
Qed.

Lemma functions_sharing_a_handler_file_witness :
  exists w',
    validate (Fixture.envOf Fixture.jsFiles)
      (Fixture.serviceOf sharedFunctions (Some (ConfigInline Fixture.testConfig)) true)
      Fixture.noOptions false Fixture.fresh = (Ok Resolved, w')
    /\ libEntries (lib w') = Some [("module1", "./module1.js"); ("module2", "./module2.js")]
    /\ Fixture.outputPaths (this w') =
       [Some "output/create"; Some "output/remove"; Some "output/list"].
Proof.
  destruct (functions_sharing_a_handler_file (Fixture.envOf Fixture.jsFiles)
              (Fixture.serviceOf sharedFunctions (Some (ConfigInline Fixture.testConfig)) true)
              Fixture.noOptions false Fixture.fresh Fixture.testConfig "output")
    as (w' & Hrun & Hlib & _ & Hconfigs & _).
  - reflexivity.
  - reflexivity.
  - apply distinct_NoDup. vm_compute. reflexivity.
  - vm_compute. reflexivity.
  - reflexivity.
  - vm_compute. reflexivity.
  - reflexivity.
  - exists w'. split; [exact Hrun|]. split.
    + rewrite Hlib. vm_compute. reflexivity.
    + unfold Fixture.outputPaths. rewrite Hconfigs. vm_compute. reflexivity.
Defined.

(** ** The configurations of individual packaging, in general *)

Lemma nth_error_combine_seq {A B} (F : nat * A -> B) (l : list A) :
  forall s i,
    nth_error (map F (combine (seq s (List.length l)) l)) i =
    option_map (fun x => F (s + i, x)) (nth_error l i).
Proof.
  induction l as [|x l IH]; intros s i; simpl.
  - destruct i; reflexivity.
  - destruct i as [|i]; simpl.
    + now rewrite Nat.add_0_r.
    + rewrite IH. destruct (nth_error l i); simpl; [|reflexivity].
      do 2 f_equal. f_equal. lia.
Qed.

Lemma nth_error_assignEntry (hits : list nat) (e : EntryRef) (all : list EntryFunction)
      (i : nat) :
  nth_error (assignEntry hits e all) i =
  option_map (fun x => if existsb (Nat.eqb i) hits then withEntryRef e x else x)
             (nth_error all i).
Proof. unfold assignEntry. now rewrite nth_error_combine_seq. Qed.

Lemma In_assignEntry (hits : list nat) (e : EntryRef) (all : list EntryFunction)
      (y : EntryFunction) :
  In y (assignEntry hits e all) -> In y all \/ entryRef y = Some e.
Proof.
  intros H. apply In_nth_error in H as [i Hi]. rewrite nth_error_assignEntry in Hi.
  destruct (nth_error all i) as [x|] eqn:Hx; [|discriminate]. simpl in Hi.
  injection Hi as <-. destruct (existsb _ _); [now right|].
  left. now apply nth_error_In with i.
Qed.

Lemma boundBy_step env (processed : Obj.t string) acc kv w acc' w' :
  boundBy processed acc ->
  bindEntry env acc kv w = (Ok acc', w') ->
  boundBy (processed ++ [kv])%list acc'.
Proof.
  destruct acc as [all refs], kv as [k v]. intros (Hall & Hrefs & Hlen) H.
  unfold bindEntry, bind, lift in H.
  destruct (stripExtension env _) as [file|err]; [|discriminate].
  remember (matchingFrom 0 file all) as hits eqn:Hhits.
  destruct hits as [|h t].
  - unfold ret in H. injection H as <- _. repeat split; cbn [fst snd] in *.
    + intros x e Hx He. apply in_or_app. left. now apply (Hall x).
    + intros r Hr. apply in_app_or in Hr as [Hr|[<-|[]]].
      * specialize (Hrefs r Hr). destruct r as [i|b]; [exact Hrefs|].
        destruct Hrefs as (e & He & Hin). exists e. split; [exact He|].
        apply in_or_app. now left.
      * eexists. split; [reflexivity|]. apply in_or_app. right. now left.
    + rewrite !length_app. simpl. lia.
  - unfold ret in H. rewrite Hhits in H.
    assert (Hne : 1 <= List.length (matchingFrom 0 file all))
      by (rewrite <- Hhits; simpl; lia).
    clear Hhits h t. injection H as <- _.
    repeat split; cbn [fst snd] in *.
    + intros x e Hx He. apply In_assignEntry in Hx as [Hx|Hx].
      * apply in_or_app. left. now apply (Hall x).
      * rewrite He in Hx. injection Hx as ->. apply in_or_app. right. now left.
    + intros r Hr. apply in_app_or in Hr as [Hr|Hr].
      * specialize (Hrefs r Hr). destruct r as [i|b].
        -- destruct Hrefs as (x & e & Hx & He). rewrite nth_error_assignEntry, Hx. simpl.
           destruct (existsb _ _); eexists; eexists; split; try reflexivity.
           exact He.
        -- destruct Hrefs as (e & He & Hin). exists e. split; [exact He|].
           apply in_or_app. now left.
      * apply in_map_iff in Hr as (i & <- & Hi).
        pose proof Hi as Hi'. apply In_matchingFrom in Hi' as (_ & x & Hx & _).
        rewrite Nat.sub_0_r in Hx. rewrite nth_error_assignEntry, Hx. simpl.
        assert (E : existsb (Nat.eqb i) (matchingFrom 0 file all) = true).
        { apply existsb_exists. exists i. split; [exact Hi|apply Nat.eqb_refl]. }
        rewrite E. eexists. eexists. split; reflexivity.
    + rewrite !length_app, length_map. simpl. lia.
Qed.

Lemma boundBy_all env (todo : Obj.t string) :
  forall processed acc w acc' w',
    boundBy processed acc ->
    forEach todo (bindEntry env) acc w = (Ok acc', w') ->
    boundBy (processed ++ todo)%list acc'.
Proof.
  induction todo as [|kv todo IH]; simpl; intros processed acc w acc' w' Hinv H.
  - unfold ret in H. injection H as <- _. now rewrite app_nil_r.
  - unfold bind in H. destruct (bindEntry env acc kv w) as [[acc1|e] w1] eqn:Hb;
      [|discriminate].
    replace (processed ++ kv :: todo)%list with ((processed ++ [kv]) ++ todo)%list
      by (rewrite <- app_assoc; reflexivity).
    apply (IH _ acc1 w1 acc' w'); [|exact H].
    apply (boundBy_step env processed acc kv w acc1 w1 Hinv Hb).
Qed.

(** The elements of [allEntryFunctions] have no entry yet. *)
Lemma allEntryFunctions_unbound env serverless w all w' :
  allEntryFunctions env serverless w = (Ok all, w') ->
  forall x, In x all -> entryRef x = None.
Proof.
  intros H x Hx. unfold allEntryFunctions in H. apply mapM_inv in H.
  apply In_nth_error in Hx as [i Hi].
  assert (Hgen : forall (l : list string) (bs : list EntryFunction),
             Forall2 (fun a b => exists w1 w2 : World,
                          (func <- getFunction serverless a ;;
                           match getHandlerFile (handler func) with
                           | Some file =>
                               ret {| handlerFile :=
                                        Some (Path.relativeFromCwd (processCwd env) file);
                                      funcName := Some a; func := Some func;
                                      entryRef := None |}
                           | None => throw TypeError
                           end) w1 = (Ok b, w2)) l bs ->
             forall b, In b bs -> entryRef b = None).
  { clear. intros l bs HF. induction HF as [|a b l bs (w1 & w2 & Hab) HF IH];
      intros y Hy; [contradiction|].
    destruct Hy as [<-|Hy]; [|now apply IH].
    unfold bind in Hab.
    destruct (getFunction serverless a w1) as [[f|e] w0]; [|discriminate].
    destruct (getHandlerFile _); [|discriminate].
    unfold ret in Hab. now injection Hab as <- _. }
  apply (Hgen _ _ H). now apply nth_error_In with i.
Qed.

Lemma Forall2_In_right {A B} (R : A -> B -> Prop) (l : list A) (l' : list B) (b : B) :
  Forall2 R l l' -> In b l' -> exists a, In a l /\ R a b.
Proof.
  intros HF. induction HF as [|a b' l l' Hab HF IH]; intros Hin; [contradiction|].
  destruct Hin as [<-|Hin].
  - exists a. split; [now left|exact Hab].
  - destruct (IH Hin) as (a' & Ha' & HR). exists a'. split; [now right|exact HR].
Qed.

(** Every element of [entryFunctions] has an entry, one of the entries. *)
Lemma entryFunctions_have_entries env serverless (entries : Obj.t string) w all w0 bound w1 :
  allEntryFunctions env serverless w = (Ok all, w0) ->
  forEach entries (bindEntry env) (all, []) w0 = (Ok bound, w1) ->
  Forall (hasEntryOf entries) (map (deref (fst bound)) (snd bound))
  /\ List.length entries <= List.length (snd bound).
Proof.
  intros Hall Hbind.
  assert (Hinit : boundBy [] (all, [])).
  { repeat split; cbn [fst snd].
    - intros x e Hx He. rewrite (allEntryFunctions_unbound _ _ _ _ _ Hall x Hx) in He.
      discriminate.
    - intros r [].
    - simpl. lia. }
  destruct (boundBy_all env entries [] (all, []) w0 bound w1 Hinit Hbind)
    as (H1 & H2 & H3).
  cbn [app] in *. split; [|exact H3].
  apply Forall_forall. intros b Hb. apply in_map_iff in Hb as (r & <- & Hr).
  specialize (H2 r Hr). destruct r as [i|b]; [|exact H2].
  destruct H2 as (x & e & Hx & He). simpl.
  rewrite (nth_error_nth _ _ _ Hx). exists e. split; [exact He|].
  apply (H1 x e); [now apply nth_error_In with i|exact He].
Qed.

(** X14. With individual packaging, whatever the functions are: when
    [validate] resolves, there is a configuration at least for every entry,
    and every configuration is the configuration loaded, with its defaults,
    but for two fields: its entry is one of the entries alone, and its
    output path is the output path joined with one name.  The context, the
    target, the other fields and the rest of the output are the same in all
    of them. *)
Theorem every_configuration_is_a_copy_with_one_entry
        env serverless options keep w entries w1 c0 w2 w' :
  packageIndividually (service serverless) = true ->
  resolveEntries env serverless options (started serverless w) = (Ok entries, w1) ->
  loadConfig env serverless (exposed serverless options entries w1) = (Ok (inl c0), w2) ->
  validate env serverless options keep w = (Ok Resolved, w') ->
  exists configs,
    webpackConfig (this w') = Some (WebpackMulti configs)
    /\ List.length entries <= List.length configs
    /\ Forall
         (fun cfg =>
            let c := withDefaults serverless options c0 in
            exists k v name p,
              In (k, v) entries
              /\ path (outputOf serverless c) = Some p
              /\ entry cfg = Some (EntryObject [(k, ItemFile v)])
              /\ output cfg = Some (setPath (Path.join [p; name]) (outputOf serverless c))
              /\ context cfg = context c
              /\ target cfg = target c
              /\ devtool cfg = devtool c
              /\ configRest cfg = configRest c)
         configs.
Proof.
  intros Hind Hent Hload Hrun.
  pose proof (removal_has_not_thrown env serverless options keep w entries w1 c0 w2
                Resolved Hent Hload (f_equal fst Hrun)) as Hrm.
  rewrite validate_stages, Hent, Hload, configure_run, Hind in Hrun by exact Hrm.
  destruct (entryConflicts _ _); [discriminate|].
  unfold fanOut, bind at 1 in Hrun.
  destruct (allEntryFunctions env serverless _) as [[all|e] w3] eqn:Hall; [|discriminate].
  unfold bind at 1 in Hrun.
  destruct (forEach entries (bindEntry env) (all, []) w3) as [[bound|e] w4] eqn:Hbind;
    [|discriminate].
  unfold bind, modify in Hrun.
  destruct (mapM _ _ _) as [[configs|e] w5] eqn:Hconfigs; [|discriminate].
  injection Hrun as <-.
  apply mapM_lift in Hconfigs as [-> HF].
  destruct (entryFunctions_have_entries env serverless entries _ all w3 bound w4 Hall Hbind)
    as [Hfuncs Hlen].
  exists configs. split; [reflexivity|]. split.
  - rewrite <- (Forall2_length HF), length_map. exact Hlen.
  - apply Forall_forall. intros cfg Hcfg. cbv zeta.
    destruct (Forall2_In_right _ _ _ cfg HF Hcfg) as (b & Hb & Hfor).
    rewrite Forall_forall in Hfuncs. destruct (Hfuncs b Hb) as (e & He & Hin).
    unfold configFor in Hfor. rewrite He in Hfor.
    destruct (path (outputOf serverless (withDefaults serverless options c0))) as [p|];
      [|discriminate].
    injection Hfor as <-.
    exists (key e), (value e), (Js.or_else (funcName b) (Lodash.camelCase (key e))), p.
    repeat split; [exact Hin].
Qed.

Lemma every_configuration_is_a_copy_with_one_entry_witness :
  exists configs,
    webpackConfig
      (this (snd (validate (Fixture.envOf Fixture.jsFiles)
                    (Fixture.serviceOf sharedFunctions
                       (Some (ConfigInline Fixture.testConfig)) true)
                    Fixture.noOptions false Fixture.fresh)))
    = Some (WebpackMulti configs)
    /\ 2 <= List.length configs.
Proof.
  destruct (every_configuration_is_a_copy_with_one_entry
              (Fixture.envOf Fixture.jsFiles)
              (Fixture.serviceOf sharedFunctions (Some (ConfigInline Fixture.testConfig)) true)
              Fixture.noOptions false Fixture.fresh
              [("module1", "./module1.js"); ("module2", "./module2.js")]
              (snd (resolveEntries (Fixture.envOf Fixture.jsFiles)
                      (Fixture.serviceOf sharedFunctions
                         (Some (ConfigInline Fixture.testConfig)) true)
                      Fixture.noOptions
                      (started (Fixture.serviceOf sharedFunctions
                                  (Some (ConfigInline Fixture.testConfig)) true)
                         Fixture.fresh)))
              Fixture.testConfig
              (exposed (Fixture.serviceOf sharedFunctions
                          (Some (ConfigInline Fixture.testConfig)) true)
                 Fixture.noOptions
                 [("module1", "./module1.js"); ("module2", "./module2.js")]
                 (snd (resolveEntries (Fixture.envOf Fixture.jsFiles)
                         (Fixture.serviceOf sharedFunctions
                            (Some (ConfigInline Fixture.testConfig)) true)
                         Fixture.noOptions
                         (started (Fixture.serviceOf sharedFunctions
                                     (Some (ConfigInline Fixture.testConfig)) true)
                            Fixture.fresh))))
              (snd (validate (Fixture.envOf Fixture.jsFiles)
                      (Fixture.serviceOf sharedFunctions
                         (Some (ConfigInline Fixture.testConfig)) true)
                      Fixture.noOptions false Fixture.fresh)))
    as (configs & Hc & Hlen & _).
  - reflexivity.
  - vm_compute. reflexivity.
  - reflexivity.
  - vm_compute. reflexivity.
  - exists configs. split; [exact Hc|exact Hlen].
Defined.

(** ** An entry that is set to the entries *)

Lemma resolveEntries_distinct_keys env serverless options w entries w' :
  resolveEntries env serverless options w = (Ok entries, w') ->
  NoDup (Obj.keys entries).
Proof.
  assert (Hstep : forall entries name w entries' w',
             resolveEntry env serverless entries name w = (Ok entries', w') ->
             NoDup (Obj.keys entries) -> NoDup (Obj.keys entries')).
  { intros e0 name w0 e1 w1 H Hnd.
    destruct (resolveEntry_ok _ _ _ _ _ _ _ H)
      as (f & _ & _ & _ & _ & _ & [[_ ->]|(b & ext & _ & _ & _ & _ & ->)]);
      [exact Hnd|now apply NoDup_set]. }
  unfold resolveEntries. destruct (Js.truthy_opt (function options)).
  - intros H. apply (Hstep _ _ _ _ _ H). constructor.
  - generalize (getAllFunctions serverless) (@nil (string * string))
               (NoDup_nil string : NoDup (Obj.keys (@nil (string * string)))) w.
    induction l as [|name names IH]; simpl; intros e0 Hnd w0 H.
    + unfold ret in H. now injection H as <- _.
    + unfold bind in H.
      destruct (resolveEntry env serverless e0 name w0) as [[e1|err] w1] eqn:Hr;
        [|discriminate].
      apply (IH e1 (Hstep _ _ _ _ _ Hr Hnd) w1 H).
Qed.

(** An object with the properties of the entries, in any order, is equal to
    the entries. *)
Lemma isEqualEntries_permuted (entries : Obj.t string) (o : Obj.t EntryItem) :
  NoDup (Obj.keys entries) ->
  Permutation o (asEntry entries) ->
  isEqualEntries (EntryObject o) entries = true.
Proof.
  intros Hnd Hperm. unfold isEqualEntries. apply andb_true_iff. split.
  - rewrite (Permutation_length Hperm). unfold asEntry. rewrite length_map.
    apply Nat.eqb_refl.
  - apply forallb_forall. intros [k item] Hin.
    apply (Permutation_in _ Hperm) in Hin. unfold asEntry in Hin.
    apply in_map_iff in Hin as ([k' v] & E & Hin). injection E as -> <-.
    cbn [fst snd]. rewrite (get_of_NoDup k v entries Hnd Hin). apply String.eqb_refl.
Qed.

(** X15. A configuration whose entry is an object with exactly the entries
    that are exposed in [lib], in any order of the properties, is never
    rejected: its entry is equal to the entries, so that with individual
    packaging the pass goes on to the fan-out. *)
Theorem entry_set_to_the_entries_is_accepted
        env serverless options keep w entries w1 c0 w2 o :
  resolveEntries env serverless options (started serverless w) = (Ok entries, w1) ->
  loadConfig env serverless (exposed serverless options entries w1) = (Ok (inl c0), w2) ->
  entry c0 = Some (EntryObject o) ->
  Permutation o (asEntry entries) ->
  isEqualEntries (EntryObject o) entries = true
  /\ entryConflicts c0 entries = false
  /\ forall e, fst (validate env serverless options keep w) <> Ok (Rejected e).
Proof.
  intros Hent Hload Hentry Hperm.
  assert (Heq : isEqualEntries (EntryObject o) entries = true).
  { apply isEqualEntries_permuted; [|exact Hperm].
    apply (resolveEntries_distinct_keys _ _ _ _ _ _ Hent). }
  assert (Hconf : entryConflicts c0 entries = false).
  { unfold entryConflicts. rewrite Hentry, Heq. apply andb_false_r. }
  split; [exact Heq|]. split; [exact Hconf|].
  intros e H.
  pose proof (removal_has_not_thrown env serverless options keep w entries w1 c0 w2
                (Rejected e) Hent Hload H) as Hrm.
  rewrite validate_stages, Hent, Hload, configure_run in H by exact Hrm.
  assert (E : entryConflicts (withDefaults serverless options c0) entries
              = entryConflicts c0 entries)
    by (unfold entryConflicts; now rewrite entry_withDefaults).
  rewrite E, Hconf in H.
  destruct (packageIndividually (service serverless)).
  - destruct (fanOut_never_rejects env serverless (withDefaults serverless options c0)
                entries (individually options (prepared serverless options keep c0 w2)))
      as [Hf|[e' Hf]]; rewrite Hf in H; discriminate.
  - destruct (path _); discriminate.
Qed.

Lemma entry_set_to_the_entries_is_accepted_witness :
  isEqualEntries
    (EntryObject [("module2", ItemFile "./module2.js");
                  ("handlers/module2/func3/module2",
                   ItemFile "./handlers/module2/func3/module2.js");
                  ("module1", ItemFile "./module1.js");
                  ("handlers/func3/module2", ItemFile "./handlers/func3/module2.js")])
    Fixture.expectedLibEntries = true.
Proof.
  refine (proj1 (entry_set_to_the_entries_is_accepted
                   (Fixture.envOf Fixture.jsFiles)
                   (Fixture.serviceOf Fixture.testFunctionsConfig
                      (Some (ConfigInline
                               (setEntry
                                  (EntryObject
                                     [("module2", ItemFile "./module2.js");
                                      ("handlers/module2/func3/module2",
                                       ItemFile "./handlers/module2/func3/module2.js");
                                      ("module1", ItemFile "./module1.js");
                                      ("handlers/func3/module2",
                                       ItemFile "./handlers/func3/module2.js")])
                                  Fixture.testConfig))) true)
                   Fixture.noOptions false Fixture.fresh Fixture.expectedLibEntries
                   _ _ _ _ _ eq_refl eq_refl _)).
  - vm_compute. reflexivity.
  - unfold asEntry, Fixture.expectedLibEntries. cbn [map fst snd].
    apply (Permutation_cons_app [_] _). cbn [app].
    apply (Permutation_cons_app [_; _] []). apply Permutation_refl.
Defined.

(** ** The defaults of the context and of the target *)

Lemma context_defaultOutput serverless c :
  context (defaultOutput serverless c) = context c.
Proof. unfold defaultOutput. destruct (output c) as [o|]; [destruct (outputIsEmpty o)|]; reflexivity. Qed.

Lemma target_defaultOutput serverless c :
  target (defaultOutput serverless c) = target c.
Proof. unfold defaultOutput. destruct (output c) as [o|]; [destruct (outputIsEmpty o)|]; reflexivity. Qed.

Lemma context_withDefaults serverless options c :
  context (withDefaults serverless options c) =
  Some (Js.or_else (context c) (servicePath serverless)).
Proof.
  unfold withDefaults, customOutputPath.
  assert (H : context (defaultOutput serverless (defaultTarget (defaultContext serverless c)))
              = Some (Js.or_else (context c) (servicePath serverless))).
  { rewrite context_defaultOutput. unfold defaultTarget.
    assert (Hc : context (defaultContext serverless c)
                 = Some (Js.or_else (context c) (servicePath serverless))).
    { unfold defaultContext. destruct (context c) as [s|] eqn:Hc; cbn [Js.truthy_opt Js.or_else].
      - destruct (Js.truthy s); cbn [negb]; [exact Hc|reflexivity].
      - reflexivity. }
    destruct (negb _); exact Hc. }
  destruct (Js.truthy_opt (out options)); exact H.
Qed.

Lemma target_withDefaults serverless options c :
  target (withDefaults serverless options c) = Some (Js.or_else (target c) "node").
Proof.
  unfold withDefaults, customOutputPath.
  assert (H : target (defaultOutput serverless (defaultTarget (defaultContext serverless c)))
              = Some (Js.or_else (target c) "node")).
  { rewrite target_defaultOutput. unfold defaultTarget.
    assert (Hc : target (defaultContext serverless c) = target c)
      by (unfold defaultContext; destruct (negb _); reflexivity).
    rewrite Hc. destruct (target c) as [s|] eqn:Ht; cbn [Js.truthy_opt Js.or_else].
    - destruct (Js.truthy s); cbn [negb]; [now rewrite Hc|reflexivity].
    - reflexivity. }
  destruct (Js.truthy_opt (out options)); exact H.
Qed.

Lemma rest_withDefaults serverless options c :
  devtool (withDefaults serverless options c) = devtool c
  /\ configRest (withDefaults serverless options c) = configRest c.
Proof.
  unfold withDefaults, customOutputPath, defaultOutput, defaultTarget, defaultContext.
  repeat match goal with
         | |- context [if ?b then _ else _] => destruct b
         | |- context [match ?x with Some _ => _ | None => _ end] => destruct x
         end; split; reflexivity.
Qed.

(** The output after the defaults: the output that is given, or the default
    output when none or an empty one is given, with the directory of the
    option [out] under the service path as its path when the option is
    set. *)
Lemma outputOf_withDefaults serverless options c0 :
  outputOf serverless (withDefaults serverless options c0) =
  let given := match output c0 with
               | Some o => if outputIsEmpty o then theDefaultOutput serverless else o
               | None => theDefaultOutput serverless
               end in
  if Js.truthy_opt (out options)
  then setPath (Path.join [servicePath serverless; Js.show_opt (out options)]) given
  else given.
Proof.
  assert (Ho : output (defaultTarget (defaultContext serverless c0)) = output c0).
  { unfold defaultTarget. destruct (negb _); unfold defaultContext;
      destruct (negb _); reflexivity. }
  assert (Hd : outputOf serverless
                 (defaultOutput serverless (defaultTarget (defaultContext serverless c0))) =
               match output c0 with
               | Some o => if outputIsEmpty o then theDefaultOutput serverless else o
               | None => theDefaultOutput serverless
               end).
  { unfold outputOf, defaultOutput. rewrite Ho.
    destruct (output c0) as [o|] eqn:Eo; [|reflexivity].
    destruct (outputIsEmpty o); cbn [output setOutput]; [reflexivity|].
    now rewrite Ho. }
  cbv zeta. unfold withDefaults, customOutputPath.
  destruct (Js.truthy_opt (out options)); [|exact Hd].
  unfold outputOf at 1. cbn [output setOutput]. now rewrite Hd.
Qed.

(** X16. Without individual packaging, when [validate] resolves, the
    configuration of the plugin is the configuration loaded with these
    changes only: its context is the service path unless it had a context
    that is not empty, its target is [node] unless it had a target that is
    not empty, and its output is the one with the defaults, the segment
    [service] joined to its path.  The output with the defaults is the
    output that is given, or the default output when none or an empty one is
    given, and its path is the directory of the option [out] under the
    service path when that option is set.  Its entry, its devtool and its
    other fields are as loaded: in this mode [validate] does not set the
    entry. *)
Theorem context_and_target_defaults env serverless options keep w entries w1 c0 w2 w' :
  packageIndividually (service serverless) = false ->
  resolveEntries env serverless options (started serverless w) = (Ok entries, w1) ->
  loadConfig env serverless (exposed serverless options entries w1) = (Ok (inl c0), w2) ->
  validate env serverless options keep w = (Ok Resolved, w') ->
  exists c p,
    webpackConfig (this w') = Some (WebpackSingle c)
    /\ context c = Some (Js.or_else (context c0) (servicePath serverless))
    /\ target c = Some (Js.or_else (target c0) "node")
    /\ (let given := match output c0 with
                     | Some o => if outputIsEmpty o then theDefaultOutput serverless else o
                     | None => theDefaultOutput serverless
                     end in
        let defaulted :=
          if Js.truthy_opt (out options)
          then setPath (Path.join [servicePath serverless; Js.show_opt (out options)]) given
          else given in
        path defaulted = Some p
        /\ output c = Some (setPath (Path.join [p; "service"]) defaulted))
    /\ entry c = entry c0
    /\ devtool c = devtool c0
    /\ configRest c = configRest c0.
Proof.
  intros Hind Hent Hload Hrun.
  pose proof (removal_has_not_thrown env serverless options keep w entries w1 c0 w2
                Resolved Hent Hload (f_equal fst Hrun)) as Hrm.
  rewrite validate_stages, Hent, Hload, configure_run, Hind in Hrun by exact Hrm.
  destruct (path (outputOf serverless (withDefaults serverless options c0))) as [p|] eqn:Hp;
    [|discriminate].
  injection Hrun as <-. eexists. exists p. rewrite this_written.
  split; [reflexivity|].
  cbn [context target entry devtool configRest output setOutput].
  rewrite context_withDefaults, target_withDefaults, entry_withDefaults.
  destruct (rest_withDefaults serverless options c0) as [-> ->].
  rewrite <- outputOf_withDefaults, Hp.
  repeat split.
Qed.

Lemma context_and_target_defaults_witness :
  exists c p,
    webpackConfig
      (this (snd (validate (Fixture.envOf Fixture.jsFiles)
                    (Fixture.serviceOf Fixture.testFunctionsConfig
                       (Some (ConfigInline Fixture.overrideConfig)) false)
                    (Fixture.outTo "testdir") false Fixture.fresh)))
    = Some (WebpackSingle c)
    /\ context c = Some "testcontext"
    /\ target c = Some "node"
    /\ (path {| libraryTarget := None; path := Some "testpath/testdir";
                filename := Some "filename"; outputRest := [] |} = Some p
        /\ output c = Some {| libraryTarget := None; path := Some "testpath/testdir/service";
                              filename := Some "filename"; outputRest := [] |})
    /\ entry c = Some (EntryFile "test")
    /\ devtool c = None
    /\ configRest c = [].
Proof.
  destruct (context_and_target_defaults (Fixture.envOf Fixture.jsFiles)
           (Fixture.serviceOf Fixture.testFunctionsConfig
              (Some (ConfigInline Fixture.overrideConfig)) false)
           (Fixture.outTo "testdir") false Fixture.fresh Fixture.expectedLibEntries
           (snd (resolveEntries (Fixture.envOf Fixture.jsFiles)
                   (Fixture.serviceOf Fixture.testFunctionsConfig
                      (Some (ConfigInline Fixture.overrideConfig)) false)
                   (Fixture.outTo "testdir")
                   (started (Fixture.serviceOf Fixture.testFunctionsConfig
                               (Some (ConfigInline Fixture.overrideConfig)) false)
                      Fixture.fresh)))
           Fixture.overrideConfig
           (exposed (Fixture.serviceOf Fixture.testFunctionsConfig
                       (Some (ConfigInline Fixture.overrideConfig)) false)
              (Fixture.outTo "testdir") Fixture.expectedLibEntries
              (snd (resolveEntries (Fixture.envOf Fixture.jsFiles)
                      (Fixture.serviceOf Fixture.testFunctionsConfig
                         (Some (ConfigInline Fixture.overrideConfig)) false)
                      (Fixture.outTo "testdir")
                      (started (Fixture.serviceOf Fixture.testFunctionsConfig
                                  (Some (ConfigInline Fixture.overrideConfig)) false)
                         Fixture.fresh))))
           (snd (validate (Fixture.envOf Fixture.jsFiles)
                   (Fixture.serviceOf Fixture.testFunctionsConfig
                      (Some (ConfigInline Fixture.overrideConfig)) false)
                   (Fixture.outTo "testdir") false Fixture.fresh)))
    as (c & p & Hc & Hctx & Htgt & [Hp Hout] & Hentry & Hdev & Hrest).
  - reflexivity.
  - lazy. reflexivity.
  - reflexivity.
  - lazy. reflexivity.
  - exists c, p. injection Hp as <-.
    split; [exact Hc|]. split; [exact Hctx|]. split; [exact Htgt|].
    split; [split; [reflexivity|exact Hout]|].
    split; [exact Hentry|]. split; [exact Hdev|exact Hrest].
Defined.

(** ** A configuration given in the service *)

(** X17. When the option of the service is a configuration object,
    [validate] neither tests for a file nor loads one: with any other file
    test and any other loader it does the same. *)
Theorem inline_configuration_needs_no_file
        env serverless options keep c exists_ load w :
  customWebpack (service serverless) = Some (ConfigInline c) ->
  validate (withLoader env exists_ load) serverless options keep w =
  validate env serverless options keep w.
Proof.
  intros Hc. rewrite !validate_stages.
  change (resolveEntries (withLoader env exists_ load) serverless options)
    with (resolveEntries env serverless options).
  destruct (resolveEntries env serverless options (started serverless w))
    as [[entries|e] w1]; [|reflexivity].
  assert (Hload : forall env' w0, loadConfig env' serverless w0 = (Ok (inl c), w0)).
  { intros env' w0. unfold loadConfig, configSource. now rewrite Hc. }
  rewrite !Hload. reflexivity.
Qed.

Lemma inline_configuration_needs_no_file_witness :
  validate (withLoader (Fixture.envOf Fixture.jsFiles) (fun _ => false)
              (fun _ _ => inr "SyntaxError"))
    (Fixture.serviceOf Fixture.testFunctionsConfig
       (Some (ConfigInline Fixture.testConfig)) true)
    Fixture.noOptions false Fixture.fresh =
  validate (Fixture.envOf Fixture.jsFiles)
    (Fixture.serviceOf Fixture.testFunctionsConfig
       (Some (ConfigInline Fixture.testConfig)) true)
    Fixture.noOptions false Fixture.fresh.
Proof.
  apply (inline_configuration_needs_no_file (Fixture.envOf Fixture.jsFiles)
           (Fixture.serviceOf Fixture.testFunctionsConfig
              (Some (ConfigInline Fixture.testConfig)) true)
           Fixture.noOptions false Fixture.testConfig).
  reflexivity.
Defined.

(** ** The entry of an element that several entries share *)

Lemma lastEntryFor_snoc env (h : string) (processed : Obj.t string) (kv : string * string) :
  lastEntryFor env h (processed ++ [kv])%list =
  if isFileOf env h kv then Some {| key := fst kv; value := snd kv |}
  else lastEntryFor env h processed.
Proof.
  unfold lastEntryFor. rewrite rev_app_distr. cbn [rev app filter].
  destruct (isFileOf env h kv); reflexivity.
Qed.

Lemma hasFile_In_matchingFrom (file : string) (all : list EntryFunction) (x : EntryFunction) :
  In x all -> hasFile file x = true -> matchingFrom 0 file all <> [].
Proof.
  intros Hin Hx H. apply In_nth_error in Hin as [i Hi].
  assert (Hi' : In i (matchingFrom 0 file all)).
  { apply In_matchingFrom. split; [lia|]. exists x. rewrite Nat.sub_0_r. now split. }
  rewrite H in Hi'. contradiction.
Qed.

Lemma lastBound_step env (processed : Obj.t string) acc kv w acc' w' :
  lastBound env processed acc ->
  bindEntry env acc kv w = (Ok acc', w') ->
  lastBound env (processed ++ [kv])%list acc'.
Proof.
  destruct acc as [all refs], kv as [k v]. intros (Hall & Hrefs) H.
  unfold bindEntry, bind, lift in H.
  destruct (stripExtension env (Path.relativeFromCwd (processCwd env) v))
    as [file|err] eqn:Hfile; [|discriminate].
  assert (Hmatch : forall h, isFileOf env h (k, v) = (file =? h)%string).
  { intros h. unfold isFileOf, entryFileOf. cbn [snd]. now rewrite Hfile. }
  remember (matchingFrom 0 file all) as hits eqn:Hhits.
  destruct hits as [|i0 t].
  - unfold ret in H. injection H as <- _. split; cbn [fst snd] in *.
    + intros x h Hx Hh. rewrite lastEntryFor_snoc, Hmatch.
      destruct (String.eqb_spec file h) as [->|Hne]; [|now apply Hall].
      exfalso. apply (hasFile_In_matchingFrom h all x Hx); [|now symmetry].
      unfold hasFile. rewrite Hh. apply String.eqb_refl.
    + intros r Hr. apply in_app_or in Hr as [Hr|[<-|[]]]; [now apply Hrefs|reflexivity].
  - unfold ret in H. rewrite Hhits in H. clear Hhits i0 t. injection H as <- _.
    split; cbn [fst snd] in *.
    + intros y h Hy Hh. rewrite assignEntry_matching in Hy.
      apply in_map_iff in Hy as (x & <- & Hx).
      rewrite lastEntryFor_snoc, Hmatch. unfold hasFile in *.
      destruct (handlerFile x) as [hx|] eqn:Hhx.
      * destruct (String.eqb_spec hx file) as [->|Hne].
        -- cbn [handlerFile withEntryRef] in Hh. rewrite Hhx in Hh. injection Hh as <-.
           rewrite String.eqb_refl. reflexivity.
        -- rewrite Hhx in Hh. injection Hh as <-.
           destruct (String.eqb_spec file hx) as [E|_]; [congruence|].
           now apply Hall.
      * rewrite Hhx in Hh. discriminate.
    + intros r Hr. apply in_app_or in Hr as [Hr|Hr].
      * specialize (Hrefs r Hr). destruct r as [i|b]; [|exact Hrefs].
        destruct Hrefs as (x & Hx). rewrite nth_error_assignEntry, Hx. simpl. eauto.
      * apply in_map_iff in Hr as (i & <- & Hi).
        apply In_matchingFrom in Hi as (_ & x & Hx & _). rewrite Nat.sub_0_r in Hx.
        rewrite nth_error_assignEntry, Hx. simpl. eauto.
Qed.

Lemma lastBound_all env (todo : Obj.t string) :
  forall processed acc w acc' w',
    lastBound env processed acc ->
    forEach todo (bindEntry env) acc w = (Ok acc', w') ->
    lastBound env (processed ++ todo)%list acc'.
Proof.
  induction todo as [|kv todo IH]; simpl; intros processed acc w acc' w' Hinv H.
  - unfold ret in H. injection H as <- _. now rewrite app_nil_r.
  - unfold bind in H. destruct (bindEntry env acc kv w) as [[acc1|e] w1] eqn:Hb;
      [|discriminate].
    replace (processed ++ kv :: todo)%list with ((processed ++ [kv]) ++ todo)%list
      by (rewrite <- app_assoc; reflexivity).
    apply (IH _ acc1 w1 acc' w'); [|exact H].
    apply (lastBound_step env processed acc kv w acc1 w1 Hinv Hb).
Qed.

(** X18. With individual packaging, when [validate] resolves: an element of
    [entryFunctions] that stands for a declared function has, as its entry,
    the last of the entries whose file is the handler file of the function,
    wherever the element stands; and the configurations are made from the
    elements, one by one.  An element is one object for all the entries it
    matches, so handler files that are written differently and are the same
    path give every one of their functions once for each of the entries,
    each time with the entry of the last. *)
Theorem shared_element_has_the_last_entry
        env serverless options keep w entries w1 c0 w2 w' :
  packageIndividually (service serverless) = true ->
  resolveEntries env serverless options (started serverless w) = (Ok entries, w1) ->
  loadConfig env serverless (exposed serverless options entries w1) = (Ok (inl c0), w2) ->
  validate env serverless options keep w = (Ok Resolved, w') ->
  exists funcs configs,
    entryFunctions (this w') = Some funcs
    /\ webpackConfig (this w') = Some (WebpackMulti configs)
    /\ Forall (fun b => forall h, handlerFile b = Some h ->
                                  entryRef b = lastEntryFor env h entries) funcs
    /\ Forall2 (fun b cfg =>
                  configFor serverless (withDefaults serverless options c0) b = Ok cfg)
         funcs configs.
Proof.
  intros Hind Hent Hload Hrun.
  pose proof (removal_has_not_thrown env serverless options keep w entries w1 c0 w2
                Resolved Hent Hload (f_equal fst Hrun)) as Hrm.
  rewrite validate_stages, Hent, Hload, configure_run, Hind in Hrun by exact Hrm.
  destruct (entryConflicts _ _); [discriminate|].
  unfold fanOut, bind at 1 in Hrun.
  destruct (allEntryFunctions env serverless _) as [[all|e] w3] eqn:Hall; [|discriminate].
  unfold bind at 1 in Hrun.
  destruct (forEach entries (bindEntry env) (all, []) w3) as [[bound|e] w4] eqn:Hbind;
    [|discriminate].
  unfold bind, modify in Hrun.
  destruct (mapM _ _ _) as [[configs|e] w5] eqn:Hconfigs; [|discriminate].
  injection Hrun as <-.
  apply mapM_lift in Hconfigs as [-> HF].
  exists (map (deref (fst bound)) (snd bound)), configs.
  split; [reflexivity|]. split; [reflexivity|]. split; [|exact HF].
  assert (Hinit : lastBound env [] (all, [])).
  { split; cbn [fst snd].
    - intros x h Hx _. apply (allEntryFunctions_unbound _ _ _ _ _ Hall x Hx).
    - intros r []. }
  destruct (lastBound_all env entries [] (all, []) w3 bound w4 Hinit Hbind) as (H1 & H2).
  cbn [app] in *.
  apply Forall_forall. intros b Hb h Hh.
  apply in_map_iff in Hb as (r & <- & Hr). specialize (H2 r Hr).
  destruct r as [i|b]; simpl in *.
  - destruct H2 as (x & Hx). rewrite (nth_error_nth _ _ _ Hx) in *.
    apply H1; [now apply nth_error_In with i|exact Hh].
  - congruence.
Qed.

Lemma shared_element_has_the_last_entry_witness :
  (exists (funcs : list EntryFunction) (configs : list Config),
     entryFunctions
       (this (snd (validate (Fixture.envOf Fixture.jsFiles)
                     (Fixture.serviceOf aliasedFunctions
                        (Some (ConfigInline Fixture.testConfig)) true)
                     Fixture.noOptions false Fixture.fresh))) = Some funcs
     /\ webpackConfig
          (this (snd (validate (Fixture.envOf Fixture.jsFiles)
                        (Fixture.serviceOf aliasedFunctions
                           (Some (ConfigInline Fixture.testConfig)) true)
                        Fixture.noOptions false Fixture.fresh))) = Some (WebpackMulti configs)
     /\ Forall (fun b => forall h, handlerFile b = Some h ->
                                   entryRef b =
                                   lastEntryFor (Fixture.envOf Fixture.jsFiles) h
                                     [("module1", "./module1.js");
                                      ("./module1", "././module1.js")]) funcs
     /\ Forall2 (fun b cfg =>
                   configFor (Fixture.serviceOf aliasedFunctions
                                (Some (ConfigInline Fixture.testConfig)) true)
                     (withDefaults (Fixture.serviceOf aliasedFunctions
                                      (Some (ConfigInline Fixture.testConfig)) true)
                        Fixture.noOptions Fixture.testConfig) b = Ok cfg)
          funcs configs)
  /\ lastEntryFor (Fixture.envOf Fixture.jsFiles) "module1"
       [("module1", "./module1.js"); ("./module1", "././module1.js")]
     = Some {| key := "./module1"; value := "././module1.js" |}
  /\ option_map (map (fun b => (funcName b, handlerFile b)))
       (entryFunctions
          (this (snd (validate (Fixture.envOf Fixture.jsFiles)
                        (Fixture.serviceOf aliasedFunctions
                           (Some (ConfigInline Fixture.testConfig)) true)
                        Fixture.noOptions false Fixture.fresh))))
     = Some [(Some "first", Some "module1"); (Some "second", Some "module1");
             (Some "first", Some "module1"); (Some "second", Some "module1")].
Proof.
  split; [|split; vm_compute; reflexivity].
  apply (shared_element_has_the_last_entry (Fixture.envOf Fixture.jsFiles)
           (Fixture.serviceOf aliasedFunctions (Some (ConfigInline Fixture.testConfig)) true)
           Fixture.noOptions false Fixture.fresh
           [("module1", "./module1.js"); ("./module1", "././module1.js")]
           (snd (resolveEntries (Fixture.envOf Fixture.jsFiles)
                   (Fixture.serviceOf aliasedFunctions
                      (Some (ConfigInline Fixture.testConfig)) true)
                   Fixture.noOptions
                   (started (Fixture.serviceOf aliasedFunctions
                               (Some (ConfigInline Fixture.testConfig)) true)
                      Fixture.fresh)))
           Fixture.testConfig
           (exposed (Fixture.serviceOf aliasedFunctions
                       (Some (ConfigInline Fixture.testConfig)) true)
              Fixture.noOptions
              [("module1", "./module1.js"); ("./module1", "././module1.js")]
              (snd (resolveEntries (Fixture.envOf Fixture.jsFiles)
                      (Fixture.serviceOf aliasedFunctions
                         (Some (ConfigInline Fixture.testConfig)) true)
                      Fixture.noOptions
                      (started (Fixture.serviceOf aliasedFunctions
                                  (Some (ConfigInline Fixture.testConfig)) true)
                         Fixture.fresh))))
           (snd (validate (Fixture.envOf Fixture.jsFiles)
                   (Fixture.serviceOf aliasedFunctions
                      (Some (ConfigInline Fixture.testConfig)) true)
                   Fixture.noOptions false Fixture.fresh))).
  - reflexivity.
  - vm_compute. reflexivity.
  - reflexivity.
  - vm_compute. reflexivity.
Defined.

(** ** What the configuration file finds in [lib] *)

(** X19. A configuration file is loaded after the entries are exposed: the
    loader finds the service, the options and all the entries in [lib].
    [validate] goes on with the configuration that the file gives for this
    [lib], which is then the configuration of the plugin; when the file
    fails to load, the failure is logged and the promise is rejected with
    it, and nothing else is done. *)
Theorem configuration_file_finds_the_entries env serverless options keep w entries w1 file :
  resolveEntries env serverless options (started serverless w) = (Ok entries, w1) ->
  configSource serverless = ConfigFile file ->
  fileExistsSync env (Path.join [servicePath serverless; file]) = true ->
  (forall c,
     requireConfig env (Path.join [servicePath serverless; file])
       {| libServerless := Some serverless; libOptions := Some options;
          libEntries := Some entries |} = inl c ->
     validate env serverless options keep w =
     configure env serverless options keep c entries
       (setThis (withWebpackConfig (WebpackSingle c))
          (exposed serverless options entries w1)))
  /\ (forall err,
        requireConfig env (Path.join [servicePath serverless; file])
          {| libServerless := Some serverless; libOptions := Some options;
             libEntries := Some entries |} = inr err ->
        validate env serverless options keep w =
        (Ok (Rejected (LoadError err)),
         setCliLog
           (fun l => (l ++ [("Could not load webpack config '"
                             ++ Path.join [servicePath serverless; file] ++ "'")%string])%list)
           (exposed serverless options entries w1))).
Proof.
  intros Hent Hsrc Hex.
  split; intros r Hr; rewrite validate_stages, Hent;
    unfold loadConfig; rewrite Hsrc, Hex; cbn [negb];
    change (lib (exposed serverless options entries w1))
      with {| libServerless := Some serverless; libOptions := Some options;
              libEntries := Some entries |};
    rewrite Hr; reflexivity.
Qed.

Lemma configuration_file_finds_the_entries_witness :
  fst (validate
         (withLoader (Fixture.envOf Fixture.jsFiles) (fun _ => true) entriesOfLib)
         (Fixture.serviceOf sharedFunctions None true)
         Fixture.noOptions false Fixture.fresh) = Ok Resolved
  /\ Fixture.outputPaths
       (this (snd (validate
                     (withLoader (Fixture.envOf Fixture.jsFiles) (fun _ => true) entriesOfLib)
                     (Fixture.serviceOf sharedFunctions None true)
                     Fixture.noOptions false Fixture.fresh))) =
     [Some "output/create"; Some "output/remove"; Some "output/list"].
Proof.
  rewrite (proj1 (configuration_file_finds_the_entries
                    (withLoader (Fixture.envOf Fixture.jsFiles) (fun _ => true) entriesOfLib)
                    (Fixture.serviceOf sharedFunctions None true)
                    Fixture.noOptions false Fixture.fresh
                    [("module1", "./module1.js"); ("module2", "./module2.js")]
                    (snd (resolveEntries (Fixture.envOf Fixture.jsFiles)
                            (Fixture.serviceOf sharedFunctions None true)
                            Fixture.noOptions
                            (started (Fixture.serviceOf sharedFunctions None true)
                               Fixture.fresh)))
                    "webpack.config.js" ltac:(vm_compute; reflexivity) eq_refl eq_refl)
                 (setEntry (EntryObject (asEntry [("module1", "./module1.js");
                                                  ("module2", "./module2.js")]))
                    Fixture.testConfig)
                 eq_refl).
  split; vm_compute; reflexivity.
Defined.

(** ** What the order of the listing can change *)

(** The winner among files some of which are preferred is a preferred file
    that no preferred file is shorter than. *)
Lemma winner_is_shortest_preferred (files : list string) (f : string) :
  Lodash.first (sortedFiles files) = Some f ->
  (exists g, In g files /\ preferred g = true) ->
  In f files /\ preferred f = true
  /\ forall g, In g files -> preferred g = true -> Lodash.size f <= Lodash.size g.
Proof.
  intros Hf (g0 & Hg0 & Hp0). rewrite sortedFiles_first in Hf.
  destruct (Lodash.sortBy Lodash.size (filter preferred files)) as [|y s] eqn:Hs.
  - exfalso.
    assert (Hin : In g0 (Lodash.sortBy Lodash.size (filter preferred files))).
    { apply sortBy_In. apply filter_In. now split. }
    rewrite Hs in Hin. contradiction.
  - injection Hf as <-.
    assert (Hy : In y (filter preferred files)).
    { apply (sortBy_In Lodash.size). rewrite Hs. now left. }
    apply filter_In in Hy as [Hy Hpy]. split; [exact Hy|]. split; [exact Hpy|].
    destruct (sortBy_first _ _ _ _ Hs) as (pre & post & Hsplit & Hpre & Hpost).
    intros g Hg Hp.
    assert (Hgin : In g (filter preferred files)) by (apply filter_In; now split).
    rewrite Hsplit in Hgin. apply in_app_or in Hgin as [Hgin|[<-|Hgin]].
    + specialize (Hpre g Hgin). lia.
    + lia.
    + now apply Hpost.
Qed.

(** X20. Two listings with the same files, some of them with a preferred
    extension: in both [getEntryExtension] returns the extension of a
    preferred file, and the two winners have the same length.  The order of
    the listing decides between preferred files of the same least length
    only. *)
Theorem listing_order_decides_ties_only env env' serverless b w w' files files' :
  globbySync env (b ++ ".*") (globCwd env serverless) = files ->
  globbySync env' (b ++ ".*") (globCwd env' serverless) = files' ->
  (forall x, In x files <-> In x files') ->
  (exists g, In g files /\ preferred g = true) ->
  exists f f',
    fst (getEntryExtension env serverless b w) = Ok (Path.extname f)
    /\ fst (getEntryExtension env' serverless b w') = Ok (Path.extname f')
    /\ In f files /\ In f' files
    /\ preferred f = true /\ preferred f' = true
    /\ Lodash.size f = Lodash.size f'.
Proof.
  intros Hfiles Hfiles' Hsame (g & Hg & Hp).
  assert (Hg' : In g files') by now apply Hsame.
  destruct files as [|x fs]; [contradiction|].
  destruct files' as [|x' fs']; [contradiction|].
  destruct (getEntryExtension_found env serverless b w x fs Hfiles) as (f & Hf & Hrun).
  destruct (getEntryExtension_found env' serverless b w' x' fs' Hfiles')
    as (f' & Hf' & Hrun').
  destruct (winner_is_shortest_preferred _ f Hf) as (Hin & Hpf & Hmin); [eauto|].
  destruct (winner_is_shortest_preferred _ f' Hf') as (Hin' & Hpf' & Hmin'); [eauto|].
  exists f, f'. rewrite Hrun, Hrun'.
  apply Hsame in Hin'. pose proof Hin as Hin2. apply Hsame in Hin2.
  specialize (Hmin f' Hin' Hpf'). specialize (Hmin' f Hin2 Hpf).
  repeat split; try assumption. lia.
Qed.

Lemma listing_order_decides_ties_only_witness :
  exists f f',
    fst (getEntryExtension (Fixture.envOf (fun _ _ => Fixture.mostProbable))
           (Fixture.serviceOf Fixture.testFunctionsConfig None false)
           "module1" Fixture.fresh) = Ok (Path.extname f)
    /\ fst (getEntryExtension (Fixture.envOf (fun _ _ => rev Fixture.mostProbable))
              (Fixture.serviceOf Fixture.testFunctionsConfig None false)
              "module1" Fixture.fresh) = Ok (Path.extname f')
    /\ In f Fixture.mostProbable /\ In f' Fixture.mostProbable
    /\ preferred f = true /\ preferred f' = true
    /\ Lodash.size f = Lodash.size f'.
Proof.
  apply (listing_order_decides_ties_only
           (Fixture.envOf (fun _ _ => Fixture.mostProbable))
           (Fixture.envOf (fun _ _ => rev Fixture.mostProbable))
           (Fixture.serviceOf Fixture.testFunctionsConfig None false)
           "module1" Fixture.fresh Fixture.fresh
           Fixture.mostProbable (rev Fixture.mostProbable) eq_refl eq_refl).
  - intros x. apply in_rev.
  - exists "module1.ts". split; [simpl; tauto|vm_compute; reflexivity].
Defined.

(** ** The names made by [_.camelCase] *)












